(** * Guardian Angel: emergency trigger, location watch and sharing session

    A shallow embedding of the stateful core of [src/index.tsx] (the [App]
    component): the volume-key gesture handlers, [activateEmergencyMode],
    the location-watch effect, the sharing countdown effect and the
    sharing handlers.

    The component is a React function component, rendered with
    [createRoot].  Its behaviour is modelled as a transition system over
    a [World]:
    - [State] holds the [useState] cells,
    - [Refs] holds the [useRef] cells,
    - [Platform] holds what the browser keeps for the page: the clock, the
      timer table, the geolocation watches, the pending asynchronous
      requests, the siren element, and a log of the calls made.

    An [Event] is one callback of the page: a key event, a click, a timer
    that comes due, the answer to an asynchronous request, a callback of
    the geolocation watch.  It runs to completion against the state of
    the last render, its state updates are batched, and it is followed by
    [commit], the render: every effect whose dependency array changed is
    re-run, all clean-ups first (each closing over the previous render),
    then all bodies.  Time only passes between events ([EvElapse]); a timer
    may fire late but never early.

    A closure (timer callback, watch callback) is represented by the
    values it captured.  Ids of timers, watches, requests and position
    objects are drawn from one counter.

    The second part of the definitions adds the rest of the component:
    the simulated call with its script, voice and clock, the help lookups
    and the chat.

    Out of the model: the calls on the map objects, the messages of the
    share buttons, the rendering of an answer as HTML, styling; the double
    mount of development builds. *)

From Stdlib Require Import ZArith List String Ascii Bool Lia Arith DecimalString.
From Stdlib Require DecimalPos.
Import ListNotations.

Local Open Scope string_scope.
Local Open Scope Z_scope.

Set Implicit Arguments.

(** ** Data *)

Inductive View := Home | Tools | ChatView.

(** A position object as stored by [setLocation].  Coordinates are kept
    in fixed point (the code only copies them and tests them for zero);
    [ident] is the identity of the JS object: [setLocation] always
    receives a fresh object, and the dependency array of the watch effect
    compares objects by identity. *)
Record Loc := mkLoc { ident : nat; latitude : Z; longitude : Z }.

(** The [useState] cells of [App] (lines 15-33). *)
Record State := mkState {
  view : View;
  isEmergency : bool;
  location : option Loc;
  error : option string;
  isRecording : bool;
  showFakeCall : bool;
  showContactSelector : bool;
  isCallActive : bool;
  showSharingOptions : bool;
  isSharingLocation : bool;
  sharingEndTime : option Z;
  remainingTime : string;
  volumeUpCount : nat }.

(** The [useRef] cells (lines 35-49).  [mediaRecorderRef] is [Some true]
    while the recorder it points to is in state ['recording'].
    [mapInstanceRef] and [markerRef] are set and cleared together. *)
Record Refs := mkRefs {
  mediaRecorderRef : option bool;
  mapInstanceRef : bool;
  locationWatchIdRef : option nat;
  locationSharingTimerRef : option nat;
  volumeUpTimeoutRef : option nat;
  longPressTimeoutRef : option nat }.

(** The closure a timer runs.  A closure is represented by the values it
    captured from the render that created it. *)
Inductive TimerKind :=
| LongPress (capturedIsEmergency : bool)  (* line 257; [activateEmergencyMode] of that render *)
| TapWindow                               (* line 274 *)
| ShareTick (capturedEndTime : Z).        (* line 215, an interval *)

Record Timer := mkTimer { tid : nat; due : Z; kind : TimerKind }.

(** A geolocation watch; its error callback captured [isSharingLocation]. *)
Record Watch := mkWatch { wid : nat; capturedSharing : bool }.

(** Asynchronous requests that have not called back yet. *)
Inductive Async :=
| PermissionMedia   (* line 53 *)
| PermissionFix     (* line 54 *)
| ActivationFix     (* line 117 *)
| RecordingStart.   (* line 88 *)

(** Calls that leave the component, newest first. *)
Inductive Call :=
| CWatchPosition (id : nat)
| CClearWatch (id : nat)
| CGetCurrentPosition
| CSirenPlay
| CSirenPause
| CVibrate (on : bool)
| CDownload
| CQuadTap      (* line 271 reached *)
| CLongPress.   (* line 258 reached *)

Record Platform := mkPlatform {
  now : Z;
  nextId : nat;
  timers : list Timer;
  watches : list Watch;
  pending : list (nat * Async);
  sirenPlaying : bool;
  canVibrate : bool;     (* ['vibrate' in navigator] *)
  leaflet : bool;        (* [window.L] is loaded *)
  calls : list Call }.

Record World := mkWorld { st : State; refs : Refs; plat : Platform }.

(** ** Field updates *)

Definition set_view v s :=
  mkState v (isEmergency s) (location s) (error s) (isRecording s) (showFakeCall s)
    (showContactSelector s) (isCallActive s) (showSharingOptions s) (isSharingLocation s)
    (sharingEndTime s) (remainingTime s) (volumeUpCount s).
Definition setIsEmergency v s :=
  mkState (view s) v (location s) (error s) (isRecording s) (showFakeCall s)
    (showContactSelector s) (isCallActive s) (showSharingOptions s) (isSharingLocation s)
    (sharingEndTime s) (remainingTime s) (volumeUpCount s).
Definition setLocation v s :=
  mkState (view s) (isEmergency s) v (error s) (isRecording s) (showFakeCall s)
    (showContactSelector s) (isCallActive s) (showSharingOptions s) (isSharingLocation s)
    (sharingEndTime s) (remainingTime s) (volumeUpCount s).
Definition setError v s :=
  mkState (view s) (isEmergency s) (location s) v (isRecording s) (showFakeCall s)
    (showContactSelector s) (isCallActive s) (showSharingOptions s) (isSharingLocation s)
    (sharingEndTime s) (remainingTime s) (volumeUpCount s).
Definition setIsRecording v s :=
  mkState (view s) (isEmergency s) (location s) (error s) v (showFakeCall s)
    (showContactSelector s) (isCallActive s) (showSharingOptions s) (isSharingLocation s)
    (sharingEndTime s) (remainingTime s) (volumeUpCount s).
Definition setShowFakeCall v s :=
  mkState (view s) (isEmergency s) (location s) (error s) (isRecording s) v
    (showContactSelector s) (isCallActive s) (showSharingOptions s) (isSharingLocation s)
    (sharingEndTime s) (remainingTime s) (volumeUpCount s).
Definition setShowContactSelector v s :=
  mkState (view s) (isEmergency s) (location s) (error s) (isRecording s) (showFakeCall s)
    v (isCallActive s) (showSharingOptions s) (isSharingLocation s)
    (sharingEndTime s) (remainingTime s) (volumeUpCount s).
Definition setIsCallActive v s :=
  mkState (view s) (isEmergency s) (location s) (error s) (isRecording s) (showFakeCall s)
    (showContactSelector s) v (showSharingOptions s) (isSharingLocation s)
    (sharingEndTime s) (remainingTime s) (volumeUpCount s).
Definition setShowSharingOptions v s :=
  mkState (view s) (isEmergency s) (location s) (error s) (isRecording s) (showFakeCall s)
    (showContactSelector s) (isCallActive s) v (isSharingLocation s)
    (sharingEndTime s) (remainingTime s) (volumeUpCount s).
Definition setIsSharingLocation v s :=
  mkState (view s) (isEmergency s) (location s) (error s) (isRecording s) (showFakeCall s)
    (showContactSelector s) (isCallActive s) (showSharingOptions s) v
    (sharingEndTime s) (remainingTime s) (volumeUpCount s).
Definition setSharingEndTime v s :=
  mkState (view s) (isEmergency s) (location s) (error s) (isRecording s) (showFakeCall s)
    (showContactSelector s) (isCallActive s) (showSharingOptions s) (isSharingLocation s)
    v (remainingTime s) (volumeUpCount s).
Definition setRemainingTime v s :=
  mkState (view s) (isEmergency s) (location s) (error s) (isRecording s) (showFakeCall s)
    (showContactSelector s) (isCallActive s) (showSharingOptions s) (isSharingLocation s)
    (sharingEndTime s) v (volumeUpCount s).
Definition setVolumeUpCount v s :=
  mkState (view s) (isEmergency s) (location s) (error s) (isRecording s) (showFakeCall s)
    (showContactSelector s) (isCallActive s) (showSharingOptions s) (isSharingLocation s)
    (sharingEndTime s) (remainingTime s) v.

Definition set_mediaRecorderRef v r :=
  mkRefs v (mapInstanceRef r) (locationWatchIdRef r) (locationSharingTimerRef r)
    (volumeUpTimeoutRef r) (longPressTimeoutRef r).
Definition set_mapInstanceRef v r :=
  mkRefs (mediaRecorderRef r) v (locationWatchIdRef r) (locationSharingTimerRef r)
    (volumeUpTimeoutRef r) (longPressTimeoutRef r).
Definition set_locationWatchIdRef v r :=
  mkRefs (mediaRecorderRef r) (mapInstanceRef r) v (locationSharingTimerRef r)
    (volumeUpTimeoutRef r) (longPressTimeoutRef r).
Definition set_locationSharingTimerRef v r :=
  mkRefs (mediaRecorderRef r) (mapInstanceRef r) (locationWatchIdRef r) v
    (volumeUpTimeoutRef r) (longPressTimeoutRef r).
Definition set_volumeUpTimeoutRef v r :=
  mkRefs (mediaRecorderRef r) (mapInstanceRef r) (locationWatchIdRef r)
    (locationSharingTimerRef r) v (longPressTimeoutRef r).
Definition set_longPressTimeoutRef v r :=
  mkRefs (mediaRecorderRef r) (mapInstanceRef r) (locationWatchIdRef r)
    (locationSharingTimerRef r) (volumeUpTimeoutRef r) v.

Definition set_now v p :=
  mkPlatform v (nextId p) (timers p) (watches p) (pending p) (sirenPlaying p)
    (canVibrate p) (leaflet p) (calls p).
Definition set_nextId v p :=
  mkPlatform (now p) v (timers p) (watches p) (pending p) (sirenPlaying p)
    (canVibrate p) (leaflet p) (calls p).
Definition set_timers v p :=
  mkPlatform (now p) (nextId p) v (watches p) (pending p) (sirenPlaying p)
    (canVibrate p) (leaflet p) (calls p).
Definition set_watches v p :=
  mkPlatform (now p) (nextId p) (timers p) v (pending p) (sirenPlaying p)
    (canVibrate p) (leaflet p) (calls p).
Definition set_pending v p :=
  mkPlatform (now p) (nextId p) (timers p) (watches p) v (sirenPlaying p)
    (canVibrate p) (leaflet p) (calls p).
Definition set_sirenPlaying v p :=
  mkPlatform (now p) (nextId p) (timers p) (watches p) (pending p) v
    (canVibrate p) (leaflet p) (calls p).
Definition set_calls v p :=
  mkPlatform (now p) (nextId p) (timers p) (watches p) (pending p) (sirenPlaying p)
    (canVibrate p) (leaflet p) v.

Definition onState (f : State -> State) (w : World) : World :=
  mkWorld (f (st w)) (refs w) (plat w).
Definition onRefs (f : Refs -> Refs) (w : World) : World :=
  mkWorld (st w) (f (refs w)) (plat w).
Definition onPlat (f : Platform -> Platform) (w : World) : World :=
  mkWorld (st w) (refs w) (f (plat w)).

(** ** Platform primitives *)

Definition emit (c : Call) : World -> World :=
  onPlat (fun p => set_calls (c :: calls p) p).

(** [setTimeout] and [setInterval]: a new entry in the timer table under a
    fresh id.  Ids start at 1 ([mount]), so a stored id is always truthy,
    which is what the guards [if (ref.current)] of the source test. *)
Definition setTimeout (k : TimerKind) (delay : Z) (w : World) : nat * World :=
  let id := nextId (plat w) in
  (id, onPlat (fun p => set_nextId (S id)
                 (set_timers (mkTimer id (now p + delay) k :: timers p) p)) w).

Definition setInterval := setTimeout.

Definition dropTimer (id : nat) (l : list Timer) : list Timer :=
  filter (fun t => negb (Nat.eqb (tid t) id)) l.

(** [if (ref.current) clearTimeout(ref.current)], also for [clearInterval]. *)
Definition clearTimeout (r : option nat) (w : World) : World :=
  match r with
  | Some id => onPlat (fun p => set_timers (dropTimer id (timers p)) p) w
  | None => w
  end.

Definition watchPosition (capturedSharing_ : bool) (w : World) : nat * World :=
  let id := nextId (plat w) in
  (id, emit (CWatchPosition id)
         (onPlat (fun p => set_nextId (S id)
                    (set_watches (mkWatch id capturedSharing_ :: watches p) p)) w)).

Definition clearWatch (id : nat) (w : World) : World :=
  emit (CClearWatch id)
    (onPlat (fun p => set_watches
               (filter (fun x => negb (Nat.eqb (wid x) id)) (watches p)) p) w).

Definition request (a : Async) (w : World) : World :=
  onPlat (fun p => set_nextId (S (nextId p))
            (set_pending ((nextId p, a) :: pending p) p)) w.

Definition getCurrentPosition (a : Async) (w : World) : World :=
  emit CGetCurrentPosition (request a w).

Definition getUserMedia (a : Async) (w : World) : World := request a w.

(** A fresh position object. *)
Definition newLoc (lat lon : Z) (w : World) : Loc * World :=
  (mkLoc (nextId (plat w)) lat lon,
   onPlat (fun p => set_nextId (S (nextId p)) p) w).

(** ** Countdown text (lines 222-231) *)

Definition toString (z : Z) : string := NilZero.string_of_int (Z.to_int z).

Fixpoint repeatChar (c : ascii) (n : nat) : string :=
  match n with
  | O => EmptyString
  | S n' => String c (repeatChar c n')
  end.

(** [s.padStart(n, c)] for a one-character pad. *)
Definition padStart (n : nat) (c : ascii) (s : string) : string :=
  repeatChar c (n - String.length s) ++ s.

Definition formatRemaining (remaining : Z) : string :=
  let totalSeconds := remaining / 1000 in
  let hours := totalSeconds / 3600 in
  let minutes := Z.rem totalSeconds 3600 / 60 in
  let seconds := Z.rem totalSeconds 60 in
  let timeString := if 0 <? hours then toString hours ++ "h " else "" in
  timeString ++ padStart 2 "0" (toString minutes) ++ ":"
    ++ padStart 2 "0" (toString seconds) ++ " remaining".

(** ** Handlers *)

(** JS truthiness of a [number | null]. *)
Definition truthy (o : option Z) : bool :=
  match o with
  | Some z => negb (z =? 0)
  | None => false
  end.

Definition msgLocationDenied :=
  "Location permission denied. Please enable it in your browser settings.".
Definition msgPermissions :=
  "Permissions for camera and microphone are required for full functionality.".
Definition msgRecording := "Could not start recording. Permissions may be denied.".
Definition msgNoFix :=
  "Could not get location. Please ensure location services are enabled.".
Definition msgWatchSharing := "Live tracking paused. Sharing last known location.".
Definition msgWatchEmergency :=
  "Live location tracking failed. Sharing last known location.".
Definition msgNoLocation :=
  "Location not available. Please enable location services and try again.".
Definition msgIndefinitely := "Sharing indefinitely".

(** Lines 80-84. *)
Definition handleStopSharing : World -> World :=
  onState (fun s =>
    setRemainingTime "" (setSharingEndTime None (setIsSharingLocation false s))).

(** Lines 86-103, up to the [await]. *)
Definition startRecording : World -> World := getUserMedia RecordingStart.

(** Lines 105-131.  [isEmergency_] is the value captured by the
    [useCallback] closure that is being called.  The siren element is
    rendered unconditionally (line 799), so [sirenAudioRef.current] is set. *)
Definition activateEmergencyMode (isEmergency_ isDiscreet : bool) (w : World) : World :=
  if isEmergency_ then w
  else
    let w1 :=
      if isDiscreet then w
      else
        let wa := emit CSirenPlay (onPlat (set_sirenPlaying true) w) in
        if canVibrate (plat wa) then emit (CVibrate true) wa else wa in
    getCurrentPosition ActivationFix w1.

(** Lines 301-319. *)
Definition stopRecording (w : World) : World :=
  match mediaRecorderRef (refs w) with
  | Some true =>
      emit CDownload
        (onState (setIsRecording false) (onRefs (set_mediaRecorderRef (Some false)) w))
  | _ => w
  end.

(** Lines 321-325; [confirmed] is the answer to [window.confirm]. *)
Definition handleSos (confirmed : bool) (w : World) : World :=
  if confirmed then activateEmergencyMode (isEmergency (st w)) false w else w.

(** Lines 327-337. *)
Definition handleStopEmergency (w : World) : World :=
  let w1 := stopRecording (onState (setIsEmergency false) w) in
  let w2 := emit CSirenPause (onPlat (set_sirenPlaying false) w1) in
  if canVibrate (plat w2) then emit (CVibrate false) w2 else w2.

(** Lines 485-501. *)
Definition handleStartSharing (durationInMinutes : option Z) (w : World) : World :=
  match location (st w) with
  | None => onState (setError (Some msgNoLocation)) w
  | Some _ =>
      let w1 := onState (fun s => setIsSharingLocation true (setShowSharingOptions false s)) w in
      match durationInMinutes with
      | Some d =>
          if truthy (Some d) then
            let endTime := now (plat w) + d * 60 * 1000 in
            onState (setSharingEndTime (Some endTime)) w1
          else
            onState (fun s => setRemainingTime msgIndefinitely (setSharingEndTime None s)) w1
      | None =>
          onState (fun s => setRemainingTime msgIndefinitely (setSharingEndTime None s)) w1
      end
  end.

(** The guard of line 248. *)
Definition gestureInert (s : State) : bool :=
  isEmergency s || isCallActive s || showFakeCall s || showContactSelector s
  || isSharingLocation s || showSharingOptions s.

(** Lines 247-279. *)
Definition handleKeyDown (key : string) (repeat : bool) (w : World) : World :=
  let s := st w in
  if gestureInert s then w
  else if String.eqb key "AudioVolumeUp" then
    if repeat then w
    else
      let '(lp, w1) := setTimeout (LongPress (isEmergency s)) 1000 w in
      let w2 := onRefs (set_longPressTimeoutRef (Some lp)) w1 in
      let w3 := clearTimeout (volumeUpTimeoutRef (refs w2)) w2 in
      let newCount := S (volumeUpCount s) in
      let w4 := onState (setVolumeUpCount newCount) w3 in
      if (4 <=? newCount)%nat then
        let w5 := clearTimeout (longPressTimeoutRef (refs w4)) w4 in
        let w6 := activateEmergencyMode (isEmergency s) true (emit CQuadTap w5) in
        onState (setVolumeUpCount 0%nat) w6
      else
        let '(tw, w5) := setTimeout TapWindow 1500 w4 in
        onRefs (set_volumeUpTimeoutRef (Some tw)) w5
  else w.

(** Lines 281-287. *)
Definition handleKeyUp (key : string) (w : World) : World :=
  if String.eqb key "AudioVolumeUp"
  then clearTimeout (longPressTimeoutRef (refs w)) w
  else w.

(** The body of the timer callbacks. *)
Definition runTimer (k : TimerKind) (w : World) : World :=
  match k with
  | LongPress e =>                                    (* lines 258-260 *)
      let w1 := activateEmergencyMode e false (emit CLongPress w) in
      let w2 := onState (setVolumeUpCount 0%nat) w1 in
      clearTimeout (volumeUpTimeoutRef (refs w2)) w2
  | TapWindow => onState (setVolumeUpCount 0%nat) w    (* line 275 *)
  | ShareTick endTime =>                              (* lines 216-233 *)
      let remaining := endTime - now (plat w) in
      if remaining <=? 0 then handleStopSharing w
      else onState (setRemainingTime (formatRemaining remaining)) w
  end.

(** The callbacks of the asynchronous requests; [r] is [Some (lat, lon)]
    for a fix, [Some _] for a granted media stream, [None] for a failure. *)
Definition resolve (a : Async) (r : option (Z * Z)) (w : World) : World :=
  match a, r with
  | PermissionMedia, Some _ => getCurrentPosition PermissionFix w       (* line 54 *)
  | PermissionMedia, None => onState (setError (Some msgPermissions)) w (* line 63 *)
  | PermissionFix, Some (lat, lon) =>                                   (* line 55 *)
      let '(l, w1) := newLoc lat lon w in onState (setLocation (Some l)) w1
  | PermissionFix, None => onState (setError (Some msgLocationDenied)) w
  | ActivationFix, Some (lat, lon) =>                                   (* lines 118-125 *)
      let '(l, w1) := newLoc lat lon w in
      startRecording (onState (fun s => setIsEmergency true (setLocation (Some l) s)) w1)
  | ActivationFix, None => onState (setError (Some msgNoFix)) w          (* line 127 *)
  | RecordingStart, Some _ =>                                           (* lines 92-99 *)
      onState (setIsRecording true) (onRefs (set_mediaRecorderRef (Some true)) w)
  | RecordingStart, None => onState (setError (Some msgRecording)) w     (* line 101 *)
  end.

(** The success callback of the watch (lines 158-172); the marker and the
    pan of the map view are calls on the Leaflet objects and change
    nothing here. *)
Definition watchSuccess (lat lon : Z) (w : World) : World :=
  let '(l, w1) := newLoc lat lon w in onState (setLocation (Some l)) w1.

(** The error callback of the watch (lines 173-180). *)
Definition watchError (x : Watch) (w : World) : World :=
  if capturedSharing x
  then onState (setRemainingTime msgWatchSharing) w
  else onState (setError (Some msgWatchEmergency)) w.

(** ** What is on screen (lines 797-834) *)

Definition overlay (s : State) : bool :=
  isCallActive s || showFakeCall s || showContactSelector s
  || isSharingLocation s || showSharingOptions s.

Definition isHome (v : View) : bool := match v with Home => true | _ => false end.
Definition isTools (v : View) : bool := match v with Tools => true | _ => false end.

Definition homeShown (s : State) : bool := negb (overlay s) && isHome (view s).
Definition toolsShown (s : State) : bool := negb (overlay s) && isTools (view s).
Definition activeCallShown (s : State) : bool := isCallActive s.
Definition fakeCallShown (s : State) : bool := negb (isCallActive s) && showFakeCall s.
Definition contactSelectorShown (s : State) : bool :=
  negb (isCallActive s) && negb (showFakeCall s) && showContactSelector s.
Definition sharingShown (s : State) : bool :=
  negb (isCallActive s) && negb (showFakeCall s) && negb (showContactSelector s)
  && isSharingLocation s.
Definition shareOptionsShown (s : State) : bool :=
  negb (isCallActive s) && negb (showFakeCall s) && negb (showContactSelector s)
  && negb (isSharingLocation s) && showSharingOptions s.

(** Line 606. *)
Definition isLocationReady (s : State) : bool :=
  match location s with
  | Some l => negb (latitude l =? 0) && negb (longitude l =? 0)
  | None => false
  end.

(** The map container (lines 571 and 770) is in the document. *)
Definition mapDivMounted (s : State) : bool :=
  (homeShown s && isEmergency s) || sharingShown s.

(** ** Effects *)

Definition hasLocation (s : State) : bool :=
  match location s with Some _ => true | None => false end.

(** The condition of line 135. *)
Definition tracking (s : State) : bool :=
  (isEmergency s || isSharingLocation s) && hasLocation s.

Definition optNatEqb (a b : option nat) : bool :=
  match a, b with
  | Some x, Some y => Nat.eqb x y
  | None, None => true
  | _, _ => false
  end.

Definition optZEqb (a b : option Z) : bool :=
  match a, b with
  | Some x, Some y => x =? y
  | None, None => true
  | _, _ => false
  end.

(** Dependency arrays: line 197, line 244, line 298.  [handleStopSharing]
    and [startRecording] never change; [activateEmergencyMode] changes
    exactly when [isEmergency] does. *)
Definition watchDepsChanged (s0 s1 : State) : bool :=
  negb (Bool.eqb (isEmergency s0) (isEmergency s1)
        && Bool.eqb (isSharingLocation s0) (isSharingLocation s1)
        && optNatEqb (option_map ident (location s0)) (option_map ident (location s1))).

Definition shareDepsChanged (s0 s1 : State) : bool :=
  negb (Bool.eqb (isSharingLocation s0) (isSharingLocation s1)
        && optZEqb (sharingEndTime s0) (sharingEndTime s1)).

Definition gestureDepsChanged (s0 s1 : State) : bool :=
  negb (Nat.eqb (volumeUpCount s0) (volumeUpCount s1)
        && Bool.eqb (isEmergency s0) (isEmergency s1)
        && Bool.eqb (isCallActive s0) (isCallActive s1)
        && Bool.eqb (showFakeCall s0) (showFakeCall s1)
        && Bool.eqb (showContactSelector s0) (showContactSelector s1)
        && Bool.eqb (isSharingLocation s0) (isSharingLocation s1)
        && Bool.eqb (showSharingOptions s0) (showSharingOptions s1)).

(** Lines 186-196; [s0] is the render the clean-up closes over. *)
Definition cleanupWatch (s0 : State) (w : World) : World :=
  let w1 :=
    match locationWatchIdRef (refs w) with
    | Some id => onRefs (set_locationWatchIdRef None) (clearWatch id w)
    | None => w
    end in
  if negb (isEmergency s0) && negb (isSharingLocation s0) && mapInstanceRef (refs w1)
  then onRefs (set_mapInstanceRef false) w1
  else w1.

(** Lines 135-184. *)
Definition effectWatch (w : World) : World :=
  let s := st w in
  if tracking s then
    let w1 :=
      if mapDivMounted s && negb (mapInstanceRef (refs w)) && leaflet (plat w)
      then onRefs (set_mapInstanceRef true) w
      else w in
    match locationWatchIdRef (refs w1) with
    | None =>
        let '(id, w2) := watchPosition (isSharingLocation s) w1 in
        onRefs (set_locationWatchIdRef (Some id)) w2
    | Some _ => w1
    end
  else w.

(** Lines 239-243. *)
Definition cleanupShare (w : World) : World :=
  clearTimeout (locationSharingTimerRef (refs w)) w.

(** Lines 214-237. *)
Definition effectShare (w : World) : World :=
  let s := st w in
  if isSharingLocation s && truthy (sharingEndTime s) then
    match sharingEndTime s with
    | Some e =>
        let '(id, w1) := setInterval (ShareTick e) 1000 w in
        onRefs (set_locationSharingTimerRef (Some id)) w1
    | None => w
    end
  else if isSharingLocation s && optZEqb (sharingEndTime s) None
  then onState (setRemainingTime msgIndefinitely) w
  else w.

(** Lines 292-297; the body of this effect only installs the listeners. *)
Definition cleanupGesture (w : World) : World :=
  let w1 := clearTimeout (volumeUpTimeoutRef (refs w)) w in
  clearTimeout (longPressTimeoutRef (refs w1)) w1.

(** The render that follows a callback.  [s0] is the state of the
    previous render.  The text set by [effectShare] is in no dependency
    array, so the render it causes runs no effect. *)
Definition commit (s0 : State) (w : World) : World :=
  let s1 := st w in
  let a := watchDepsChanged s0 s1 in
  let c := shareDepsChanged s0 s1 in
  let d := gestureDepsChanged s0 s1 in
  let w1 := if a then cleanupWatch s0 w else w in
  let w2 := if c then cleanupShare w1 else w1 in
  let w3 := if d then cleanupGesture w2 else w2 in
  let w4 := if a then effectWatch w3 else w3 in
  if c then effectShare w4 else w4.

(** ** Events *)

Inductive Event :=
| EvElapse (dt : Z)
| EvTimer (id : nat)
| EvKeyDown (key : string) (repeat : bool)
| EvKeyUp (key : string)
| EvAsync (id : nat) (r : option (Z * Z))
| EvWatchFix (id : nat) (lat lon : Z)
| EvWatchError (id : nat)
| EvNav (v : View)
| EvSos (confirmed : bool)
| EvStopEmergency
| EvShareLocation
| EvCancelSharing
| EvStartSharing (durationInMinutes : option Z)
| EvStopSharing
| EvFakeCall
| EvCancelContact
| EvPickContact
| EvDeclineCall
| EvAcceptCall
| EvHangUp.

Definition findTimer (id : nat) (l : list Timer) : option Timer :=
  find (fun t => Nat.eqb (tid t) id) l.

Definition findWatch (id : nat) (l : list Watch) : option Watch :=
  find (fun x => Nat.eqb (wid x) id) l.

Fixpoint findPending (id : nat) (l : list (nat * Async)) : option Async :=
  match l with
  | [] => None
  | (i, a) :: l' => if Nat.eqb i id then Some a else findPending id l'
  end.

Definition dropPending (id : nat) (l : list (nat * Async)) : list (nat * Async) :=
  filter (fun x => negb (Nat.eqb (fst x) id)) l.

(** A timer that is still in the table and is due fires: a timeout leaves
    the table, an interval is re-armed one period later. *)
Definition fireTimer (id : nat) (w : World) : World :=
  match findTimer id (timers (plat w)) with
  | Some t =>
      if due t <=? now (plat w) then
        let rest := dropTimer id (timers (plat w)) in
        let table :=
          match kind t with
          | ShareTick _ => mkTimer id (due t + 1000) (kind t) :: rest
          | _ => rest
          end in
        runTimer (kind t) (onPlat (set_timers table) w)
      else w
  | None => w
  end.

(** The callback an event runs.  A click is only possible on a control
    that is on screen; a callback of the platform only for a request, a
    timer or a watch that exists. *)
Definition handler (e : Event) (w : World) : World :=
  let s := st w in
  match e with
  | EvElapse dt => if dt <? 0 then w else onPlat (fun p => set_now (now p + dt) p) w
  | EvTimer id => fireTimer id w
  | EvKeyDown key repeat => handleKeyDown key repeat w
  | EvKeyUp key => handleKeyUp key w
  | EvAsync id r =>
      match findPending id (pending (plat w)) with
      | Some a => resolve a r (onPlat (fun p => set_pending (dropPending id (pending p)) p) w)
      | None => w
      end
  | EvWatchFix id lat lon =>
      match findWatch id (watches (plat w)) with
      | Some _ => watchSuccess lat lon w
      | None => w
      end
  | EvWatchError id =>
      match findWatch id (watches (plat w)) with
      | Some x => watchError x w
      | None => w
      end
  | EvNav v => if negb (overlay s) then onState (set_view v) w else w
  | EvSos confirmed =>
      if homeShown s && negb (isEmergency s) then handleSos confirmed w else w
  | EvStopEmergency =>
      if homeShown s && isEmergency s then handleStopEmergency w else w
  | EvShareLocation =>
      if toolsShown s && isLocationReady s
      then onState (setShowSharingOptions true) w else w
  | EvCancelSharing =>
      if shareOptionsShown s then onState (setShowSharingOptions false) w else w
  | EvStartSharing d =>
      if shareOptionsShown s then handleStartSharing d w else w
  | EvStopSharing =>
      if sharingShown s && hasLocation s then handleStopSharing w else w
  | EvFakeCall =>
      if toolsShown s then onState (setShowContactSelector true) w else w
  | EvCancelContact =>
      if contactSelectorShown s then onState (setShowContactSelector false) w else w
  | EvPickContact =>                                         (* lines 339-343 *)
      if contactSelectorShown s
      then onState (fun x => setShowFakeCall true (setShowContactSelector false x)) w
      else w
  | EvDeclineCall =>
      if fakeCallShown s then onState (setShowFakeCall false) w else w
  | EvAcceptCall =>                                          (* lines 445-446 *)
      if fakeCallShown s
      then onState (fun x => setIsCallActive true (setShowFakeCall false x)) w
      else w
  | EvHangUp =>                                              (* line 478 *)
      if activeCallShown s then onState (setIsCallActive false) w else w
  end.

Definition step (e : Event) (w : World) : World :=
  commit (st w) (handler e w).

Fixpoint run (es : list Event) (w : World) : World :=
  match es with
  | [] => w
  | e :: es' => run es' (step e w)
  end.

(** ** The first render *)

Definition initialState : State :=
  mkState Home false None None false false false false false false None "" 0.

Definition initialRefs : Refs := mkRefs None false None None None None.

(** The state after mounting at time [t0]: the effects of lines 67-69 have
    asked for the permissions, the others found nothing to do. *)
Definition mount (t0 : Z) (vibrate leafletLoaded : bool) : World :=
  getUserMedia PermissionMedia
    (mkWorld initialState initialRefs
       (mkPlatform t0 1 [] [] [] false vibrate leafletLoaded [])).

Inductive reachable : World -> Prop :=
| reach_mount t0 v l : 0 <= t0 -> reachable (mount t0 v l)
| reach_step e w : reachable w -> reachable (step e w).

(** ** Reading the call log *)

(** The watches that are live after a log (newest call first). *)
Fixpoint liveWatches (l : list Call) : list nat :=
  match l with
  | [] => []
  | CWatchPosition id :: l' => id :: liveWatches l'
  | CClearWatch id :: l' => filter (fun i => negb (Nat.eqb i id)) (liveWatches l')
  | _ :: l' => liveWatches l'
  end.

(** The largest number of watches that were live together at any point
    of the log, also between two calls of one callback. *)
Fixpoint peakWatches (l : list Call) : nat :=
  match l with
  | [] => 0
  | c :: l' => Nat.max (List.length (liveWatches (c :: l'))) (peakWatches l')
  end.

Definition isQuadTap (c : Call) : bool := match c with CQuadTap => true | _ => false end.
Definition isLongPress (c : Call) : bool := match c with CLongPress => true | _ => false end.

Definition quadTaps (w : World) : nat := List.length (filter isQuadTap (calls (plat w))).
Definition longPresses (w : World) : nat := List.length (filter isLongPress (calls (plat w))).

(** ** Invariant *)

Definition isShare (k : TimerKind) : bool :=
  match k with ShareTick _ => true | _ => false end.

(** [Conf trk shr sh et g w]: the refs and the platform tables of [w] are
    what the effects leave
    - for a render in which the condition of line 135 was [trk] and the
      watch closure captured [isSharingLocation = shr],
    - for a render with [isSharingLocation = sh] and [sharingEndTime = et],
    - plus, when [g] holds, gesture timers that the gesture clean-up is
      about to clear. *)
Record Conf (trk shr sh : bool) (et : option Z) (g : bool) (w : World) : Prop := mkConf {
  cf_now : 0 <= now (plat w);
  cf_lp : forall id, longPressTimeoutRef (refs w) = Some id -> (id < nextId (plat w))%nat;
  cf_vu : forall id, volumeUpTimeoutRef (refs w) = Some id -> (id < nextId (plat w))%nat;
  cf_share : forall t e, In t (timers (plat w)) -> kind t = ShareTick e ->
      locationSharingTimerRef (refs w) = Some (tid t)
      /\ sh = true /\ et = Some e /\ e <> 0
      /\ longPressTimeoutRef (refs w) <> Some (tid t)
      /\ volumeUpTimeoutRef (refs w) <> Some (tid t);
  cf_armed : forall e, sh = true -> et = Some e -> e <> 0 ->
      exists t, In t (timers (plat w)) /\ kind t = ShareTick e;
  cf_gesture : forall t, In t (timers (plat w)) -> isShare (kind t) = false ->
      g = true
      /\ (longPressTimeoutRef (refs w) = Some (tid t)
          \/ volumeUpTimeoutRef (refs w) = Some (tid t));
  cf_watch :
    match watches (plat w) with
    | [] => locationWatchIdRef (refs w) = None /\ trk = false
    | [x] => locationWatchIdRef (refs w) = Some (wid x) /\ trk = true
             /\ capturedSharing x = shr
    | _ => False
    end;
  cf_live : liveWatches (calls (plat w)) = map wid (watches (plat w));
  cf_peak : (peakWatches (calls (plat w)) <= 1)%nat }.

(** The status text is empty whenever no sharing session is active. *)
Definition textIdle (s : State) : Prop :=
  isSharingLocation s = false -> remainingTime s = "".

(** What holds between a callback and the render that follows it; [s0] is
    the state of the previous render. *)
Definition Conforms (s0 : State) (w : World) : Prop :=
  Conf (tracking s0) (isSharingLocation s0) (isSharingLocation s0) (sharingEndTime s0)
       (gestureDepsChanged s0 (st w)) w
  /\ textIdle (st w).

(** What holds after every render. *)
Definition Inv (w : World) : Prop :=
  Conf (tracking (st w)) (isSharingLocation (st w)) (isSharingLocation (st w))
       (sharingEndTime (st w)) false w
  /\ textIdle (st w).

(** A call that neither starts nor clears a watch. *)
Definition nonWatch (c : Call) : bool :=
  match c with
  | CWatchPosition _ | CClearWatch _ => false
  | _ => true
  end.

Definition isWatchCall (c : Call) : bool := negb (nonWatch c).

(** A call that, moreover, is not a gesture classification. *)
Definition quietCall (c : Call) : bool :=
  nonWatch c && negb (isQuadTap c) && negb (isLongPress c).

(** [extBy P l l']: the log [l'] is [l] followed by calls that satisfy [P]. *)
Inductive extBy (P : Call -> bool) (l : list Call) : list Call -> Prop :=
| ext_refl : extBy P l l
| ext_cons c l' : P c = true -> extBy P l l' -> extBy P l (c :: l').

(** The footprint of a callback that touches neither the timer table nor
    the watches. *)
Record Quiet (w w' : World) : Prop := mkQuiet {
  q_timers : timers (plat w') = timers (plat w);
  q_lp : longPressTimeoutRef (refs w') = longPressTimeoutRef (refs w);
  q_vu : volumeUpTimeoutRef (refs w') = volumeUpTimeoutRef (refs w);
  q_share : locationSharingTimerRef (refs w') = locationSharingTimerRef (refs w);
  q_watchRef : locationWatchIdRef (refs w') = locationWatchIdRef (refs w);
  q_watches : watches (plat w') = watches (plat w);
  q_nextId : (nextId (plat w) <= nextId (plat w'))%nat;
  q_now : now (plat w) <= now (plat w');
  q_calls : extBy quietCall (calls (plat w)) (calls (plat w')) }.

(** The events whose callbacks are quiet in every state. *)
Definition quietEvent (e : Event) : bool :=
  match e with
  | EvKeyDown _ _ | EvKeyUp _ | EvTimer _ => false
  | _ => true
  end.

(** What no effect touches: the pending requests, the siren, the clock,
    the recorder, the gesture refs; the log only grows by watch calls. *)
Record Frame (w w' : World) : Prop := mkFrame {
  f_pending : pending (plat w') = pending (plat w);
  f_siren : sirenPlaying (plat w') = sirenPlaying (plat w);
  f_now : now (plat w') = now (plat w);
  f_vibrate : canVibrate (plat w') = canVibrate (plat w);
  f_leaflet : leaflet (plat w') = leaflet (plat w);
  f_recorder : mediaRecorderRef (refs w') = mediaRecorderRef (refs w);
  f_lp : longPressTimeoutRef (refs w') = longPressTimeoutRef (refs w);
  f_vu : volumeUpTimeoutRef (refs w') = volumeUpTimeoutRef (refs w);
  f_nextId : (nextId (plat w) <= nextId (plat w'))%nat;
  f_calls : extBy isWatchCall (calls (plat w)) (calls (plat w')) }.

(** ** The countdown text as the specification words it

    Minutes and seconds zero-padded to two digits, preceded by the hours
    and ["h "] exactly when the hours are not zero. *)

Definition digit (d : Z) : ascii := ascii_of_nat (48 + Z.to_nat d).

Definition twoDigits (n : Z) : string :=
  String (digit (n / 10)) (String (digit (n mod 10)) EmptyString).

Definition specCountdown (totalSeconds : Z) : string :=
  let h := totalSeconds / 3600 in
  let m := (totalSeconds mod 3600) / 60 in
  let s := totalSeconds mod 60 in
  (if h =? 0 then "" else toString h ++ "h ")
    ++ twoDigits m ++ ":" ++ twoDigits s ++ " remaining".

(** ** Scenarios

    Concrete runs used as examples.  The app is opened at time 1000 on a
    device with vibration and with the map library loaded; the media
    permission is granted and the first fix arrives. *)

Definition volUp : string := "AudioVolumeUp".

Definition started : World :=
  run [EvAsync 1 (Some (0, 0)); EvAsync 2 (Some (48858000, 2294000))]
      (mount 1000 true true).

(** The SOS button is confirmed and the activation fix arrives. *)
Definition emergencyOn : World :=
  run [EvSos true; EvAsync 4 (Some (48858100, 2294100))] started.

(** The recording starts; the user opens the tools and shares the
    location without a time limit: both consumers are active. *)
Definition bothActive : World :=
  run [EvAsync 6 (Some (0, 0)); EvNav Tools; EvShareLocation; EvStartSharing None]
      emergencyOn.

(** One press and release of the volume key, 100 ms in all. *)
Definition tap : list Event :=
  [EvKeyDown volUp false; EvElapse 60; EvKeyUp volUp; EvElapse 40].

(** Two states that differ at most in the error, the recording flag, the
    view and the status text have the same dependencies. *)
Definition sameDeps (s0 s1 : State) : Prop :=
  isEmergency s1 = isEmergency s0
  /\ isSharingLocation s1 = isSharingLocation s0
  /\ location s1 = location s0
  /\ sharingEndTime s1 = sharingEndTime s0
  /\ volumeUpCount s1 = volumeUpCount s0
  /\ isCallActive s1 = isCallActive s0
  /\ showFakeCall s1 = showFakeCall s0
  /\ showContactSelector s1 = showContactSelector s0
  /\ showSharingOptions s1 = showSharingOptions s0.

(** The ids of the pending requests were all handed out already. *)
Definition pendingFresh (w : World) : Prop :=
  forall i a, In (i, a) (pending (plat w)) -> (i < nextId (plat w))%nat.

(** ** Key sequences *)

(** A fresh press of the volume key. *)
Definition isTap (e : Event) : bool :=
  match e with
  | EvKeyDown key false => String.eqb key "AudioVolumeUp"
  | _ => false
  end.

(** What may happen between two presses: releases, auto-repeats, other
    keys, time passing, timers coming due. *)
Definition betweenTaps (e : Event) : bool :=
  match e with
  | EvKeyDown key repeat => negb (isTap e)
  | EvKeyUp _ | EvElapse _ | EvTimer _ => true
  | _ => false
  end.

Definition keySequence (es : list Event) : bool :=
  forallb (fun e => isTap e || betweenTaps e) es.





(** The share dialog is open in the tools view. *)
Definition optionsOpen : World := run [EvNav Tools; EvShareLocation] started.

(** The events whose callbacks never touch the sharing session. *)
Definition besideSharing (e : Event) : bool :=
  match e with
  | EvStopSharing | EvStartSharing _ | EvTimer _ | EvKeyDown _ _ | EvWatchError _ => false
  | _ => true
  end.

Definition isStopSharing (e : Event) : bool :=
  match e with EvStopSharing => true | _ => false end.

Definition isWatchError (e : Event) : bool :=
  match e with EvWatchError _ => true | _ => false end.

(** The world a fresh press of the volume key leaves while the recogniser
    listens, written field by field ([handleKeyDown_listening] shows that
    [handleKeyDown] computes it). *)
Definition pressed (w : World) : World :=
  let n := nextId (plat w) in
  let c := volumeUpCount (st w) in
  let r := refs w in
  let p := plat w in
  let lp := mkTimer n (now p + 1000) (LongPress false) in
  let armed :=
    match volumeUpTimeoutRef r with
    | Some v => dropTimer v (lp :: timers p)
    | None => lp :: timers p
    end in
  if (3 <=? c)%nat then
    mkWorld (setVolumeUpCount 0%nat (st w))
      (mkRefs (mediaRecorderRef r) (mapInstanceRef r) (locationWatchIdRef r)
         (locationSharingTimerRef r) (volumeUpTimeoutRef r) (Some n))
      (mkPlatform (now p) (S (S n)) (dropTimer n armed) (watches p)
         ((S n, ActivationFix) :: pending p) (sirenPlaying p) (canVibrate p) (leaflet p)
         (CGetCurrentPosition :: CQuadTap :: calls p))
  else
    mkWorld (setVolumeUpCount (S c) (st w))
      (mkRefs (mediaRecorderRef r) (mapInstanceRef r) (locationWatchIdRef r)
         (locationSharingTimerRef r) (Some (S n)) (Some n))
      (mkPlatform (now p) (S (S n)) (mkTimer (S n) (now p + 1500) TapWindow :: armed)
         (watches p) (pending p) (sirenPlaying p) (canVibrate p) (leaflet p) (calls p)).

(** ** Further readings of a state *)

(** The calls that make the device loud (lines 110 and 113). *)
Definition isAlarm (c : Call) : bool :=
  match c with
  | CSirenPlay | CVibrate true => true
  | _ => false
  end.

Definition alarms (w : World) : nat := List.length (filter isAlarm (calls (plat w))).



Definition isDownload (c : Call) : bool := match c with CDownload => true | _ => false end.

Definition downloads (w : World) : nat :=
  List.length (filter isDownload (calls (plat w))).

(** How many of the flags that put a screen in front of the views
    (lines 801-805) are set. *)
Definition modalCount (s : State) : nat :=
  (Nat.b2n (isCallActive s) + Nat.b2n (showFakeCall s) + Nat.b2n (showContactSelector s)
   + Nat.b2n (isSharingLocation s) + Nat.b2n (showSharingOptions s))%nat.


(** The position object of the state was created before the next id. *)
Definition locFresh (w : World) : Prop :=
  forall l, location (st w) = Some l -> (ident l < nextId (plat w))%nat.

(** The share dialog is only up with a position, and the error of line 487
    is not on screen. *)
Definition dialogHasLocation (s : State) : Prop :=
  (showSharingOptions s = true -> hasLocation s = true)
  /\ error s <> Some msgNoLocation.

(** ** The clock of the simulated call (lines 719-723) *)

Definition formatTime (seconds : Z) : string :=
  let mins := padStart 2 "0" (toString (seconds / 60)) in
  let secs := padStart 2 "0" (toString (Z.rem seconds 60)) in
  mins ++ ":" ++ secs.

(** Reading a text: whether a character occurs in it, and the number a
    string of digits writes. *)
Fixpoint hasChar (c : ascii) (s : string) : bool :=
  match s with
  | EmptyString => false
  | String a r => Ascii.eqb a c || hasChar c r
  end.

Definition readNat (s : string) : option Z :=
  option_map Z.of_uint (NilEmpty.uint_of_string s).

(** * The simulated call, the help lookups and the chat

    The rest of [App]: the cells, refs and callbacks the core above
    leaves out.  An [App] is a [World] together with those cells; an
    [AppEvent] is an event of the core or one of the callbacks below, and
    [appStep] is the callback followed by the render, which also runs the
    effect of the call clock (lines 199-211).

    A text is the UTF-8 encoding of the JS string.  The speech engine,
    the timers and the requests of this part are kept in a [Device] of
    their own: their ids never meet those of the core, and the clock is
    the one of the core. *)

(** ** Data *)

Inductive Role := User | Bot.

(** [text] is [None] where the answer of the model carries no text
    ([response.text] is [undefined]). *)
Record ChatMessage := mkMsg { role : Role; text : option string }.

(** The [useState] cells of lines 21-28 that the core leaves out. *)
Record Cells := mkCells {
  fakeCallContact : string;
  callTimer : Z;
  aiResponse : option string;
  isLoading : bool;
  chatHistory : list ChatMessage;
  chatInput : string }.

(** [timerIntervalRef], [isSpeakingRef] and [chatRef] (lines 39-46);
    [chatRef] holds whether the chat session was created. *)
Record XRefs := mkXRefs {
  timerIntervalRef : option nat;
  isSpeakingRef : bool;
  chatRef : bool }.

Inductive Gender := Male | Female.

(** A voice of the speech engine; [vgender] is the attribute some engines
    add ([(v as any).gender], line 462). *)
Record Voice := mkVoice { vname : string; vlang : string; vgender : option string }.

(** An utterance handed to [speechSynthesis.speak]; [urest] and [uvoice]
    are what its [onend] closure captured (line 415). *)
Record Utterance := mkUtterance {
  uid : nat;
  utext : string;
  uvoice : option Voice;
  urest : list string }.

Inductive XKind :=
| CallTick                                             (* line 201, an interval *)
| SpeakNext (lines : list string) (voice : option Voice).  (* line 414 *)

Record XTimer := mkXTimer { xid : nat; xdue : Z; xkind : XKind }.

(** The two prompts of the tools screen: the one built from the position
    (line 616) and the fixed one (line 625). *)
Inductive Prompt := NearbyHelp (l : Loc) | SelfDefense.

Inductive XAsync :=
| HelpRequest (p : Prompt)          (* line 508 *)
| ChatRequest (message : string).   (* line 544 *)

Record Device := mkDevice {
  canSpeak : bool;                              (* ['speechSynthesis' in window] *)
  voices : list Voice;                          (* [getVoices()] *)
  onvoiceschanged : option (Gender * list string);
                                                (* the call that waits for the voices, line 438 *)
  queue : list Utterance;                       (* spoken or waiting to be *)
  cancelled : list Utterance;                   (* removed by [cancel()], event not delivered yet *)
  said : list (string * option Voice);          (* the calls of [speak], newest first *)
  xnext : nat;
  xtimers : list XTimer;
  xpending : list (nat * XAsync) }.

Record App := mkApp { core : World; cells : Cells; xrefs : XRefs; device : Device }.

(** ** Field updates *)

Definition setFakeCallContact v c :=
  mkCells v (callTimer c) (aiResponse c) (isLoading c) (chatHistory c) (chatInput c).
Definition setCallTimer v c :=
  mkCells (fakeCallContact c) v (aiResponse c) (isLoading c) (chatHistory c) (chatInput c).
Definition setAiResponse v c :=
  mkCells (fakeCallContact c) (callTimer c) v (isLoading c) (chatHistory c) (chatInput c).
Definition setIsLoading v c :=
  mkCells (fakeCallContact c) (callTimer c) (aiResponse c) v (chatHistory c) (chatInput c).
Definition setChatHistory v c :=
  mkCells (fakeCallContact c) (callTimer c) (aiResponse c) (isLoading c) v (chatInput c).
Definition setChatInput v c :=
  mkCells (fakeCallContact c) (callTimer c) (aiResponse c) (isLoading c) (chatHistory c) v.

Definition set_timerIntervalRef v r := mkXRefs v (isSpeakingRef r) (chatRef r).
Definition set_isSpeakingRef v r := mkXRefs (timerIntervalRef r) v (chatRef r).

Definition set_voices v d :=
  mkDevice (canSpeak d) v (onvoiceschanged d) (queue d) (cancelled d) (said d)
    (xnext d) (xtimers d) (xpending d).
Definition set_onvoiceschanged v d :=
  mkDevice (canSpeak d) (voices d) v (queue d) (cancelled d) (said d)
    (xnext d) (xtimers d) (xpending d).
Definition set_queue v d :=
  mkDevice (canSpeak d) (voices d) (onvoiceschanged d) v (cancelled d) (said d)
    (xnext d) (xtimers d) (xpending d).
Definition set_cancelled v d :=
  mkDevice (canSpeak d) (voices d) (onvoiceschanged d) (queue d) v (said d)
    (xnext d) (xtimers d) (xpending d).
Definition set_said v d :=
  mkDevice (canSpeak d) (voices d) (onvoiceschanged d) (queue d) (cancelled d) v
    (xnext d) (xtimers d) (xpending d).
Definition set_xnext v d :=
  mkDevice (canSpeak d) (voices d) (onvoiceschanged d) (queue d) (cancelled d) (said d)
    v (xtimers d) (xpending d).
Definition set_xtimers v d :=
  mkDevice (canSpeak d) (voices d) (onvoiceschanged d) (queue d) (cancelled d) (said d)
    (xnext d) v (xpending d).
Definition set_xpending v d :=
  mkDevice (canSpeak d) (voices d) (onvoiceschanged d) (queue d) (cancelled d) (said d)
    (xnext d) (xtimers d) v.

Definition onCore (f : World -> World) (a : App) : App :=
  mkApp (f (core a)) (cells a) (xrefs a) (device a).
Definition onCells (f : Cells -> Cells) (a : App) : App :=
  mkApp (core a) (f (cells a)) (xrefs a) (device a).
Definition onXRefs (f : XRefs -> XRefs) (a : App) : App :=
  mkApp (core a) (cells a) (f (xrefs a)) (device a).
Definition onDevice (f : Device -> Device) (a : App) : App :=
  mkApp (core a) (cells a) (xrefs a) (f (device a)).

(** ** Texts *)

Definition nonEmpty (s : string) : bool :=
  match s with EmptyString => false | String _ _ => true end.

(** JS truthiness of a [string | undefined]. *)
Definition truthyText (o : option string) : bool :=
  match o with Some s => nonEmpty s | None => false end.

(** [s.includes(pat)]. *)
Fixpoint includes (pat s : string) : bool :=
  String.prefix pat s
  || match s with
     | EmptyString => false
     | String _ r => includes pat r
     end.

(** [s.toLowerCase()] as far as the letters of ASCII go: the tests of
    line 462 look for the letters of ["male"] and ["female"], and no
    character outside ASCII lower-cases to one of those. *)
Definition lowerChar (c : ascii) : ascii :=
  let n := nat_of_ascii c in
  if (65 <=? n)%nat && (n <=? 90)%nat then ascii_of_nat (n + 32) else c.

Fixpoint toLowerCase (s : string) : string :=
  match s with
  | EmptyString => EmptyString
  | String c r => String (lowerChar c) (toLowerCase r)
  end.

(** Whether [s.trim()] is empty: [s] is made of white space and line
    terminators only (U+0009 to U+000D, U+0020, U+00A0, U+1680, U+2000 to
    U+200A, U+2028, U+2029, U+202F, U+205F, U+3000, U+FEFF). *)
Definition asciiSpace (c : ascii) : bool :=
  let n := nat_of_ascii c in ((9 <=? n)%nat && (n <=? 13)%nat) || (n =? 32)%nat.

Fixpoint isBlank (s : string) : bool :=
  match s with
  | EmptyString => true
  | String c r =>
      if asciiSpace c then isBlank r
      else
        match nat_of_ascii c, r with
        | 194%nat, String c1 r1 => (nat_of_ascii c1 =? 160)%nat && isBlank r1
        | 225%nat, String c1 (String c2 r2) =>
            (nat_of_ascii c1 =? 154)%nat && (nat_of_ascii c2 =? 128)%nat && isBlank r2
        | 226%nat, String c1 (String c2 r2) =>
            let n1 := nat_of_ascii c1 in
            let n2 := nat_of_ascii c2 in
            (((n1 =? 128)%nat
              && (((128 <=? n2)%nat && (n2 <=? 138)%nat)
                  || (n2 =? 168)%nat || (n2 =? 169)%nat || (n2 =? 175)%nat))
             || ((n1 =? 129)%nat && (n2 =? 159)%nat))
            && isBlank r2
        | 227%nat, String c1 (String c2 r2) =>
            (nat_of_ascii c1 =? 128)%nat && (nat_of_ascii c2 =? 128)%nat && isBlank r2
        | 239%nat, String c1 (String c2 r2) =>
            (nat_of_ascii c1 =? 187)%nat && (nat_of_ascii c2 =? 191)%nat && isBlank r2
        | _, _ => false
        end
  end.

Definition quote : string := String "034" EmptyString.

Definition msgHelpFailed := "Sorry, I had trouble finding information. Please try again.".
Definition msgChatFailed := "Sorry, I am having trouble connecting. Please try again.".

(** ** The simulated call *)

(** The buttons of the contact list (lines 688-693). *)
Inductive Contact := Mom | Dad | BestFriend | Boyfriend | Girlfriend | UnknownNumber.

Definition contactName (c : Contact) : string :=
  match c with
  | Mom => "Mom"
  | Dad => "Dad"
  | BestFriend => "Best Friend"
  | Boyfriend => "Boyfriend"
  | Girlfriend => "Girlfriend"
  | UnknownNumber => "Unknown Number"
  end.

(** Lines 345-400. *)
Definition callScripts : list (string * (Gender * list string)) :=
  [ ("Mom", (Female,
       [ "Hey sweetie, are you on your way?";
         "I was just about to put dinner in the oven.";
         "Just wanted to check in. Let me know when you're close!";
         "Okay, drive safe! See you soon." ]));
    ("Dad", (Male,
       [ "Hi champ, just checking in.";
         "Did you remember to pick up the milk on your way home?";
         "We're all out.";
         "Alright, talk to you in a bit." ]));
    ("Best Friend", (Female,
       [ "OMG, you will not BELIEVE what just happened.";
         "Are you free to talk right now?";
         "I have to tell you everything, it's wild.";
         "Okay call me back as SOON as you can." ]));
    ("Boyfriend", (Male,
       [ "Hey babe, was just thinking about you.";
         "Are we still on for tonight?";
         "I was thinking we could grab that pizza you like.";
         "Can't wait to see you." ]));
    ("Girlfriend", (Female,
       [ "Hey, just calling to hear your voice.";
         "I miss you! What are you up to right now?";
         "Hope you're having a good day.";
         "Talk to you later, okay?" ]));
    ("Unknown Number", (Male,
       [ "We've been trying to reach you concerning your vehicle's extended warranty.";
         "This is your final notice.";
         "Please stay on the line to speak with a representative about your options.";
         "..." ])) ].

(** [callScripts[name]] for the names the component stores: the empty
    name of the first render and the names of the contact list. *)
Fixpoint lookupScript (name : string) (table : list (string * (Gender * list string)))
  : option (Gender * list string) :=
  match table with
  | [] => None
  | (k, v) :: rest => if String.eqb k name then Some v else lookupScript name rest
  end.

(** Line 461. *)
Definition targetGender (g : Gender) : string :=
  match g with Female => "female" | Male => "male" end.

Definition english (v : Voice) : bool := String.prefix "en" (vlang v).

(** Lines 459-463. *)
Definition voiceFilter (g : Gender) (v : Voice) : bool :=
  let name := toLowerCase (vname v) in
  english v
  && (match vgender v with
      | Some x => String.eqb x (targetGender g)
      | None => false
      end
      || includes (targetGender g) name).

Definition orElse {A} (a b : option A) : option A :=
  match a with Some _ => a | None => b end.

(** Lines 465-470. *)
Definition selectVoice (g : Gender) (vs : list Voice) : option Voice :=
  let preferredVoices := filter (voiceFilter g) vs in
  let selectedVoice :=
    orElse (find (fun v => includes "Google" (vname v)) preferredVoices)
           (hd_error preferredVoices) in
  match selectedVoice with
  | Some v => Some v
  | None => find english vs
  end.

(** [speechSynthesis.speak]. *)
Definition speak (line : string) (voice : option Voice) (rest : list string) (a : App) : App :=
  onDevice (fun d =>
    set_xnext (S (xnext d))
      (set_said ((line, voice) :: said d)
         (set_queue (queue d ++ [mkUtterance (xnext d) line voice rest]) d))) a.

(** [speechSynthesis.cancel]: the queue is emptied; the engine still owes
    each removed utterance its event. *)
Definition speechCancel : App -> App :=
  onDevice (fun d => set_cancelled (queue d ++ cancelled d) (set_queue [] d)).

(** Lines 402-429. *)
Definition speakInSequence (lines : list string) (voice : option Voice) (a : App) : App :=
  if negb (isSpeakingRef (xrefs a)) || (List.length lines =? 0)%nat
  then onXRefs (set_isSpeakingRef false) a
  else
    match lines with
    | line :: rest => speak line voice rest a
    | [] => a
    end.

(** Lines 457-473: what [handleAcceptCall] does once the voices are
    there. *)
Definition afterVoices (g : Gender) (script : list string) (vs : list Voice) (a : App) : App :=
  speakInSequence script (selectVoice g vs) (onXRefs (set_isSpeakingRef true) a).

(** Lines 339-343. *)
Definition startFakeCall (name : string) (a : App) : App :=
  onCore (onState (fun x => setShowFakeCall true (setShowContactSelector false x)))
    (onCells (setFakeCallContact name) a).

(** Lines 444-475, with [getVoicesPromise] (lines 431-442): when the
    engine has voices the call goes on at once, otherwise it waits for
    [onvoiceschanged], replacing whatever waited there. *)
Definition handleAcceptCall (a : App) : App :=
  let a1 := onCore (onState (fun x => setIsCallActive true (setShowFakeCall false x))) a in
  match lookupScript (fakeCallContact (cells a)) callScripts with
  | None => a1
  | Some (gender, script) =>
      if canSpeak (device a1) then
        let a2 := speechCancel a1 in
        match voices (device a2) with
        | [] => onDevice (set_onvoiceschanged (Some (gender, script))) a2
        | _ :: _ => afterVoices gender script (voices (device a2)) a2
        end
      else a1
  end.

(** Lines 477-483. *)
Definition handleHangUp (a : App) : App :=
  let a1 := onCore (onState (setIsCallActive false)) a in
  if canSpeak (device a1)
  then speechCancel (onXRefs (set_isSpeakingRef false) a1)
  else a1.

(** ** The help lookups (lines 503-531) *)

Record Web := mkWeb { uri : option string; title : option string }.
Record Chunk := mkChunk { web : option Web }.

(** The answer of [generateContent]: [result.text] and
    [result.candidates?.[0]?.groundingMetadata?.groundingChunks]. *)
Record HelpResult := mkHelp { rtext : option string; groundingChunks : option (list Chunk) }.

(** Line 517. *)
Definition sourceLink (c : Chunk) : option string :=
  match web c with
  | Some w =>
      if truthyText (uri w) then
        let u := match uri w with Some u => u | None => "" end in
        let shown := if truthyText (title w)
                     then match title w with Some t => t | None => "" end
                     else u in
        Some ("<div><a href=" ++ quote ++ u ++ quote ++ " target=" ++ quote ++ "_blank"
              ++ quote ++ " rel=" ++ quote ++ "noopener noreferrer" ++ quote
              ++ " style=" ++ quote ++ "color: var(--accent-blue);" ++ quote ++ ">"
              ++ shown ++ "</a></div>")
      else None
  | None => None
  end.

Definition sourcesHeader := "<br /><br /><strong>Sources:</strong><br />".

(** What [+=] sees of a [string | undefined]. *)
Definition textOf (o : option string) : string :=
  match o with Some s => s | None => "undefined" end.

(** [.filter(Boolean).join('')] on the mapped chunks. *)
Fixpoint joinTruthy (l : list (option string)) : string :=
  match l with
  | [] => ""
  | o :: rest => (if truthyText o then textOf o else "") ++ joinTruthy rest
  end.

(** Lines 513-524. *)
Definition finalResponse (r : HelpResult) : option string :=
  match groundingChunks r with
  | Some (c :: cs) =>
      let sources := joinTruthy (map sourceLink (c :: cs)) in
      if nonEmpty sources
      then Some (textOf (rtext r) ++ sourcesHeader ++ sources)
      else rtext r
  | _ => rtext r
  end.

Definition xrequest (x : XAsync) : App -> App :=
  onDevice (fun d => set_xnext (S (xnext d)) (set_xpending ((xnext d, x) :: xpending d) d)).

(** Lines 504-512, up to the [await]. *)
Definition fetchAiHelp (p : Prompt) (a : App) : App :=
  let a1 := onCore (onState (set_view Tools)) a in
  let a2 := onCells (fun c => setAiResponse (Some "") (setIsLoading true c)) a1 in
  xrequest (HelpRequest p) a2.

(** Lines 513-530: the request settled with [r], [None] for a failure. *)
Definition helpSettled (r : option HelpResult) (a : App) : App :=
  let a1 :=
    match r with
    | Some res => onCells (setAiResponse (finalResponse res)) a
    | None => onCells (setAiResponse (Some msgHelpFailed)) a
    end in
  onCells (setIsLoading false) a1.

(** ** The chat (lines 533-554) *)

Definition isChat (v : View) : bool := match v with ChatView => true | _ => false end.

Definition chatShown (s : State) : bool := negb (overlay s) && isChat (view s).

Definition handleChatSubmit (a : App) : App :=
  let c := cells a in
  if isBlank (chatInput c) || isLoading c || negb (chatRef (xrefs a)) then a
  else
    let userMessage := mkMsg User (Some (chatInput c)) in
    let currentInput := chatInput c in
    let a1 :=
      onCells (fun c => setChatInput ""
                 (setIsLoading true (setChatHistory (chatHistory c ++ [userMessage]) c))) a in
    xrequest (ChatRequest currentInput) a1.

(** Lines 545-552: [r] is [Some response.text], or [None] for a failure. *)
Definition chatSettled (r : option (option string)) (a : App) : App :=
  let message :=
    match r with
    | Some t => mkMsg Bot t
    | None => mkMsg Bot (Some msgChatFailed)
    end in
  onCells (setIsLoading false)
    (onCells (fun c => setChatHistory (chatHistory c ++ [message]) c) a).

(** ** The clock of the call (lines 199-211) *)

Definition dropXTimer (id : nat) (l : list XTimer) : list XTimer :=
  filter (fun t => negb (Nat.eqb (xid t) id)) l.

Definition xsetTimeout (k : XKind) (delay : Z) (a : App) : nat * App :=
  let id := xnext (device a) in
  (id, onDevice (fun d =>
         set_xnext (S id)
           (set_xtimers (mkXTimer id (now (plat (core a)) + delay) k :: xtimers d) d)) a).

Definition xclearInterval (r : option nat) (a : App) : App :=
  match r with
  | Some id => onDevice (fun d => set_xtimers (dropXTimer id (xtimers d)) d) a
  | None => a
  end.

(** Lines 208-210. *)
Definition cleanupCall (a : App) : App := xclearInterval (timerIntervalRef (xrefs a)) a.

(** Lines 200-207. *)
Definition effectCall (a : App) : App :=
  if isCallActive (st (core a)) then
    let '(id, a1) := xsetTimeout CallTick 1000 a in
    onXRefs (set_timerIntervalRef (Some id)) a1
  else
    onCells (setCallTimer 0) (xclearInterval (timerIntervalRef (xrefs a)) a).

(** The render: the effects of the core, which touch no cell of this
    part, and the effect of the call clock when [isCallActive] changed. *)
Definition appCommit (s0 : State) (a : App) : App :=
  let a1 := onCore (commit s0) a in
  if Bool.eqb (isCallActive s0) (isCallActive (st (core a))) then a1
  else effectCall (cleanupCall a1).

(** ** Events *)

Inductive AppEvent :=
| Core (e : Event)                       (* an event of the core *)
| PickContact (c : Contact)              (* lines 688-693 *)
| HelpNearby                             (* lines 614-618 *)
| SelfDefenseTutorials                   (* line 625 *)
| HelpAnswer (id : nat) (r : option HelpResult)
| ChatType (value : string)              (* line 671 *)
| ChatSubmit                             (* line 667 *)
| ChatAnswer (id : nat) (r : option (option string))
| VoicesChanged (vs : list Voice)        (* the engine's [voiceschanged] *)
| UtteranceEnd (id : nat)                (* line 413 *)
| UtteranceError (id : nat)              (* line 419 *)
| XTimerDue (id : nat).

Fixpoint findXPending (id : nat) (l : list (nat * XAsync)) : option XAsync :=
  match l with
  | [] => None
  | (i, x) :: l' => if Nat.eqb i id then Some x else findXPending id l'
  end.

Definition dropXPending (id : nat) (l : list (nat * XAsync)) : list (nat * XAsync) :=
  filter (fun x => negb (Nat.eqb (fst x) id)) l.

Definition findUtterance (id : nat) (l : list Utterance) : option Utterance :=
  find (fun u => Nat.eqb (uid u) id) l.

Definition dropUtterance (id : nat) (l : list Utterance) : list Utterance :=
  filter (fun u => negb (Nat.eqb (uid u) id)) l.

(** The utterance [id], if the engine still owes it an event, and the
    device without it. *)
Definition takeUtterance (id : nat) (a : App) : option (Utterance * App) :=
  match orElse (findUtterance id (queue (device a)))
               (findUtterance id (cancelled (device a))) with
  | Some u =>
      Some (u, onDevice (fun d => set_cancelled (dropUtterance id (cancelled d))
                                    (set_queue (dropUtterance id (queue d)) d)) a)
  | None => None
  end.

Definition findXTimer (id : nat) (l : list XTimer) : option XTimer :=
  find (fun t => Nat.eqb (xid t) id) l.

(** A timer of this part that is due. *)
Definition fireXTimer (id : nat) (a : App) : App :=
  match findXTimer id (xtimers (device a)) with
  | Some t =>
      if xdue t <=? now (plat (core a)) then
        let rest := dropXTimer id (xtimers (device a)) in
        match xkind t with
        | CallTick =>                                          (* line 202 *)
            onCells (fun c => setCallTimer (callTimer c + 1) c)
              (onDevice (set_xtimers (mkXTimer id (xdue t + 1000) CallTick :: rest)) a)
        | SpeakNext lines voice =>                             (* line 415 *)
            speakInSequence lines voice (onDevice (set_xtimers rest) a)
        end
      else a
  | None => a
  end.

(** The callback an event runs.  The clicks of the core that also touch
    a cell of this part are completed here; the click on a contact
    carries the name, so it is [PickContact] and not [EvPickContact]. *)
Definition appHandler (e : AppEvent) (a : App) : App :=
  let s := st (core a) in
  match e with
  | Core EvPickContact => a
  | Core (EvNav Tools) =>                                      (* line 820 *)
      if negb (overlay s)
      then onCells (setAiResponse (Some "")) (onCore (handler (EvNav Tools)) a)
      else a
  | Core EvAcceptCall => if fakeCallShown s then handleAcceptCall a else a
  | Core EvHangUp => if activeCallShown s then handleHangUp a else a
  | Core e => onCore (handler e) a
  | PickContact c =>
      if contactSelectorShown s then startFakeCall (contactName c) a else a
  | HelpNearby =>
      if toolsShown s && isLocationReady s then
        match location s with
        | Some l => fetchAiHelp (NearbyHelp l) a
        | None => a
        end
      else a
  | SelfDefenseTutorials => if toolsShown s then fetchAiHelp SelfDefense a else a
  | HelpAnswer id r =>
      match findXPending id (xpending (device a)) with
      | Some (HelpRequest _) =>
          helpSettled r (onDevice (fun d => set_xpending (dropXPending id (xpending d)) d) a)
      | _ => a
      end
  | ChatType value =>
      if chatShown s && negb (isLoading (cells a))
      then onCells (setChatInput value) a else a
  | ChatSubmit => if chatShown s then handleChatSubmit a else a
  | ChatAnswer id r =>
      match findXPending id (xpending (device a)) with
      | Some (ChatRequest _) =>
          chatSettled r (onDevice (fun d => set_xpending (dropXPending id (xpending d)) d) a)
      | _ => a
      end
  | VoicesChanged vs =>
      let a1 := onDevice (set_voices vs) a in
      match onvoiceschanged (device a) with
      | Some (gender, script) =>
          afterVoices gender script vs (onDevice (set_onvoiceschanged None) a1)
      | None => a1
      end
  | UtteranceEnd id =>
      match takeUtterance id a with
      | Some (u, a1) => snd (xsetTimeout (SpeakNext (urest u) (uvoice u)) 1500 a1)
      | None => a
      end
  | UtteranceError id =>
      match takeUtterance id a with
      | Some (_, a1) => onXRefs (set_isSpeakingRef false) a1
      | None => a
      end
  | XTimerDue id => fireXTimer id a
  end.

Definition appStep (e : AppEvent) (a : App) : App :=
  appCommit (st (core a)) (appHandler e a).

Fixpoint appRun (es : list AppEvent) (a : App) : App :=
  match es with
  | [] => a
  | e :: es' => appRun es' (appStep e a)
  end.

(** The first render on a device whose speech engine, if any, lists the
    voices [vs]: the chat session is created (lines 71-78) and the effect
    of the call clock finds no call. *)
Definition appMount (t0 : Z) (vibrate leafletLoaded speech : bool) (vs : list Voice) : App :=
  mkApp (mount t0 vibrate leafletLoaded)
        (mkCells "" 0 (Some "") false [] "")
        (mkXRefs None false true)
        (mkDevice speech vs None [] [] [] 1 [] []).

Inductive appReachable : App -> Prop :=
| app_mount t0 v l sp vs : 0 <= t0 -> appReachable (appMount t0 v l sp vs)
| app_step e a : appReachable a -> appReachable (appStep e a).

(** ** Reading a state of this part *)

Definition isUser (m : ChatMessage) : bool := match role m with User => true | Bot => false end.
Definition isBot (m : ChatMessage) : bool := match role m with Bot => true | User => false end.

Definition isChatRequest (x : nat * XAsync) : bool :=
  match snd x with ChatRequest _ => true | HelpRequest _ => false end.

Definition isCallTick (t : XTimer) : bool :=
  match xkind t with CallTick => true | SpeakNext _ _ => false end.

Definition isAccept (e : AppEvent) : bool :=
  match e with Core EvAcceptCall => true | _ => false end.

Definition isHangUp (e : AppEvent) : bool :=
  match e with Core EvHangUp => true | _ => false end.

(** The events of the core that touch no cell of this part. *)
Definition plainCore (e : Event) : bool :=
  match e with
  | EvPickContact | EvAcceptCall | EvHangUp | EvNav Tools => false
  | _ => true
  end.

(** The caller on screen is one of the contact list. *)
Definition callerKnown (a : App) : Prop :=
  showFakeCall (st (core a)) = true \/ isCallActive (st (core a)) = true ->
  exists c, fakeCallContact (cells a) = contactName c.

(** The call clock at rest: without a call the counter is 0 and no tick
    is armed; a tick that is armed is the one [timerIntervalRef] holds. *)
Definition clockKept (a : App) : Prop :=
  (isCallActive (st (core a)) = false ->
   callTimer (cells a) = 0
   /\ forall t, In t (xtimers (device a)) -> isCallTick t = false)
  /\ (forall t, In t (xtimers (device a)) -> isCallTick t = true ->
      timerIntervalRef (xrefs a) = Some (xid t)).

(** The call clock of a call answered at time [T]. *)
Definition clockRuns (T : Z) (a : App) : Prop :=
  isCallActive (st (core a)) = true
  /\ 0 <= callTimer (cells a)
  /\ T + 1000 * callTimer (cells a) <= now (plat (core a))
  /\ forall t, In t (xtimers (device a)) -> isCallTick t = true ->
       xdue t = T + 1000 * (callTimer (cells a) + 1).

(** ** Scenarios of this part

    The device of the scenarios above, with a speech engine that lists
    three voices. *)

Definition voiceDE := mkVoice "Google Deutsch" "de-DE" None.
Definition voiceDavid := mkVoice "Microsoft David" "en-US" None.
Definition voiceUK := mkVoice "Google UK English Female" "en-GB" None.

Definition appStarted : App :=
  appRun [Core (EvAsync 1 (Some (0, 0))); Core (EvAsync 2 (Some (48858000, 2294000)))]
    (appMount 1000 true true true [voiceDE; voiceDavid; voiceUK]).

(** Dad is calling. *)
Definition incomingCall : App :=
  appRun [Core (EvNav Tools); Core EvFakeCall; PickContact Dad] appStarted.

(** A chunk that names a page: [chunk.web && chunk.web.uri] is truthy. *)
Definition hasUri (c : Chunk) : bool :=
  match web c with Some w => truthyText (uri w) | None => false end.

Definition chunksOf (r : HelpResult) : list Chunk :=
  match groundingChunks r with Some l => l | None => [] end.

(** An answer with two grounding chunks, the second naming a page. *)
Definition helpTwoChunks : HelpResult :=
  mkHelp (Some "The police station is 1 km away.")
         (Some [mkChunk None; mkChunk (Some (mkWeb (Some "https://example.org/police") None))]).

(** The requests of this part carry ids that were handed out, each once. *)
Definition xpendingFresh (a : App) : Prop :=
  NoDup (map fst (xpending (device a)))
  /\ forall i x, In (i, x) (xpending (device a)) -> (i < xnext (device a))%nat.

(** Every question of the chat has its answer in the history or its
    request under way. *)
Definition chatBalanced (a : App) : Prop :=
  List.length (filter isUser (chatHistory (cells a)))
  = (List.length (filter isBot (chatHistory (cells a)))
     + List.length (filter isChatRequest (xpending (device a))))%nat.



(** What the render leaves alone in this part. *)
Record XFrame (a a' : App) : Prop := mkXFrame {
  xf_contact : fakeCallContact (cells a') = fakeCallContact (cells a);
  xf_response : aiResponse (cells a') = aiResponse (cells a);
  xf_loading : isLoading (cells a') = isLoading (cells a);
  xf_history : chatHistory (cells a') = chatHistory (cells a);
  xf_input : chatInput (cells a') = chatInput (cells a);
  xf_speaking : isSpeakingRef (xrefs a') = isSpeakingRef (xrefs a);
  xf_chat : chatRef (xrefs a') = chatRef (xrefs a);
  xf_canSpeak : canSpeak (device a') = canSpeak (device a);
  xf_voices : voices (device a') = voices (device a);
  xf_waiting : onvoiceschanged (device a') = onvoiceschanged (device a);
  xf_queue : queue (device a') = queue (device a);
  xf_cancelled : cancelled (device a') = cancelled (device a);
  xf_said : said (device a') = said (device a);
  xf_pending : xpending (device a') = xpending (device a);
  xf_next : (xnext (device a) <= xnext (device a'))%nat }.

(** What a callback does to the loading flag, the history and the
    requests: nothing, or one of the four moves of lines 503-554. *)
Inductive ChatMove (a a' : App) : Prop :=
| move_none :
    isLoading (cells a') = isLoading (cells a) ->
    chatHistory (cells a') = chatHistory (cells a) ->
    xpending (device a') = xpending (device a) ->
    (xnext (device a) <= xnext (device a'))%nat ->
    ChatMove a a'
| move_ask p :
    isLoading (cells a') = true ->
    chatHistory (cells a') = chatHistory (cells a) ->
    xpending (device a') = (xnext (device a), HelpRequest p) :: xpending (device a) ->
    (xnext (device a) < xnext (device a'))%nat ->
    ChatMove a a'
| move_say :
    isBlank (chatInput (cells a)) = false -> isLoading (cells a) = false ->
    isLoading (cells a') = true ->
    chatInput (cells a') = "" ->
    chatHistory (cells a')
    = (chatHistory (cells a) ++ [mkMsg User (Some (chatInput (cells a)))])%list ->
    xpending (device a')
    = (xnext (device a), ChatRequest (chatInput (cells a))) :: xpending (device a) ->
    (xnext (device a) < xnext (device a'))%nat ->
    ChatMove a a'
| move_helped id p :
    findXPending id (xpending (device a)) = Some (HelpRequest p) ->
    isLoading (cells a') = false ->
    chatHistory (cells a') = chatHistory (cells a) ->
    xpending (device a') = dropXPending id (xpending (device a)) ->
    (xnext (device a) <= xnext (device a'))%nat ->
    ChatMove a a'
| move_answered id m t :
    findXPending id (xpending (device a)) = Some (ChatRequest m) ->
    isLoading (cells a') = false ->
    chatHistory (cells a') = (chatHistory (cells a) ++ [mkMsg Bot t])%list ->
    xpending (device a') = dropXPending id (xpending (device a)) ->
    (xnext (device a) <= xnext (device a'))%nat ->
    ChatMove a a'.

(** The chat is open with a question typed. *)
Definition chatOpen : App :=
  appRun [Core (EvNav ChatView); ChatType "Is it safe to walk home?"] appStarted.

(** While the emergency or the sharing session is on, a position is
    known. *)
Definition activeHasLocation (s : State) : Prop :=
  isEmergency s = true \/ isSharingLocation s = true -> hasLocation s = true.

(** Dad is calling on a device whose engine has not listed its voices. *)
Definition incomingCallNoVoices : App :=
  appRun [Core (EvAsync 1 (Some (0, 0))); Core (EvAsync 2 (Some (48858000, 2294000)));
          Core (EvNav Tools); Core EvFakeCall; PickContact Dad]
    (appMount 1000 true true true []).

(** * Properties *)

Unset Implicit Arguments.

(** ** Tables *)

Lemma dropTimer_In t id l :
  In t (dropTimer id l) <-> In t l /\ tid t <> id.
Proof.
  unfold dropTimer. rewrite filter_In, negb_true_iff, Nat.eqb_neq. tauto.
Qed.

Lemma findTimer_Some id l t :
  findTimer id l = Some t -> In t l /\ tid t = id.
Proof.
  unfold findTimer. intros H. apply find_some in H.
  destruct H as [H1 H2]. apply Nat.eqb_eq in H2. auto.
Qed.

Lemma findWatch_Some id l x :
  findWatch id l = Some x -> In x l /\ wid x = id.
Proof.
  unfold findWatch. intros H. apply find_some in H.
  destruct H as [H1 H2]. apply Nat.eqb_eq in H2. auto.
Qed.

Lemma optNatEqb_eq a b : optNatEqb a b = true -> a = b.
Proof.
  destruct a, b; simpl; try discriminate; auto.
  intros H. apply Nat.eqb_eq in H. now subst.
Qed.

Lemma optZEqb_eq a b : optZEqb a b = true -> a = b.
Proof.
  destruct a, b; simpl; try discriminate; auto.
  intros H. apply Z.eqb_eq in H. now subst.
Qed.

Lemma optZEqb_refl a : optZEqb a a = true.
Proof. destruct a; simpl; auto using Z.eqb_refl. Qed.

Lemma optNatEqb_refl a : optNatEqb a a = true.
Proof. destruct a; simpl; auto using Nat.eqb_refl. Qed.

(** ** Dependency arrays *)

Lemma watchDeps_same s0 s1 :
  watchDepsChanged s0 s1 = false ->
  tracking s0 = tracking s1 /\ isSharingLocation s0 = isSharingLocation s1.
Proof.
  unfold watchDepsChanged, tracking, hasLocation. intros H.
  apply negb_false_iff in H.
  apply andb_true_iff in H. destruct H as [H H3].
  apply andb_true_iff in H. destruct H as [H1 H2].
  apply Bool.eqb_prop in H1. apply Bool.eqb_prop in H2.
  apply optNatEqb_eq in H3. rewrite H1, H2.
  destruct (location s0), (location s1); simpl in H3; try discriminate; auto.
Qed.

Lemma shareDeps_same s0 s1 :
  shareDepsChanged s0 s1 = false ->
  isSharingLocation s0 = isSharingLocation s1 /\ sharingEndTime s0 = sharingEndTime s1.
Proof.
  unfold shareDepsChanged. intros H.
  apply negb_false_iff in H.
  apply andb_true_iff in H. destruct H as [H1 H2].
  apply Bool.eqb_prop in H1. apply optZEqb_eq in H2. auto.
Qed.

Lemma gestureDeps_refl s : gestureDepsChanged s s = false.
Proof.
  unfold gestureDepsChanged. now rewrite !Bool.eqb_reflx, Nat.eqb_refl.
Qed.

(** ** The effects, one at a time *)

Create HintDb ops.
#[local] Hint Unfold onState onRefs onPlat emit setTimeout setInterval clearTimeout
  watchPosition clearWatch request getCurrentPosition getUserMedia newLoc : ops.

Ltac open_world w :=
  let s := fresh "s" in let r := fresh "r" in let p := fresh "p" in
  destruct w as [s r p]; destruct r, p; cbn in *.

Ltac split_if :=
  match goal with |- context [if ?b then _ else _] => destruct b eqn:? end.

Ltac reduce := autounfold with ops; cbn.

(** For a world given field by field: call-by-value unfolding of the
    field updates, which keeps the terms small. *)
Ltac crunch :=
  cbv beta iota zeta delta
    [onState onRefs onPlat emit setTimeout setInterval clearTimeout watchPosition
     clearWatch request getCurrentPosition getUserMedia newLoc
     set_view setIsEmergency setLocation setError setIsRecording setShowFakeCall
     setShowContactSelector setIsCallActive setShowSharingOptions setIsSharingLocation
     setSharingEndTime setRemainingTime setVolumeUpCount
     set_mediaRecorderRef set_mapInstanceRef set_locationWatchIdRef
     set_locationSharingTimerRef set_volumeUpTimeoutRef set_longPressTimeoutRef
     set_now set_nextId set_timers set_watches set_pending set_sirenPlaying set_calls
     st refs plat
     view isEmergency location error isRecording showFakeCall showContactSelector
     isCallActive showSharingOptions isSharingLocation sharingEndTime remainingTime
     volumeUpCount
     mediaRecorderRef mapInstanceRef locationWatchIdRef locationSharingTimerRef
     volumeUpTimeoutRef longPressTimeoutRef
     now nextId timers watches pending sirenPlaying canVibrate leaflet calls
     negb andb orb filter wid tid].

#[local] Arguments Nat.max : simpl never.
#[local] Arguments dropTimer : simpl never.
#[local] Arguments Nat.leb : simpl never.
#[local] Arguments dropPending : simpl never.

Lemma st_cleanupWatch s0 w : st (cleanupWatch s0 w) = st w.
Proof.
  unfold cleanupWatch.
  destruct (locationWatchIdRef (refs w)); cbn;
    match goal with |- context [if ?b then _ else _] => destruct b end; reflexivity.
Qed.

Lemma st_cleanupShare w : st (cleanupShare w) = st w.
Proof. unfold cleanupShare, clearTimeout. destruct (locationSharingTimerRef _); reflexivity. Qed.

Lemma st_cleanupGesture w : st (cleanupGesture w) = st w.
Proof.
  unfold cleanupGesture, clearTimeout.
  destruct (volumeUpTimeoutRef _); cbn; destruct (longPressTimeoutRef _); reflexivity.
Qed.

Lemma st_effectWatch w : st (effectWatch w) = st w.
Proof.
  unfold effectWatch. destruct (tracking (st w)); [|reflexivity].
  destruct (mapDivMounted (st w) && negb (mapInstanceRef (refs w)) && leaflet (plat w));
    cbn; destruct (locationWatchIdRef (refs w)); reflexivity.
Qed.

Lemma cleanupWatch_Conf s0 trk shr sh et g w :
  Conf trk shr sh et g w -> Conf false shr sh et g (cleanupWatch s0 w).
Proof.
  intros [Hn Hlp Hvu Hsh Har Hg Hw Hl Hp].
  open_world w. unfold cleanupWatch; reduce.
  destruct watches0 as [|x [|y l]]; [| |contradiction].
  - destruct Hw as [-> _]. split_if; constructor; reduce; auto.
  - destruct Hw as (-> & _ & _). reduce. rewrite Nat.eqb_refl. cbn.
    assert (Hl' : filter (fun i => negb (Nat.eqb i (wid x))) (liveWatches calls0) = []).
    { rewrite Hl. cbn. now rewrite Nat.eqb_refl. }
    split_if; constructor; reduce; auto; rewrite Hl'; cbn; auto.
Qed.

Lemma effectWatch_Conf shr sh et g w :
  Conf false shr sh et g w ->
  Conf (tracking (st w)) (isSharingLocation (st w)) sh et g (effectWatch w).
Proof.
  intros [Hn Hlp Hvu Hsh Har Hg Hw Hl Hp].
  open_world w. unfold effectWatch; reduce.
  destruct watches0 as [|x [|y l]]; [|destruct Hw as (_ & ? & _); discriminate|contradiction].
  destruct Hw as [-> _].
  destruct (tracking s) eqn:Htr; [|constructor; cbn; auto].
  destruct (mapDivMounted s && negb mapInstanceRef0 && leaflet0);
    reduce; constructor; reduce; auto;
    try (intros; auto using Nat.lt_lt_succ_r);
    try (rewrite Hl; reflexivity);
    try (rewrite Hl; cbn; lia).
Qed.

Lemma cleanupShare_Conf trk shr sh et g w :
  Conf trk shr sh et g w -> Conf trk shr false None g (cleanupShare w).
Proof.
  intros [Hn Hlp Hvu Hsh Har Hg Hw Hl Hp].
  open_world w. unfold cleanupShare; reduce.
  destruct locationSharingTimerRef0 as [id|]; constructor; reduce; auto;
    try discriminate.
  - intros t e Ht Hk. apply dropTimer_In in Ht. destruct Ht as [Ht Hne].
    destruct (Hsh t e Ht Hk) as (Hid & _). injection Hid as ->. contradiction.
  - intros t Ht Hk. apply dropTimer_In in Ht. destruct Ht as [Ht _]. auto.
  - intros t e Ht Hk. destruct (Hsh t e Ht Hk) as (Hid & _). discriminate.
Qed.

Lemma cleanupGesture_Conf trk shr sh et g w :
  Conf trk shr sh et g w -> Conf trk shr sh et false (cleanupGesture w).
Proof.
  intros [Hn Hlp Hvu Hsh Har Hg Hw Hl Hp].
  assert (Hkeep : forall t e, In t (timers (plat w)) -> kind t = ShareTick e ->
            In t (timers (plat (cleanupGesture w)))).
  { intros t e Ht Hk. destruct (Hsh t e Ht Hk) as (_ & _ & _ & _ & H1 & H2).
    open_world w. unfold cleanupGesture; reduce.
    destruct volumeUpTimeoutRef0 as [v|], longPressTimeoutRef0 as [l|]; reduce;
      rewrite ?dropTimer_In; repeat split; auto; congruence. }
  assert (Hsub : forall t, In t (timers (plat (cleanupGesture w))) ->
            In t (timers (plat w))
            /\ longPressTimeoutRef (refs w) <> Some (tid t)
            /\ volumeUpTimeoutRef (refs w) <> Some (tid t)).
  { intros t. open_world w. unfold cleanupGesture; reduce.
    destruct volumeUpTimeoutRef0 as [v|], longPressTimeoutRef0 as [l|]; reduce;
      rewrite ?dropTimer_In; intuition congruence. }
  assert (Hrefs : refs (cleanupGesture w) = refs w
                  /\ now (plat (cleanupGesture w)) = now (plat w)
                  /\ nextId (plat (cleanupGesture w)) = nextId (plat w)
                  /\ watches (plat (cleanupGesture w)) = watches (plat w)
                  /\ calls (plat (cleanupGesture w)) = calls (plat w)).
  { open_world w. unfold cleanupGesture; reduce.
    destruct volumeUpTimeoutRef0, longPressTimeoutRef0; reduce; auto. }
  destruct Hrefs as (Hr & Hnow & Hid & Hws & Hcs).
  constructor; rewrite ?Hr, ?Hnow, ?Hid, ?Hws, ?Hcs; auto.
  - intros t e Ht Hk. apply Hsub in Ht. destruct Ht as (Ht & _). eauto.
  - intros e H1 H2 H3. destruct (Har e H1 H2 H3) as (t & Ht & Hk). eauto.
  - intros t Ht Hk. apply Hsub in Ht. destruct Ht as (Ht & Hl1 & Hv1).
    destruct (Hg t Ht Hk) as (_ & [?|?]); contradiction.
Qed.

Lemma effectShare_proj w :
  isSharingLocation (st (effectShare w)) = isSharingLocation (st w)
  /\ sharingEndTime (st (effectShare w)) = sharingEndTime (st w)
  /\ tracking (st (effectShare w)) = tracking (st w)
  /\ (forall s0, gestureDepsChanged s0 (st (effectShare w)) = gestureDepsChanged s0 (st w))
  /\ (textIdle (st w) -> textIdle (st (effectShare w))).
Proof.
  unfold effectShare.
  destruct (isSharingLocation (st w)) eqn:HS; cbn.
  - destruct (sharingEndTime (st w)) as [e|] eqn:HE; cbn.
    + destruct (negb (e =? 0)); reduce; rewrite ?HS, ?HE; auto.
    + reduce. unfold textIdle, tracking, gestureDepsChanged, hasLocation; cbn.
      rewrite HS. repeat split; auto; discriminate.
  - auto.
Qed.

Lemma effectShare_Conf trk shr et0 g w :
  Conf trk shr false et0 g w ->
  Conf trk shr (isSharingLocation (st w)) (sharingEndTime (st w)) g (effectShare w).
Proof.
  intros [Hn Hlp Hvu Hsh Har Hg Hw Hl Hp].
  assert (Hnone : forall t e, In t (timers (plat w)) -> kind t = ShareTick e -> False).
  { intros t e Ht Hk. destruct (Hsh t e Ht Hk) as (_ & ? & _). discriminate. }
  open_world w. unfold effectShare; reduce.
  destruct (isSharingLocation s) eqn:HS; cbn.
  - destruct (sharingEndTime s) as [e|] eqn:HE; cbn.
    + destruct (e =? 0) eqn:Hz; cbn; constructor; reduce; auto.
      * intros t e' Ht Hk. exfalso; eauto.
      * intros e' _ [= <-]. apply Z.eqb_eq in Hz. contradiction.
      * intros id H. apply Hlp in H. lia.
      * intros id H. apply Hvu in H. lia.
      * intros t e' [<-|Ht] Hk; [|exfalso; eauto]. cbn in *.
        injection Hk as <-. apply Z.eqb_neq in Hz.
        repeat split; auto.
        -- intros H. apply Hlp in H. lia.
        -- intros H. apply Hvu in H. lia.
      * intros e' _ [= <-] _. eexists. split; [left; reflexivity|reflexivity].
      * intros t [<-|Ht] Hk; [discriminate|auto].
    + constructor; reduce; auto.
      * intros t e' Ht Hk. exfalso; eauto.
      * discriminate.
  - constructor; reduce; auto.
    + intros t e' Ht Hk. exfalso; eauto.
    + discriminate.
Qed.

(** ** The render restores the invariant *)

Lemma Conf_params trk trk' shr shr' sh sh' et et' g g' w :
  trk = trk' -> shr = shr' -> sh = sh' -> et = et' -> g = g' ->
  Conf trk shr sh et g w -> Conf trk' shr' sh' et' g' w.
Proof. intros; subst; assumption. Qed.

Lemma commit_Inv s0 w : Conforms s0 w -> Inv (commit s0 w).
Proof.
  intros [HC HT]. unfold Inv, commit.
  destruct (watchDepsChanged s0 (st w)) eqn:Ha;
    [apply (cleanupWatch_Conf s0) in HC
    |destruct (watchDeps_same _ _ Ha) as [Ea1 Ea2]];
  (destruct (shareDepsChanged s0 (st w)) eqn:Hc;
    [apply cleanupShare_Conf in HC
    |destruct (shareDeps_same _ _ Hc) as [Ec1 Ec2]]);
  (destruct (gestureDepsChanged s0 (st w)) eqn:Hd;
    [apply cleanupGesture_Conf in HC|]);
  try apply effectWatch_Conf in HC;
  try apply effectShare_Conf in HC;
  repeat match type of HC with
         | context [st (effectWatch ?x)] => rewrite (st_effectWatch x) in HC
         | context [st (cleanupGesture ?x)] => rewrite (st_cleanupGesture x) in HC
         | context [st (cleanupShare ?x)] => rewrite (st_cleanupShare x) in HC
         | context [st (cleanupWatch ?a ?x)] => rewrite (st_cleanupWatch a x) in HC
         end;
  match goal with
  | |- context [effectShare ?x] =>
      destruct (effectShare_proj x) as (P1 & P2 & P3 & P4 & P5);
      rewrite P1, P2, P3
  | _ => idtac
  end;
  repeat match goal with
         | |- context [st (effectWatch ?x)] => rewrite (st_effectWatch x)
         | |- context [st (cleanupGesture ?x)] => rewrite (st_cleanupGesture x)
         | |- context [st (cleanupShare ?x)] => rewrite (st_cleanupShare x)
         | |- context [st (cleanupWatch ?a ?x)] => rewrite (st_cleanupWatch a x)
         | H : textIdle (st ?y) -> _ |- _ =>
             progress repeat
               (rewrite ?st_effectWatch, ?st_cleanupGesture, ?st_cleanupShare,
                  ?st_cleanupWatch in H)
         end;
  (split; [eapply Conf_params; [| | | | |exact HC]; congruence | auto]).
Qed.

(** ** What the invariant says about the tables *)

Lemma Inv_timer w t :
  Inv w -> In t (timers (plat w)) ->
  exists e, kind t = ShareTick e
    /\ locationSharingTimerRef (refs w) = Some (tid t)
    /\ isSharingLocation (st w) = true
    /\ sharingEndTime (st w) = Some e /\ e <> 0
    /\ longPressTimeoutRef (refs w) <> Some (tid t)
    /\ volumeUpTimeoutRef (refs w) <> Some (tid t).
Proof.
  intros [HC _] Ht. destruct (kind t) as [b| |e] eqn:Hk.
  - destruct (cf_gesture HC t Ht) as [? _]; [rewrite Hk; reflexivity|discriminate].
  - destruct (cf_gesture HC t Ht) as [? _]; [rewrite Hk; reflexivity|discriminate].
  - exists e. destruct (cf_share HC t Ht Hk) as (? & ? & ? & ? & ? & ?). auto 10.
Qed.

Lemma Inv_watch w x :
  Inv w -> In x (watches (plat w)) ->
  watches (plat w) = [x]
  /\ locationWatchIdRef (refs w) = Some (wid x)
  /\ tracking (st w) = true
  /\ capturedSharing x = isSharingLocation (st w).
Proof.
  intros [HC _] Hx. pose proof (cf_watch HC) as Hw.
  destruct (watches (plat w)) as [|y [|z l]]; [destruct Hx| |contradiction].
  destruct Hx as [<-|[]]. tauto.
Qed.

Lemma Inv_no_timer w :
  Inv w -> isSharingLocation (st w) = false -> timers (plat w) = [].
Proof.
  intros HI HS. destruct (timers (plat w)) as [|t l] eqn:E; [reflexivity|].
  destruct (@Inv_timer w t HI) as (e & _ & _ & H & _); [rewrite E; now left|].
  congruence.
Qed.

Lemma dropTimer_absent id l :
  (forall t, In t l -> tid t <> id) -> dropTimer id l = l.
Proof.
  unfold dropTimer. induction l as [|t l IH]; intros H; cbn; [reflexivity|].
  destruct (Nat.eqb_spec (tid t) id) as [E|E].
  - exfalso. apply (H t); [now left|assumption].
  - cbn. f_equal. apply IH. intros t' Ht'. apply H. now right.
Qed.

(** ** Quiet callbacks *)

Lemma extBy_weaken (P Q : Call -> bool) l l' :
  (forall c, P c = true -> Q c = true) -> extBy P l l' -> extBy Q l l'.
Proof.
  intros H. induction 1 as [|c l' Hc _ IH]; [apply ext_refl|].
  apply ext_cons; auto.
Qed.

Lemma extBy_trans (P : Call -> bool) l1 l2 l3 :
  extBy P l1 l2 -> extBy P l2 l3 -> extBy P l1 l3.
Proof.
  intros H12. induction 1 as [|c l' Hc _ IH]; [assumption|].
  apply ext_cons; assumption.
Qed.

Lemma quietCall_nonWatch c : quietCall c = true -> nonWatch c = true.
Proof. destruct c; cbn; auto. Qed.

Lemma extBy_count (P Q : Call -> bool) l l' :
  (forall c, P c = true -> Q c = false) -> extBy P l l' ->
  List.length (filter Q l') = List.length (filter Q l).
Proof.
  intros H. induction 1 as [|c l' Hc _ IH]; [reflexivity|].
  cbn. rewrite (H c Hc). assumption.
Qed.

Lemma quietExt_live l l' : extBy nonWatch l l' -> liveWatches l' = liveWatches l.
Proof.
  induction 1 as [|c l' Hc _ IH]; [reflexivity|].
  destruct c; cbn in *; try discriminate; assumption.
Qed.

Lemma quietExt_peak l l' :
  extBy nonWatch l l' -> (List.length (liveWatches l) <= 1)%nat ->
  (peakWatches l <= 1)%nat -> (peakWatches l' <= 1)%nat.
Proof.
  induction 1 as [|c l' Hc Hq IH]; intros H1 H2; [assumption|].
  specialize (IH H1 H2). apply quietExt_live in Hq.
  change (peakWatches (c :: l'))
    with (Nat.max (List.length (liveWatches (c :: l'))) (peakWatches l')).
  assert (liveWatches (c :: l') = liveWatches l') as ->
    by (destruct c; cbn in *; try discriminate; reflexivity).
  rewrite Hq. lia.
Qed.

Lemma Conf_Quiet trk shr sh et g w w' :
  Conf trk shr sh et false w -> Quiet w w' -> Conf trk shr sh et g w'.
Proof.
  intros [Hn Hlp Hvu Hsh Har Hg Hw Hl Hp] [Q1 Q2 Q3 Q4 Q5 Q6 Q7 Q8 Q9].
  apply (extBy_weaken _ _ _ _ quietCall_nonWatch) in Q9.
  constructor; rewrite ?Q1, ?Q2, ?Q3, ?Q4, ?Q5, ?Q6; auto.
  - lia.
  - intros id H. apply Hlp in H. lia.
  - intros id H. apply Hvu in H. lia.
  - intros t Ht Hk. destruct (Hg t Ht Hk) as [? _]. discriminate.
  - rewrite (quietExt_live _ _ Q9). assumption.
  - apply (quietExt_peak _ _ Q9); [|assumption].
    rewrite Hl, length_map.
    destruct (watches (plat w)) as [|x [|y l]]; cbn; try lia; contradiction.
Qed.

Create HintDb handlers.
#[local] Hint Unfold handler handleSos activateEmergencyMode handleStopEmergency
  stopRecording handleStartSharing handleStopSharing startRecording resolve
  watchSuccess watchError handleKeyUp : handlers.

Ltac split_match :=
  match goal with
  | |- context [match ?x with _ => _ end] =>
      lazymatch x with
      | context [match _ with _ => _ end] => fail
      | _ => destruct x eqn:?
      end
  end.

(** Unfold one function of a pipeline on a world given field by field,
    and settle the tests it leaves. *)
Ltac split_test :=
  match goal with
  | |- context [match ?x with _ => _ end] =>
      lazymatch x with
      | context [match _ with _ => _ end] => fail
      | _ =>
          lazymatch type of x with
          | World => fail
          | State => fail
          | Refs => fail
          | Platform => fail
          | prod _ _ => fail
          | _ => destruct x eqn:?
          end
      end
  end.

Ltac stage f :=
  unfold f; crunch; rewrite ?Nat.eqb_refl; crunch; repeat (split_test; crunch).

Ltac quiet_ext := repeat (first [apply ext_refl | apply ext_cons; [reflexivity|]]).

Lemma handler_Quiet e w : quietEvent e = true -> Quiet w (handler e w).
Proof.
  intros He. open_world w.
  destruct e; try discriminate; autounfold with handlers; reduce;
    repeat (split_match; reduce);
    constructor; reduce; auto; try lia; quiet_ext.
Qed.

Lemma gestureInert_sharing s : gestureInert s = false -> isSharingLocation s = false.
Proof.
  unfold gestureInert. intros H.
  repeat (apply orb_false_iff in H; destruct H as [H ?]); auto.
Qed.

Lemma gestureInert_emergency s : gestureInert s = false -> isEmergency s = false.
Proof.
  unfold gestureInert. intros H.
  repeat (apply orb_false_iff in H; destruct H as [H ?]); auto.
Qed.

Lemma handler_besideSharing e w :
  besideSharing e = true ->
  isSharingLocation (st (handler e w)) = isSharingLocation (st w)
  /\ sharingEndTime (st (handler e w)) = sharingEndTime (st w)
  /\ remainingTime (st (handler e w)) = remainingTime (st w).
Proof.
  intros He. open_world w.
  destruct e; try discriminate; autounfold with handlers; reduce;
    repeat (split_match; reduce); auto.
Qed.

(** A fresh press while the recogniser listens. *)
Lemma handleKeyDown_listening w :
  gestureInert (st w) = false -> handleKeyDown volUp false w = pressed w.
Proof.
  intros Hin. pose proof (gestureInert_emergency _ Hin) as HE.
  unfold handleKeyDown, pressed. rewrite Hin.
  change (String.eqb volUp "AudioVolumeUp") with true. cbv iota.
  destruct w as [s r p]; destruct s, r, p. cbn in HE. subst.
  destruct volumeUpTimeoutRef0; unfold activateEmergencyMode; crunch;
    change (Nat.leb 4 (S volumeUpCount0)) with (Nat.leb 3 volumeUpCount0);
    destruct (Nat.leb 3 volumeUpCount0); reflexivity.
Qed.

Lemma handleKeyDown_cases key repeat w :
  handleKeyDown key repeat w = w
  \/ (gestureInert (st w) = false /\ handleKeyDown key repeat w = pressed w).
Proof.
  destruct (gestureInert (st w)) eqn:Hin.
  - left. unfold handleKeyDown. rewrite Hin. reflexivity.
  - destruct (String.eqb key "AudioVolumeUp") eqn:Hk.
    + apply String.eqb_eq in Hk. subst key. destruct repeat.
      * left. unfold handleKeyDown. rewrite Hin. reflexivity.
      * right. split; [reflexivity|]. apply handleKeyDown_listening, Hin.
    + left. unfold handleKeyDown. rewrite Hin, Hk. reflexivity.
Qed.

Lemma pressed_st w :
  st (pressed w)
  = setVolumeUpCount (if (3 <=? volumeUpCount (st w))%nat then 0
                      else S (volumeUpCount (st w)))%nat (st w).
Proof. unfold pressed. destruct (3 <=? volumeUpCount (st w))%nat; reflexivity. Qed.

Lemma handler_text e w : Inv w -> textIdle (st (handler e w)).
Proof.
  intros HI. pose proof HI as [_ HT]. unfold textIdle in *.
  destruct (besideSharing e) eqn:Hb.
  { destruct (handler_besideSharing e w Hb) as (-> & _ & ->). exact HT. }
  destruct e; try discriminate; cbn [handler].
  - (* a timer fires *)
    unfold fireTimer.
    destruct (findTimer id (timers (plat w))) as [t|] eqn:Hf; [|assumption].
    apply findTimer_Some in Hf. destruct Hf as [Hin _].
    destruct (Inv_timer w t HI Hin) as (e & Hk & _ & HS & _).
    destruct (due t <=? now (plat w)); [|assumption].
    rewrite Hk. unfold runTimer, handleStopSharing.
    destruct (e - now _ <=? 0); cbn; [reflexivity|congruence].
  - (* a key goes down *)
    destruct (handleKeyDown_cases key repeat w) as [->|[_ ->]]; [assumption|].
    rewrite pressed_st. exact HT.
  - (* the watch reports an error *)
    destruct (findWatch id (watches (plat w))) as [x|] eqn:Hf; [|assumption].
    apply findWatch_Some in Hf. destruct Hf as [Hin _].
    destruct (Inv_watch w x HI Hin) as (_ & _ & _ & Hc).
    unfold watchError. destruct (capturedSharing x); cbn; [congruence|assumption].
  - (* a session is started *)
    destruct (shareOptionsShown (st w)); [|assumption].
    unfold handleStartSharing.
    destruct (location (st w)); [|exact HT].
    destruct durationInMinutes as [d|]; [destruct (truthy (Some d))|]; cbn; discriminate.
  - (* the session is stopped *)
    destruct (sharingShown (st w) && hasLocation (st w)); [reflexivity|assumption].
Qed.

Lemma Quiet_refl w : Quiet w w.
Proof. constructor; auto; try lia. apply ext_refl. Qed.

Lemma Inv_Conforms_refl w : Inv w -> Conforms (st w) w.
Proof.
  intros [HC HT]. split; [|assumption].
  rewrite gestureDeps_refl. assumption.
Qed.

(** A callback that leaves the watches alone: only the clauses on timers
    are left to check. *)
Lemma Conf_timers trk shr sh et g0 g w w' :
  Conf trk shr sh et g0 w ->
  locationWatchIdRef (refs w') = locationWatchIdRef (refs w) ->
  watches (plat w') = watches (plat w) ->
  extBy nonWatch (calls (plat w)) (calls (plat w')) ->
  0 <= now (plat w') ->
  (forall id, longPressTimeoutRef (refs w') = Some id -> (id < nextId (plat w'))%nat) ->
  (forall id, volumeUpTimeoutRef (refs w') = Some id -> (id < nextId (plat w'))%nat) ->
  (forall t e, In t (timers (plat w')) -> kind t = ShareTick e ->
      locationSharingTimerRef (refs w') = Some (tid t)
      /\ sh = true /\ et = Some e /\ e <> 0
      /\ longPressTimeoutRef (refs w') <> Some (tid t)
      /\ volumeUpTimeoutRef (refs w') <> Some (tid t)) ->
  (forall e, sh = true -> et = Some e -> e <> 0 ->
      exists t, In t (timers (plat w')) /\ kind t = ShareTick e) ->
  (forall t, In t (timers (plat w')) -> isShare (kind t) = false ->
      g = true
      /\ (longPressTimeoutRef (refs w') = Some (tid t)
          \/ volumeUpTimeoutRef (refs w') = Some (tid t))) ->
  Conf trk shr sh et g w'.
Proof.
  intros [Hn Hlp Hvu Hsh Har Hg Hw Hl Hp] E1 E2 Q; intros.
  constructor; auto.
  - rewrite E1, E2. assumption.
  - rewrite (quietExt_live _ _ Q), E2. assumption.
  - apply (quietExt_peak _ _ Q); [|assumption].
    rewrite Hl, length_map.
    destruct (watches (plat w)) as [|x [|y l]]; cbn; try lia; contradiction.
Qed.

Lemma handleKeyUp_Quiet key w : Inv w -> Quiet w (handleKeyUp key w).
Proof.
  intros HI. unfold handleKeyUp.
  destruct (String.eqb key "AudioVolumeUp"); [|apply Quiet_refl].
  unfold clearTimeout.
  destruct (longPressTimeoutRef (refs w)) as [id|] eqn:E; [|apply Quiet_refl].
  assert (Hd : dropTimer id (timers (plat w)) = timers (plat w)).
  { apply dropTimer_absent. intros t Ht Hid.
    destruct (@Inv_timer w t HI Ht) as (_ & _ & _ & _ & _ & _ & Hlp & _).
    congruence. }
  open_world w. constructor; reduce; auto; try lia. apply ext_refl.
Qed.

Lemma gestureDeps_count s c s' :
  volumeUpCount s' = c -> c <> volumeUpCount s -> gestureDepsChanged s s' = true.
Proof.
  intros E H. unfold gestureDepsChanged. rewrite E.
  destruct (Nat.eqb_spec (volumeUpCount s) c); [congruence|reflexivity].
Qed.

Lemma pressed_timers w :
  Inv w -> gestureInert (st w) = false ->
  timers (plat (pressed w))
  = if (3 <=? volumeUpCount (st w))%nat then []
    else [mkTimer (S (nextId (plat w))) (now (plat w) + 1500) TapWindow;
          mkTimer (nextId (plat w)) (now (plat w) + 1000) (LongPress false)].
Proof.
  intros HI Hin.
  pose proof (Inv_no_timer w HI (gestureInert_sharing _ Hin)) as Hnil.
  pose proof (cf_vu (proj1 HI)) as Hvu.
  assert (Hk : forall v d k, volumeUpTimeoutRef (refs w) = Some v ->
                dropTimer v [mkTimer (nextId (plat w)) d k]
                = [mkTimer (nextId (plat w)) d k]).
  { intros v d k Hv. apply dropTimer_absent. intros t' [<-|[]]. cbn.
    apply Hvu in Hv. lia. }
  assert (Hd : forall d k, dropTimer (nextId (plat w)) [mkTimer (nextId (plat w)) d k] = []).
  { intros d k. unfold dropTimer. cbn. rewrite Nat.eqb_refl. reflexivity. }
  unfold pressed. rewrite Hnil.
  destruct (3 <=? volumeUpCount (st w))%nat;
    destruct (volumeUpTimeoutRef (refs w)) as [v|] eqn:Ev; cbn [timers plat];
    rewrite ?(Hk v _ _ eq_refl), ?Hd; reflexivity.
Qed.

Lemma handleKeyDown_Conforms key repeat w :
  Inv w -> Conforms (st w) (handleKeyDown key repeat w).
Proof.
  intros HI.
  destruct (handleKeyDown_cases key repeat w) as [->|[Hin ->]];
    [apply Inv_Conforms_refl; assumption|].
  split; [|rewrite pressed_st; exact (proj2 HI)].
  pose proof (Inv_Conforms_refl w HI) as [HR _]. rewrite gestureDeps_refl in HR.
  pose proof (pressed_timers w HI Hin) as Htm.
  pose proof (gestureInert_sharing _ Hin) as HS.
  pose proof (cf_vu HR) as Hvu. pose proof (cf_now HR) as Hn.
  assert (Hg : gestureDepsChanged (st w) (st (pressed w)) = true).
  { apply gestureDeps_count with (c := volumeUpCount (st (pressed w))); [reflexivity|].
    rewrite pressed_st. cbn.
    destruct (Nat.leb_spec 3 (volumeUpCount (st w))); lia. }
  rewrite Hg.
  eapply Conf_timers; [exact HR|..]; rewrite ?Htm; unfold pressed;
    destruct (3 <=? volumeUpCount (st w))%nat;
    cbn [refs plat locationWatchIdRef watches calls now longPressTimeoutRef
         volumeUpTimeoutRef locationSharingTimerRef nextId];
    auto; quiet_ext.
  all: try (intros id [= <-]; lia).
  all: try (intros id Hv; specialize (Hvu id Hv); lia).
  all: try (intros e HS'; congruence).
  all: try (intros t e []; fail).
  all: try (intros t []; fail).
  all: try (intros t e [<-|[<-|[]]] Hkind; discriminate).
  all: intros t [<-|[<-|[]]] _; cbn; auto.
Qed.

Lemma fireTimer_Conforms id w : Inv w -> Conforms (st w) (fireTimer id w).
Proof.
  intros HI.
  split; [|exact (handler_text (EvTimer id) w HI)].
  pose proof (Inv_Conforms_refl w HI) as [HR _].
  unfold fireTimer.
  destruct (findTimer id (timers (plat w))) as [t|] eqn:Hf; [|assumption].
  apply findTimer_Some in Hf. destruct Hf as [Hin Hid].
  destruct (Inv_timer w t HI Hin) as (e & Hk & Href & HS & HE & Hne & Hlp & Hvu).
  destruct (due t <=? now (plat w)); [|assumption].
  rewrite Hk. rewrite gestureDeps_refl in HR.
  assert (Hall : forall t', In t' (timers (plat w)) ->
            kind t' = ShareTick e /\ tid t' = id).
  { intros t' Ht'.
    destruct (Inv_timer w t' HI Ht') as (e' & Hk' & Href' & _ & HE' & _).
    split; congruence. }
  pose proof (cf_lp HR) as Flp. pose proof (cf_vu HR) as Fvu.
  pose proof (cf_now HR) as Fn.
  subst id.
  unfold runTimer, handleStopSharing; open_world w.
  destruct (e - now0 <=? 0);
    (eapply Conf_timers; [exact HR|reduce..]); auto; quiet_ext.
  all: try (intros e' _ HE' _; exists (mkTimer (tid t) (due t + 1000) (ShareTick e));
            split; [now left|cbn; congruence]).
  all: try (intros t' e' [<-|Hd] Hk';
            [cbn in *; injection Hk' as <-; auto 10
            |apply dropTimer_In in Hd; destruct Hd as [Hd Hx];
             destruct (Hall t' Hd); congruence]).
  all: intros t' [<-|Hd] Hk';
    [discriminate
    |apply dropTimer_In in Hd; destruct Hd as [Hd Hx];
     destruct (Hall t' Hd); congruence].
Qed.

(** ** The invariant holds in every reachable state *)

Lemma handler_Conforms e w : Inv w -> Conforms (st w) (handler e w).
Proof.
  intros HI. destruct (quietEvent e) eqn:Hq.
  - split; [|exact (handler_text e w HI)].
    apply Conf_Quiet with (w := w); [|apply handler_Quiet; assumption].
    exact (proj1 HI).
  - destruct e; try discriminate; cbn [handler].
    + apply fireTimer_Conforms; assumption.
    + apply handleKeyDown_Conforms; assumption.
    + split; [|exact (handler_text (EvKeyUp key) w HI)].
      apply Conf_Quiet with (w := w); [exact (proj1 HI)|].
      apply handleKeyUp_Quiet; assumption.
Qed.

Lemma step_Inv e w : Inv w -> Inv (step e w).
Proof. intros HI. apply commit_Inv, handler_Conforms, HI. Qed.

Lemma mount_Inv t0 v l : 0 <= t0 -> Inv (mount t0 v l).
Proof.
  intros H. split; [constructor|]; cbn; auto; try discriminate;
    try contradiction; try lia.
  intros _. reflexivity.
Qed.

Lemma reachable_Inv w : reachable w -> Inv w.
Proof.
  induction 1 as [t0 v l H|e w _ IH]; [apply mount_Inv; assumption|].
  apply step_Inv; assumption.
Qed.

Lemma reachable_run es w : reachable w -> reachable (run es w).
Proof.
  revert w. induction es as [|e es IH]; intros w H; cbn; [assumption|].
  apply IH. constructor. assumption.
Qed.

(** ** What a render leaves alone *)

Lemma Frame_refl w : Frame w w.
Proof. constructor; auto. apply ext_refl. Qed.

Lemma Frame_trans w1 w2 w3 : Frame w1 w2 -> Frame w2 w3 -> Frame w1 w3.
Proof.
  intros [A1 A2 A3 A4 A5 A6 A7 A8 A9 A10] [B1 B2 B3 B4 B5 B6 B7 B8 B9 B10].
  constructor; try congruence; try lia.
  eapply extBy_trans; eassumption.
Qed.

Ltac frame_tac :=
  repeat (split_match; reduce); constructor; reduce; auto;
  repeat (first [apply ext_refl | apply ext_cons; [reflexivity|]]).

Lemma cleanupWatch_Frame s0 w : Frame w (cleanupWatch s0 w).
Proof. open_world w. unfold cleanupWatch; reduce. frame_tac. Qed.

Lemma cleanupShare_Frame w : Frame w (cleanupShare w).
Proof. open_world w. unfold cleanupShare; reduce. frame_tac. Qed.

Lemma cleanupGesture_Frame w : Frame w (cleanupGesture w).
Proof. open_world w. unfold cleanupGesture; reduce. frame_tac. Qed.

Lemma effectWatch_Frame w : Frame w (effectWatch w).
Proof. open_world w. unfold effectWatch; reduce. frame_tac. Qed.

Lemma effectShare_Frame w : Frame w (effectShare w).
Proof. open_world w. unfold effectShare; reduce. frame_tac. Qed.

Lemma commit_Frame s0 w : Frame w (commit s0 w).
Proof.
  unfold commit.
  repeat match goal with
         | |- context [if ?b then _ else _] => destruct b
         end;
  repeat first
    [ apply Frame_refl
    | eapply Frame_trans; [|first [apply effectShare_Frame | apply effectWatch_Frame
                                  | apply cleanupGesture_Frame | apply cleanupShare_Frame
                                  | apply cleanupWatch_Frame]] ].
Qed.

Lemma st_effectShare w :
  st (effectShare w) = st w
  \/ (isSharingLocation (st w) = true /\ sharingEndTime (st w) = None
      /\ st (effectShare w) = setRemainingTime msgIndefinitely (st w)).
Proof.
  unfold effectShare.
  destruct (isSharingLocation (st w)) eqn:HS; cbn; [|auto].
  destruct (sharingEndTime (st w)) as [e|] eqn:HE; cbn.
  - destruct (negb (e =? 0)); reduce; auto.
  - right. auto.
Qed.

Lemma st_commit s0 w :
  st (commit s0 w) = st w
  \/ (isSharingLocation (st w) = true /\ sharingEndTime (st w) = None
      /\ st (commit s0 w) = setRemainingTime msgIndefinitely (st w)).
Proof.
  unfold commit; cbv zeta.
  generalize (watchDepsChanged s0 (st w)) as a.
  generalize (shareDepsChanged s0 (st w)) as c.
  generalize (gestureDepsChanged s0 (st w)) as d.
  intros d c a.
  destruct a, c, d;
    try (left; rewrite ?st_effectWatch, ?st_cleanupGesture, ?st_cleanupShare,
           ?st_cleanupWatch; reflexivity);
    match goal with
    | |- context [effectShare ?x] =>
        destruct (st_effectShare x) as [H|H];
        rewrite ?st_effectWatch, ?st_cleanupGesture, ?st_cleanupShare,
          ?st_cleanupWatch in H; [left|right]; assumption
    end.
Qed.

(** When no dependency changed, the render runs no effect. *)
Lemma commit_idle s0 w :
  watchDepsChanged s0 (st w) = false ->
  shareDepsChanged s0 (st w) = false ->
  gestureDepsChanged s0 (st w) = false ->
  commit s0 w = w.
Proof. unfold commit. intros -> -> ->. reflexivity. Qed.

(** ** The countdown text *)

Lemma padStart_twoDigits n :
  0 <= n < 60 -> padStart 2 "0" (toString n) = twoDigits n.
Proof.
  intros H.
  assert (Hall : forallb (fun k => String.eqb (padStart 2 "0" (toString (Z.of_nat k)))
                                     (twoDigits (Z.of_nat k))) (seq 0 60) = true)
    by (vm_compute; reflexivity).
  rewrite forallb_forall in Hall.
  specialize (Hall (Z.to_nat n)).
  rewrite Z2Nat.id in Hall by lia.
  apply String.eqb_eq, Hall, in_seq. lia.
Qed.

(** C7. The countdown formatter writes minutes and seconds zero-padded to
    two digits after an ["{h}h "] prefix that is present exactly when the
    hours are not zero; a remaining time of 3661 seconds reads
    ["1h 01:01 remaining"] and one of 59 seconds ["00:59 remaining"]. *)
Theorem countdown_format secs ms :
  0 <= secs -> 0 <= ms < 1000 ->
  formatRemaining (secs * 1000 + ms) = specCountdown secs
  /\ (secs = 3661 -> formatRemaining (secs * 1000 + ms) = "1h 01:01 remaining")
  /\ (secs = 59 -> formatRemaining (secs * 1000 + ms) = "00:59 remaining").
Proof.
  intros Hs Hms.
  assert (E : formatRemaining (secs * 1000 + ms) = specCountdown secs).
  { unfold formatRemaining, specCountdown.
    replace ((secs * 1000 + ms) / 1000) with secs
      by (apply Z.div_unique with ms; lia).
    rewrite !Z.rem_mod_nonneg by lia.
    assert (0 <= secs / 3600) by (apply Z.div_pos; lia).
    assert (0 <= secs mod 3600 < 3600) by (apply Z.mod_pos_bound; lia).
    assert (0 <= secs mod 3600 / 60 < 60)
      by (split; [apply Z.div_pos; lia|apply Z.div_lt_upper_bound; lia]).
    assert (0 <= secs mod 60 < 60) by (apply Z.mod_pos_bound; lia).
    rewrite !padStart_twoDigits by assumption.
    destruct (Z.eqb_spec (secs / 3600) 0) as [E0|E0].
    - rewrite E0. reflexivity.
    - destruct (Z.ltb_spec 0 (secs / 3600)); [reflexivity|lia]. }
  split; [exact E|].
  split; intros ->; rewrite E; vm_compute; reflexivity.
Qed.

Lemma countdown_format_witness :
  formatRemaining (3661 * 1000 + 250) = "1h 01:01 remaining"
  /\ formatRemaining (59 * 1000 + 999) = "00:59 remaining".
Proof.
  split.
  - apply (countdown_format 3661 250); [lia|lia|reflexivity].
  - apply (countdown_format 59 999); [lia|lia|reflexivity].
Defined.

(** ** Dependency arrays and the sharing flag *)

Lemma deps_sharing s0 s1 :
  isSharingLocation s0 <> isSharingLocation s1 ->
  watchDepsChanged s0 s1 = true /\ shareDepsChanged s0 s1 = true
  /\ gestureDepsChanged s0 s1 = true.
Proof.
  unfold watchDepsChanged, shareDepsChanged, gestureDepsChanged. intros H.
  assert (E : Bool.eqb (isSharingLocation s0) (isSharingLocation s1) = false)
    by (destruct (isSharingLocation s0), (isSharingLocation s1); auto; congruence).
  rewrite E. rewrite ?andb_false_r. cbn. auto.
Qed.

Lemma commit_sharing_changed s0 w :
  isSharingLocation s0 <> isSharingLocation (st w) ->
  commit s0 w
  = effectShare (effectWatch (cleanupGesture (cleanupShare (cleanupWatch s0 w)))).
Proof.
  intros H. unfold commit.
  destruct (deps_sharing s0 (st w) H) as (-> & -> & ->). reflexivity.
Qed.

Lemma commit_sameDeps s0 w : sameDeps s0 (st w) -> commit s0 w = w.
Proof.
  intros (E1 & E2 & E3 & E4 & E5 & E6 & E7 & E8 & E9).
  apply commit_idle.
  - unfold watchDepsChanged. rewrite E1, E2, E3.
    now rewrite !Bool.eqb_reflx, optNatEqb_refl.
  - unfold shareDepsChanged. rewrite E2, E4.
    now rewrite Bool.eqb_reflx, optZEqb_refl.
  - unfold gestureDepsChanged. rewrite E1, E2, E5, E6, E7, E8, E9.
    now rewrite !Bool.eqb_reflx, Nat.eqb_refl.
Qed.

Lemma sameDeps_refl s : sameDeps s s.
Proof. repeat split. Qed.

(** ** C9: the notice after a watch error *)

(** C9 (as amended). On a watch error the tracker keeps the last
    position and the watch; the notice goes to the sharing status text
    whenever the sharing session is active, also when the emergency is
    active too, and to the error banner when only the emergency is. *)
Theorem watch_error_notice w id x :
  reachable w ->
  findWatch id (watches (plat w)) = Some x ->
  let w' := step (EvWatchError id) w in
  location (st w') = location (st w)
  /\ watches (plat w') = watches (plat w)
  /\ isEmergency (st w') = isEmergency (st w)
  /\ isSharingLocation (st w') = isSharingLocation (st w)
  /\ (isSharingLocation (st w) = true ->
      remainingTime (st w') = msgWatchSharing /\ error (st w') = error (st w))
  /\ (isSharingLocation (st w) = false ->
      isEmergency (st w) = true
      /\ error (st w') = Some msgWatchEmergency
      /\ remainingTime (st w') = remainingTime (st w)).
Proof.
  intros HR Hf w'. subst w'.
  pose proof (reachable_Inv w HR) as HI.
  destruct (findWatch_Some _ _ _ Hf) as [Hin _].
  destruct (Inv_watch w x HI Hin) as (_ & _ & Htr & Hcap).
  unfold step. cbn [handler]. rewrite Hf.
  rewrite commit_sameDeps
    by (unfold watchError; destruct (capturedSharing x); repeat split).
  unfold watchError. rewrite Hcap.
  destruct (isSharingLocation (st w)) eqn:HS; cbn;
    repeat split; auto; try discriminate.
  unfold tracking in Htr. rewrite HS in Htr.
  destruct (isEmergency (st w)); [reflexivity|discriminate].
Qed.

Lemma watch_error_notice_witness :
  remainingTime (st (step (EvWatchError 8) bothActive)) = msgWatchSharing
  /\ location (st (step (EvWatchError 8) bothActive)) = location (st bothActive).
Proof.
  assert (HR : reachable bothActive).
  { unfold bothActive, emergencyOn, started.
    repeat apply reachable_run. constructor. lia. }
  destruct (watch_error_notice bothActive 8 (mkWatch 8 true) HR eq_refl)
    as (H1 & _ & _ & _ & H5 & _).
  split; [apply H5; reflexivity|exact H1].
Defined.

(** C9 (as stated) fails: with the emergency and the sharing session both
    active, a watch error yields the sharing wording, not the emergency
    wording. *)
Lemma watch_error_emergency_priority_fails :
  isEmergency (st bothActive) = true
  /\ isSharingLocation (st bothActive) = true
  /\ findWatch 8 (watches (plat bothActive)) = Some (mkWatch 8 true)
  /\ error (st (step (EvWatchError 8) bothActive)) <> Some msgWatchEmergency
  /\ remainingTime (st (step (EvWatchError 8) bothActive)) = msgWatchSharing.
Proof. vm_compute. repeat split; discriminate. Qed.

(** ** C1: one watch for both consumers *)

Lemma sharingShown_flags s :
  sharingShown s = true ->
  isCallActive s = false /\ showFakeCall s = false /\ showContactSelector s = false
  /\ isSharingLocation s = true.
Proof.
  unfold sharingShown. intros H.
  repeat (apply andb_true_iff in H; destruct H as [H ?]).
  repeat match goal with H : negb _ = true |- _ => apply negb_true_iff in H end.
  auto.
Qed.

(** C1 (as amended). At most one position watch is live at any time, also
    between two calls of one render.  While a consumer with a position is
    active exactly one watch is live, and none when neither is active.
    When the sharing session stops while the emergency is active, the
    render clears the watch that was live and starts a new one for the
    emergency at once. *)
Theorem single_watch w :
  reachable w ->
  ((List.length (watches (plat w)) <= 1)%nat
   /\ (peakWatches (calls (plat w)) <= 1)%nat
   /\ liveWatches (calls (plat w)) = map wid (watches (plat w)))
  /\ (tracking (st w) = true ->
      exists x, watches (plat w) = [x] /\ locationWatchIdRef (refs w) = Some (wid x))
  /\ (isEmergency (st w) = false -> isSharingLocation (st w) = false ->
      watches (plat w) = [])
  /\ (isEmergency (st w) = true -> sharingShown (st w) = true ->
      hasLocation (st w) = true ->
      let w' := step EvStopSharing w in
      exists x, watches (plat w) = [x]
        /\ watches (plat w') = [mkWatch (nextId (plat w)) false]
        /\ calls (plat w')
           = CWatchPosition (nextId (plat w)) :: CClearWatch (wid x) :: calls (plat w)
        /\ isEmergency (st w') = true
        /\ location (st w') = location (st w)).
Proof.
  intros HR. pose proof (reachable_Inv w HR) as HI.
  destruct HI as [HC HT]. pose proof (cf_watch HC) as Hw.
  split; [|split; [|split]].
  - repeat split; [|apply (cf_peak HC)|apply (cf_live HC)].
    destruct (watches (plat w)) as [|x [|y l]]; cbn; try lia; contradiction.
  - intros Htr.
    destruct (watches (plat w)) as [|x [|y l]]; [|eauto|contradiction].
    + destruct Hw as [_ ?]; congruence.
    + exists x. tauto.
  - intros HE HS.
    destruct (watches (plat w)) as [|x [|y l]]; [reflexivity| |contradiction].
    destruct Hw as (_ & Htr & _). unfold tracking in Htr.
    rewrite HE, HS in Htr. discriminate.
  - intros HE Hshown Hloc w'. subst w'.
    destruct (sharingShown_flags _ Hshown) as (F1 & F2 & F3 & HS).
    assert (Htr : tracking (st w) = true)
      by (unfold tracking; rewrite HE, Hloc; reflexivity).
    destruct (watches (plat w)) as [|x [|y l]] eqn:Ews; [|clear HC|contradiction].
    { destruct Hw as [_ ?]; congruence. }
    destruct Hw as (Href & _ & _).
    exists x. split; [reflexivity|].
    unfold step. cbn [handler]. rewrite Hshown, Hloc. cbn [andb].
    rewrite commit_sharing_changed
      by (unfold handleStopSharing; cbn; rewrite HS; discriminate).
    clear HT HR Htr Hshown.
    destruct w as [s r p]; destruct s, r, p; cbn in *; subst.
    unfold hasLocation in Hloc; cbn in Hloc.
    destruct location0 as [loc|]; [clear Hloc|discriminate].
    stage handleStopSharing; stage cleanupWatch; stage cleanupShare;
      stage cleanupGesture;
      unfold effectWatch, tracking, hasLocation, mapDivMounted, homeShown,
        sharingShown, overlay; crunch; repeat (split_test; crunch);
      stage effectShare; auto.
Qed.

Lemma bothActive_reachable : reachable bothActive.
Proof.
  unfold bothActive, emergencyOn, started.
  repeat apply reachable_run. constructor. lia.
Qed.

Lemma single_watch_witness :
  (List.length (watches (plat bothActive)) <= 1)%nat
  /\ watches (plat (step EvStopSharing bothActive)) = [mkWatch 9 false].
Proof.
  destruct (single_watch bothActive bothActive_reachable) as ((H1 & _) & _ & _ & H4).
  split; [exact H1|].
  destruct (H4 eq_refl eq_refl eq_refl) as (x & _ & H & _). exact H.
Defined.

(** C1 (as stated) fails: with both consumers active, stopping the
    sharing session clears the one live watch, number 8, although the
    emergency is still active; the emergency goes on with a new watch. *)
Lemma stop_sharing_clears_shared_watch :
  isEmergency (st bothActive) = true
  /\ isSharingLocation (st bothActive) = true
  /\ watches (plat bothActive) = [mkWatch 8 true]
  /\ isEmergency (st (step EvStopSharing bothActive)) = true
  /\ findWatch 8 (watches (plat (step EvStopSharing bothActive))) = None
  /\ In (CClearWatch 8) (calls (plat (step EvStopSharing bothActive))).
Proof. vm_compute. repeat split; auto. Qed.

(** ** Pending requests have distinct ids *)

Lemma dropPending_In i a id l : In (i, a) (dropPending id l) -> In (i, a) l.
Proof. unfold dropPending. rewrite filter_In. tauto. Qed.

Lemma dropPending_fresh id l :
  (forall i a, In (i, a) l -> i <> id) -> dropPending id l = l.
Proof.
  unfold dropPending. induction l as [|[i a] l IH]; intros H; cbn; [reflexivity|].
  destruct (Nat.eqb_spec i id) as [E|E].
  - exfalso. apply (H i a); [now left|assumption].
  - cbn. f_equal. apply IH. intros i' a' Hin. apply (H i' a'). now right.
Qed.

Ltac pending_tac H :=
  let i := fresh "i" in let a := fresh "a" in let Hin := fresh "Hin" in
  intros i a Hin; cbn in Hin;
  repeat (destruct Hin as [Hin|Hin]; [injection Hin as <- <-; lia|]);
  try apply dropPending_In in Hin;
  apply H in Hin; lia.

Lemma runTimer_pendingFresh k w : pendingFresh w -> pendingFresh (runTimer k w).
Proof.
  unfold pendingFresh. intros H. open_world w.
  destruct k; unfold runTimer; autounfold with handlers; reduce;
    repeat (split_match; reduce); pending_tac H.
Qed.

Lemma handler_pendingFresh e w : pendingFresh w -> pendingFresh (handler e w).
Proof.
  intros H.
  assert (Hk : forall key repeat, pendingFresh (handleKeyDown key repeat w)).
  { intros key repeat.
    destruct (handleKeyDown_cases key repeat w) as [->|[_ ->]]; [assumption|].
    unfold pendingFresh, pressed in *.
    destruct (3 <=? volumeUpCount (st w))%nat; cbn [plat pending nextId]; pending_tac H. }
  assert (Ht : forall id, pendingFresh (fireTimer id w)).
  { intros id. unfold fireTimer.
    destruct (findTimer id (timers (plat w))) as [t|]; [|assumption].
    destruct (due t <=? now (plat w)); [|assumption].
    apply runTimer_pendingFresh. exact H. }
  destruct e; try exact (Hk _ _); try exact (Ht _);
    unfold pendingFresh in *;
    open_world w; unfold handler;
    autounfold with handlers; reduce;
    repeat (split_match; reduce); pending_tac H.
Qed.

Lemma reachable_pendingFresh w : reachable w -> pendingFresh w.
Proof.
  induction 1 as [t0 v l H|e w _ IH].
  - intros i a [[= <- <-]|[]]. cbn. lia.
  - unfold step. intros i a Hin.
    destruct (commit_Frame (st w) (handler e w)) as [F1 _ _ _ _ _ _ _ F9 _].
    rewrite F1 in Hin. apply (handler_pendingFresh e w IH) in Hin. lia.
Qed.

(** A render changes nothing in the state but, possibly, the status text. *)
Lemma commit_fields s0 w :
  isEmergency (st (commit s0 w)) = isEmergency (st w)
  /\ isSharingLocation (st (commit s0 w)) = isSharingLocation (st w)
  /\ sharingEndTime (st (commit s0 w)) = sharingEndTime (st w)
  /\ location (st (commit s0 w)) = location (st w)
  /\ error (st (commit s0 w)) = error (st w)
  /\ volumeUpCount (st (commit s0 w)) = volumeUpCount (st w)
  /\ gestureInert (st (commit s0 w)) = gestureInert (st w)
  /\ (isSharingLocation (st w) = false \/ sharingEndTime (st w) <> None ->
      st (commit s0 w) = st w).
Proof.
  destruct (st_commit s0 w) as [E|(HS & HE & E)]; rewrite E.
  - repeat split; auto.
  - repeat split; auto. intros [H|H]; congruence.
Qed.

(** ** C2: an activation whose fix fails *)

(** C2 (as amended). When the position fix of an activation fails, the
    episode does not become active and the error is shown; the state, the
    refs, the timers, the watches, the pending requests and the clock are
    what they were before the call, except for the error text, and for a
    discreet activation the siren is untouched too.  A later activation
    is not blocked: with a successful fix it makes the episode active.
    In any state the failure callback itself only sets the error text and
    retires its request. *)
Theorem failed_fix_aborts w isDiscreet :
  reachable w ->
  isEmergency (st w) = false ->
  let w1 := activateEmergencyMode (isEmergency (st w)) isDiscreet w in
  let w2 := step (EvAsync (nextId (plat w)) None) w1 in
  isEmergency (st w2) = false
  /\ st w2 = setError (Some msgNoFix) (st w)
  /\ refs w2 = refs w
  /\ timers (plat w2) = timers (plat w)
  /\ watches (plat w2) = watches (plat w)
  /\ pending (plat w2) = pending (plat w)
  /\ now (plat w2) = now (plat w)
  /\ (isDiscreet = true -> sirenPlaying (plat w2) = sirenPlaying (plat w))
  /\ (forall d lat lon,
        isEmergency
          (st (step (EvAsync (nextId (plat w2)) (Some (lat, lon)))
                 (activateEmergencyMode (isEmergency (st w2)) d w2))) = true)
  /\ (forall v id,
        findPending id (pending (plat v)) = Some ActivationFix ->
        step (EvAsync id None) v
        = onState (setError (Some msgNoFix))
            (onPlat (fun p => set_pending (dropPending id (pending p)) p) v)).
Proof.
  intros HR HE w1 w2.
  pose proof (reachable_pendingFresh w HR) as HF. unfold pendingFresh in HF.
  assert (Hdrop : dropPending (nextId (plat w)) (pending (plat w)) = pending (plat w)).
  { apply dropPending_fresh. intros i a Hin. apply HF in Hin. lia. }
  assert (E2 : w2 = onState (setError (Some msgNoFix))
                      (onPlat (set_pending (pending (plat w))) w1)).
  { subst w2 w1. unfold step. rewrite HE.
    assert (Hh : handler (EvAsync (nextId (plat w)) None)
                   (activateEmergencyMode false isDiscreet w)
                 = onState (setError (Some msgNoFix))
                     (onPlat (set_pending (pending (plat w)))
                        (activateEmergencyMode false isDiscreet w))).
    { open_world w. unfold activateEmergencyMode.
      destruct isDiscreet, canVibrate0; reduce; rewrite Nat.eqb_refl; reduce;
        unfold dropPending; cbn; rewrite Nat.eqb_refl; cbn;
        fold (dropPending nextId0 pending0); rewrite Hdrop; reflexivity. }
    rewrite Hh. apply commit_sameDeps.
    unfold activateEmergencyMode.
    destruct isDiscreet; [|destruct (canVibrate _)]; repeat split. }
  assert (Est : st w2 = setError (Some msgNoFix) (st w)).
  { rewrite E2. subst w1. rewrite HE. unfold activateEmergencyMode.
    destruct isDiscreet; [|destruct (canVibrate _)]; reflexivity. }
  repeat split.
  - rewrite Est. exact HE.
  - exact Est.
  - rewrite E2. subst w1. rewrite HE. unfold activateEmergencyMode.
    destruct isDiscreet; [|destruct (canVibrate _)]; reflexivity.
  - rewrite E2. subst w1. rewrite HE. unfold activateEmergencyMode.
    destruct isDiscreet; [|destruct (canVibrate _)]; reflexivity.
  - rewrite E2. subst w1. rewrite HE. unfold activateEmergencyMode.
    destruct isDiscreet; [|destruct (canVibrate _)]; reflexivity.
  - rewrite E2. subst w1. rewrite HE. unfold activateEmergencyMode.
    destruct isDiscreet; [|destruct (canVibrate _)]; reflexivity.
  - rewrite E2. subst w1. rewrite HE. unfold activateEmergencyMode.
    destruct isDiscreet; [|destruct (canVibrate _)]; reflexivity.
  - intros ->. rewrite E2. subst w1. rewrite HE. reflexivity.
  - intros d lat lon. unfold step.
    destruct (commit_fields
                (st (activateEmergencyMode (isEmergency (st w2)) d w2))
                (handler (EvAsync (nextId (plat w2)) (Some (lat, lon)))
                   (activateEmergencyMode (isEmergency (st w2)) d w2)))
      as (-> & _).
    rewrite Est. cbn [isEmergency setError]. rewrite HE.
    generalize w2. intros v. open_world v. unfold activateEmergencyMode.
    destruct d, canVibrate0; reduce; rewrite Nat.eqb_refl; reflexivity.
  - intros v id Hf. unfold step. cbn [handler]. rewrite Hf. cbn [resolve].
    apply commit_sameDeps. repeat split.
Qed.

Lemma started_reachable : reachable started.
Proof. unfold started. apply reachable_run. constructor. lia. Qed.

Lemma failed_fix_aborts_witness :
  st (step (EvAsync 4 None) (activateEmergencyMode false true started))
  = setError (Some msgNoFix) (st started)
  /\ pending (plat (step (EvAsync 4 None) (activateEmergencyMode false true started)))
     = pending (plat started).
Proof.
  destruct (failed_fix_aborts started true started_reachable eq_refl)
    as (_ & H2 & _ & _ & _ & H6 & _).
  split; [exact H2|exact H6].
Defined.

(** C2 (as stated) fails: after the SOS button was confirmed and the fix
    failed, the episode is not active, yet the state is not the one
    before the call: the error text is set and the siren, started before
    the fix was requested, is still playing. *)
Lemma failed_loud_activation_keeps_siren :
  isEmergency (st (run [EvSos true; EvAsync 4 None] started)) = false
  /\ sirenPlaying (plat started) = false
  /\ sirenPlaying (plat (run [EvSos true; EvAsync 4 None] started)) = true
  /\ st (run [EvSos true; EvAsync 4 None] started) <> st started.
Proof. vm_compute. repeat split; discriminate. Qed.

(** ** C5: a second activation *)

(** C5 (as amended). While the episode is active a call of the activation
    is a no-op, whatever triggers it; in particular once the fix of a
    first activation has succeeded, a second activation changes nothing. *)
Theorem activate_noop_when_active w :
  isEmergency (st w) = true ->
  (forall d, activateEmergencyMode (isEmergency (st w)) d w = w)
  /\ (forall c, step (EvSos c) w = w)
  /\ (forall key r, step (EvKeyDown key r) w = w).
Proof.
  intros HE. repeat split.
  - intros d. unfold activateEmergencyMode. rewrite HE. reflexivity.
  - intros c. unfold step. cbn [handler]. rewrite HE, andb_false_r.
    apply commit_sameDeps, sameDeps_refl.
  - intros key r. unfold step. cbn [handler]. unfold handleKeyDown, gestureInert.
    rewrite HE. cbn. apply commit_sameDeps, sameDeps_refl.
Qed.

Lemma activate_noop_when_active_witness :
  activateEmergencyMode (isEmergency (st emergencyOn)) false emergencyOn = emergencyOn
  /\ step (EvKeyDown volUp false) emergencyOn = emergencyOn.
Proof.
  destruct (activate_noop_when_active emergencyOn eq_refl) as (H1 & _ & H3).
  split; [apply H1|apply H3].
Defined.

(** C5 (as stated) fails: the SOS button confirmed twice before the first
    fix arrives asks for two fixes, and when both arrive the recording is
    started twice; confirmed once, one fix and one recording. *)
Lemma activate_twice_differs :
  pending (plat (run [EvSos true] started)) = [(4%nat, ActivationFix)]
  /\ pending (plat (run [EvSos true; EvSos true] started))
     = [(5%nat, ActivationFix); (4%nat, ActivationFix)]
  /\ pending (plat (run [EvSos true; EvAsync 4 (Some (1, 1))] started))
     = [(6%nat, RecordingStart)]
  /\ pending (plat (run [EvSos true; EvSos true; EvAsync 4 (Some (1, 1));
                         EvAsync 5 (Some (1, 1))] started))
     = [(10%nat, RecordingStart); (7%nat, RecordingStart)]
  /\ run [EvSos true; EvSos true] started <> run [EvSos true] started.
Proof. vm_compute. repeat split; discriminate. Qed.

(** ** The gesture *)

Lemma commit_counts s0 w :
  quadTaps (commit s0 w) = quadTaps w /\ longPresses (commit s0 w) = longPresses w.
Proof.
  destruct (commit_Frame s0 w) as [_ _ _ _ _ _ _ _ _ F].
  unfold quadTaps, longPresses. split.
  - apply (extBy_count isWatchCall isQuadTap); [|assumption].
    intros []; cbn; auto; discriminate.
  - apply (extBy_count isWatchCall isLongPress); [|assumption].
    intros []; cbn; auto; discriminate.
Qed.

(** The press of the volume key, followed by the render. *)
Lemma tap_step w :
  reachable w -> gestureInert (st w) = false ->
  let w' := step (EvKeyDown volUp false) w in
  let fourth := (3 <=? volumeUpCount (st w))%nat in
  gestureInert (st w') = false
  /\ volumeUpCount (st w') = (if fourth then 0 else S (volumeUpCount (st w)))%nat
  /\ quadTaps w' = (quadTaps w + if fourth then 1 else 0)%nat
  /\ longPresses w' = longPresses w
  /\ timers (plat (handleKeyDown volUp false w))
     = (if fourth then []
        else [mkTimer (S (nextId (plat w))) (now (plat w) + 1500) TapWindow;
              mkTimer (nextId (plat w)) (now (plat w) + 1000) (LongPress false)])
  /\ timers (plat w') = [].
Proof.
  intros HR Hin w' fourth.
  pose proof (reachable_Inv w HR) as HI.
  assert (HR' : reachable w') by (constructor; assumption).
  subst w'. unfold step in *. cbn [handler] in *.
  rewrite (handleKeyDown_listening w Hin) in *.
  destruct (commit_fields (st w) (pressed w))
    as (_ & HS' & _ & _ & _ & -> & -> & _).
  destruct (commit_counts (st w) (pressed w)) as [-> ->].
  rewrite pressed_st. rewrite (pressed_timers w HI Hin).
  assert (Hc : calls (plat (pressed w))
               = if fourth then CGetCurrentPosition :: CQuadTap :: calls (plat w)
                 else calls (plat w))
    by (unfold pressed; subst fourth;
        destruct (3 <=? volumeUpCount (st w))%nat; reflexivity).
  unfold quadTaps, longPresses. rewrite Hc.
  repeat split.
  - exact Hin.
  - destruct fourth; cbn; lia.
  - destruct fourth; reflexivity.
  - apply Inv_no_timer; [apply reachable_Inv, HR'|].
    rewrite HS', pressed_st. apply gestureInert_sharing, Hin.
Qed.










(** The long press never fires. *)
Lemma handler_longPresses e w : Inv w -> longPresses (handler e w) = longPresses w.
Proof.
  intros HI.
  assert (Hq : forall w', Quiet w w' -> longPresses w' = longPresses w).
  { intros w' [_ _ _ _ _ _ _ _ Q]. unfold longPresses.
    apply (extBy_count quietCall isLongPress); [|assumption].
    intros []; cbn; auto; discriminate. }
  destruct (quietEvent e) eqn:He; [apply Hq, handler_Quiet, He|].
  destruct e; try discriminate; cbn [handler].
  - unfold fireTimer.
    destruct (findTimer id (timers (plat w))) as [t|] eqn:Hf; [|reflexivity].
    apply findTimer_Some in Hf. destruct Hf as [Hin _].
    destruct (Inv_timer w t HI Hin) as (e & Hk & _).
    destruct (due t <=? now (plat w)); [|reflexivity].
    rewrite Hk. unfold runTimer, handleStopSharing.
    destruct (e - now _ <=? 0); reflexivity.
  - destruct (handleKeyDown_cases key repeat w) as [->|[_ ->]]; [reflexivity|].
    unfold pressed, longPresses.
    destruct (3 <=? volumeUpCount (st w))%nat; reflexivity.
  - apply Hq, handleKeyUp_Quiet, HI.
Qed.

Lemma run_longPresses es : forall w,
  reachable w -> longPresses (run es w) = longPresses w.
Proof.
  induction es as [|e es IH]; intros w HR; [reflexivity|].
  cbn [run]. rewrite IH by (constructor; assumption).
  unfold step. destruct (commit_counts (st w) (handler e w)) as [_ ->].
  apply handler_longPresses, reachable_Inv, HR.
Qed.

(** C4. When the fourth press arrives, the quad-tap fires; the callback
    itself clears the long-press timer it has just armed (line 270), no
    long-press timer is left after the render, and the long press does not
    fire afterwards, whatever happens next. *)
Theorem quad_tap_preempts_long_press w es :
  reachable w -> gestureInert (st w) = false -> volumeUpCount (st w) = 3%nat ->
  let w' := step (EvKeyDown volUp false) w in
  quadTaps w' = S (quadTaps w)
  /\ volumeUpCount (st w') = 0%nat
  /\ findTimer (nextId (plat w)) (timers (plat (handleKeyDown volUp false w))) = None
  /\ timers (plat w') = []
  /\ longPresses (run es w') = longPresses w.
Proof.
  intros HR Hin Hc w'.
  destruct (tap_step w HR Hin) as (_ & H2 & H3 & H4 & H5 & H6).
  rewrite Hc in *. change (3 <=? 3)%nat with true in *. cbv iota in H2, H3, H5.
  subst w'. rewrite H2, H3, H5, H6.
  repeat split; try lia.
  rewrite run_longPresses by (constructor; assumption).
  exact H4.
Qed.

Lemma quad_tap_preempts_long_press_witness :
  quadTaps (step (EvKeyDown volUp false) (run (tap ++ tap ++ tap) started))
  = S (quadTaps (run (tap ++ tap ++ tap) started))
  /\ longPresses
       (run [EvElapse 5000] (step (EvKeyDown volUp false) (run (tap ++ tap ++ tap) started)))
     = longPresses (run (tap ++ tap ++ tap) started).
Proof.
  assert (HR : reachable (run (tap ++ tap ++ tap) started))
    by (apply reachable_run, started_reachable).
  assert (H1 : gestureInert (st (run (tap ++ tap ++ tap) started)) = false)
    by (vm_compute; reflexivity).
  assert (H2 : volumeUpCount (st (run (tap ++ tap ++ tap) started)) = 3%nat)
    by (vm_compute; reflexivity).
  destruct (quad_tap_preempts_long_press (run (tap ++ tap ++ tap) started)
              [EvElapse 5000] HR H1 H2) as (A & _ & _ & _ & B).
  split; [exact A|exact B].
Defined.

(** ** The sharing session *)

Lemma shareOptionsShown_flags s :
  shareOptionsShown s = true ->
  isCallActive s = false /\ showFakeCall s = false /\ showContactSelector s = false
  /\ isSharingLocation s = false /\ showSharingOptions s = true.
Proof.
  unfold shareOptionsShown. intros H.
  repeat (apply andb_true_iff in H; destruct H as [H ?]).
  repeat match goal with H : negb _ = true |- _ => apply negb_true_iff in H end.
  auto.
Qed.

(** Starting a session with a duration: the state after the render, and
    the one timer in the table. *)
Lemma start_finite w d :
  reachable w -> shareOptionsShown (st w) = true -> hasLocation (st w) = true ->
  now (plat w) + d * 60 * 1000 <> 0 -> d <> 0 ->
  let w1 := step (EvStartSharing (Some d)) w in
  let e := now (plat w) + d * 60 * 1000 in
  st w1 = setSharingEndTime (Some e)
            (setIsSharingLocation true (setShowSharingOptions false (st w)))
  /\ timers (plat w1) = [mkTimer (S (nextId (plat w))) (now (plat w) + 1000) (ShareTick e)]
  /\ locationSharingTimerRef (refs w1) = Some (S (nextId (plat w)))
  /\ now (plat w1) = now (plat w).
Proof.
  intros HR Hshown Hloc He Hd w1 e.
  pose proof (reachable_Inv w HR) as HI.
  destruct (shareOptionsShown_flags _ Hshown) as (F1 & F2 & F3 & HS & F5).
  pose proof (Inv_no_timer w HI HS) as Hnil.
  pose proof (cf_watch (proj1 HI)) as Hw.
  subst w1 e. unfold step. cbn [handler]. rewrite Hshown.
  rewrite commit_sharing_changed.
  2:{ unfold handleStartSharing. unfold hasLocation in Hloc.
      destruct (location (st w)); [|discriminate].
      cbn. destruct (d =? 0); cbn; rewrite HS; discriminate. }
  apply Z.eqb_neq in He, Hd.
  clear HI HR Hshown.
  destruct w as [s r p]; destruct s, r, p; cbn in *; subst.
  unfold hasLocation in Hloc; cbn in Hloc.
  destruct location0 as [loc|]; [clear Hloc|discriminate].
  unfold handleStartSharing, truthy; crunch; rewrite Hd; crunch.
  destruct watches0 as [|x [|y l]]; [destruct Hw as [-> _]|destruct Hw as (-> & _ & _)|
                                     contradiction];
    stage cleanupWatch; stage cleanupShare; stage cleanupGesture;
    unfold effectWatch, tracking, hasLocation, mapDivMounted, homeShown,
      sharingShown, overlay; crunch; repeat (split_test; crunch);
    unfold effectShare, truthy; crunch; rewrite He; crunch;
    unfold dropTimer; crunch; auto.
Qed.

Lemma findTimer_In t0 l : In t0 l -> exists t, findTimer (tid t0) l = Some t.
Proof.
  unfold findTimer. intros Hin.
  destruct (find (fun t => Nat.eqb (tid t) (tid t0)) l) as [t|] eqn:E; [eauto|].
  apply (find_none _ _ E) in Hin. cbn in Hin. rewrite Nat.eqb_refl in Hin. discriminate.
Qed.

(** The tick of a session whose end time has passed. *)
Lemma tick_expiry w e :
  reachable w ->
  isSharingLocation (st w) = true -> sharingEndTime (st w) = Some e -> e <> 0 ->
  e <= now (plat w) ->
  exists id t,
    locationSharingTimerRef (refs w) = Some id
    /\ findTimer id (timers (plat w)) = Some t
    /\ kind t = ShareTick e
    /\ (due t <= now (plat w) ->
        let w' := step (EvTimer id) w in
        isSharingLocation (st w') = false
        /\ sharingEndTime (st w') = None
        /\ remainingTime (st w') = ""
        /\ timers (plat w') = []).
Proof.
  intros HR HS HE Hne Hpast.
  pose proof (reachable_Inv w HR) as HI.
  destruct (cf_armed (proj1 HI) HS HE Hne) as (t0 & Hin0 & Hk0).
  destruct (Inv_timer w t0 HI Hin0) as (_ & _ & Href & _).
  destruct (findTimer_In t0 _ Hin0) as (t & Hf).
  destruct (findTimer_Some _ _ _ Hf) as [Hin Hid].
  destruct (Inv_timer w t HI Hin) as (e' & Hk & _ & _ & HE' & _).
  assert (e' = e) as -> by congruence.
  exists (tid t0), t. split; [assumption|]. split; [assumption|]. split; [assumption|].
  - intros Hdue w'.
    assert (Hst : st w' = setRemainingTime ""
                    (setSharingEndTime None (setIsSharingLocation false (st w)))).
    { subst w'. unfold step. cbn [handler]. unfold fireTimer. rewrite Hf.
      apply Z.leb_le in Hdue. rewrite Hdue, Hk. unfold runTimer.
      replace (e - now (plat (onPlat _ w)) <=? 0) with true
        by (symmetry; apply Z.leb_le; cbn; lia).
      match goal with
      | |- st (commit ?s0 ?x) = _ =>
          destruct (commit_fields s0 x) as (_ & _ & _ & _ & _ & _ & _ & ->);
          [reflexivity|left; reflexivity]
      end. }
    rewrite Hst. repeat split.
    apply Inv_no_timer.
    + apply reachable_Inv. subst w'. constructor. assumption.
    + rewrite Hst. reflexivity.
Qed.

(** C6. A session started with a duration of [d > 0] minutes (the dialog
    offers 15, 30 and 60) is active with end time [now + d * 60000] and a
    one-second tick armed.  Whatever happens next, as long as that session
    is on: once the clock has passed the end time, the tick, when it comes
    due, ends the session and clears the status text, with no click
    involved.  (A duration of 0 is falsy at line 494 and starts a session
    without a time limit, see [handleStartSharing].) *)
Theorem sharing_auto_expiry w d es :
  reachable w -> shareOptionsShown (st w) = true -> hasLocation (st w) = true ->
  0 < d ->
  let w1 := step (EvStartSharing (Some d)) w in
  let e := now (plat w) + d * 60 * 1000 in
  let w2 := run es w1 in
  (isSharingLocation (st w1) = true
   /\ sharingEndTime (st w1) = Some e
   /\ timers (plat w1) = [mkTimer (S (nextId (plat w))) (now (plat w) + 1000) (ShareTick e)])
  /\ (isSharingLocation (st w2) = true -> sharingEndTime (st w2) = Some e ->
      e <= now (plat w2) ->
      exists id t,
        locationSharingTimerRef (refs w2) = Some id
        /\ findTimer id (timers (plat w2)) = Some t
        /\ kind t = ShareTick e
        /\ (due t <= now (plat w2) ->
            let w3 := step (EvTimer id) w2 in
            isSharingLocation (st w3) = false
            /\ sharingEndTime (st w3) = None
            /\ remainingTime (st w3) = ""
            /\ timers (plat w3) = [])).
Proof.
  intros HR Hshown Hloc Hd w1 e w2.
  pose proof (cf_now (proj1 (reachable_Inv w HR))) as Hnow.
  assert (He : e <> 0) by (subst e; lia).
  destruct (start_finite w d HR Hshown Hloc He) as (Hst & Htm & _); [lia|].
  split.
  - fold w1 in Hst, Htm. rewrite Hst. auto.
  - intros HS HE Hpast.
    apply tick_expiry; auto.
    subst w2 w1. apply reachable_run. constructor. assumption.
Qed.

Lemma optionsOpen_reachable : reachable optionsOpen.
Proof. unfold optionsOpen. apply reachable_run, started_reachable. Qed.

Lemma sharing_auto_expiry_witness :
  isSharingLocation
    (st (run [EvStartSharing (Some 30); EvElapse (31 * 60 * 1000)] optionsOpen)) = true
  /\ isSharingLocation
       (st (run [EvStartSharing (Some 30); EvElapse (31 * 60 * 1000); EvTimer 5]
              optionsOpen)) = false
  /\ remainingTime
       (st (run [EvStartSharing (Some 30); EvElapse (31 * 60 * 1000); EvTimer 5]
              optionsOpen)) = "".
Proof.
  assert (H1 : shareOptionsShown (st optionsOpen) = true) by (vm_compute; reflexivity).
  assert (H2 : hasLocation (st optionsOpen) = true) by (vm_compute; reflexivity).
  pose proof (sharing_auto_expiry optionsOpen 30 [EvElapse (31 * 60 * 1000)]
                optionsOpen_reachable H1 H2 eq_refl) as H.
  cbv zeta in H. destruct H as (_ & H).
  destruct H as (id & t & Href & Hf & _ & Hexp);
    [vm_compute; reflexivity|vm_compute; reflexivity|vm_compute; discriminate|].
  vm_compute in Href. injection Href as <-.
  vm_compute in Hf. injection Hf as <-.
  destruct Hexp as (A & _ & B & _); [vm_compute; discriminate|].
  vm_compute in A, B |- *. split; [reflexivity|split; [exact A|exact B]].
Defined.

(** ** A session without a time limit *)

Lemma Inv_no_tick w : Inv w -> sharingEndTime (st w) = None -> timers (plat w) = [].
Proof.
  intros HI HE. destruct (timers (plat w)) as [|t l] eqn:E; [reflexivity|].
  destruct (Inv_timer w t HI) as (e & _ & _ & _ & H & _); [rewrite E; now left|].
  congruence.
Qed.

(** Nothing but the stop button ends a session without a time limit. *)
Lemma indefinite_step e w :
  reachable w ->
  isSharingLocation (st w) = true -> sharingEndTime (st w) = None ->
  isStopSharing e = false ->
  isSharingLocation (st (step e w)) = true
  /\ sharingEndTime (st (step e w)) = None
  /\ (remainingTime (st w) = msgIndefinitely -> isWatchError e = false ->
      remainingTime (st (step e w)) = msgIndefinitely).
Proof.
  intros HR HS HE Hstop.
  pose proof (reachable_Inv w HR) as HI.
  assert (Hh : isSharingLocation (st (handler e w)) = true
               /\ sharingEndTime (st (handler e w)) = None
               /\ (isWatchError e = false ->
                   remainingTime (st (handler e w)) = remainingTime (st w))).
  { destruct (besideSharing e) eqn:Hb.
    - destruct (handler_besideSharing e w Hb) as (-> & -> & ->). auto.
    - destruct e; try discriminate; cbn [handler].
      + unfold fireTimer. rewrite (Inv_no_tick w HI HE). auto.
      + unfold handleKeyDown, gestureInert. rewrite HS, !orb_true_r. auto.
      + destruct (findWatch id (watches (plat w))) as [x|]; [|auto].
        unfold watchError. destruct (capturedSharing x); cbn; auto;
          repeat split; auto; discriminate.
      + destruct (shareOptionsShown (st w)) eqn:Hshown; [|auto].
        apply shareOptionsShown_flags in Hshown.
        destruct Hshown as (_ & _ & _ & ? & _). congruence. }
  destruct Hh as (H1 & H2 & H3).
  unfold step.
  destruct (st_commit (st w) (handler e w)) as [E|(_ & _ & E)]; rewrite E.
  - repeat split; auto. intros Ht Hw. rewrite H3; auto.
  - cbn. repeat split; auto.
Qed.

Lemma indefinite_run es : forall w,
  reachable w ->
  isSharingLocation (st w) = true -> sharingEndTime (st w) = None ->
  forallb (fun e => negb (isStopSharing e)) es = true ->
  isSharingLocation (st (run es w)) = true
  /\ sharingEndTime (st (run es w)) = None
  /\ (remainingTime (st w) = msgIndefinitely ->
      forallb (fun e => negb (isWatchError e)) es = true ->
      remainingTime (st (run es w)) = msgIndefinitely).
Proof.
  induction es as [|e es IH]; intros w HR HS HE Hes; [cbn; auto|].
  cbn in Hes. apply andb_true_iff in Hes. destruct Hes as [He Hes].
  apply negb_true_iff in He.
  destruct (indefinite_step e w HR HS HE He) as (B1 & B2 & B3).
  destruct (IH (step e w) (reach_step e HR) B1 B2 Hes) as (C1 & C2 & C3).
  cbn [run]. repeat split; auto.
  intros Ht Hw. cbn in Hw. apply andb_true_iff in Hw. destruct Hw as [Hw1 Hw2].
  apply negb_true_iff in Hw1. auto.
Qed.

(** ** C10: the status text right after a timed start *)

Lemma elapse_step dt w :
  0 <= dt -> step (EvElapse dt) w = onPlat (fun p => set_now (now p + dt) p) w.
Proof.
  intros H. unfold step. cbn [handler].
  destruct (Z.ltb_spec dt 0); [lia|].
  apply commit_sameDeps, sameDeps_refl.
Qed.

(** C10. Starting a session with a duration does not set the status
    text: after the start and its render the text is what it was, which is
    the empty text; no timer can change it during the first second; the
    tick that comes due one second after the start writes the countdown. *)
Theorem countdown_text_after_start w d dt id :
  reachable w -> shareOptionsShown (st w) = true -> hasLocation (st w) = true ->
  0 < d -> 0 <= dt < 1000 ->
  let w1 := step (EvStartSharing (Some d)) w in
  remainingTime (st w1) = remainingTime (st w)
  /\ remainingTime (st w1) = ""
  /\ remainingTime (st (run [EvElapse dt; EvTimer id] w1)) = ""
  /\ remainingTime (st (run [EvElapse 1000; EvTimer (S (nextId (plat w)))] w1))
     = formatRemaining (d * 60 * 1000 - 1000).
Proof.
  intros HR Hshown Hloc Hd Hdt w1.
  pose proof (reachable_Inv w HR) as HI.
  pose proof (cf_now (proj1 HI)) as Hnow.
  destruct (shareOptionsShown_flags _ Hshown) as (_ & _ & _ & HS & _).
  pose proof (proj2 HI HS) as Htext.
  destruct (start_finite w d HR Hshown Hloc) as (Hst & Htm & _ & Hn); [lia|lia|].
  fold w1 in Hst, Htm, Hn.
  assert (Ht1 : remainingTime (st w1) = "") by (rewrite Hst; exact Htext).
  repeat split.
  - rewrite Ht1, Htext. reflexivity.
  - exact Ht1.
  - cbn [run]. rewrite elapse_step by lia.
    unfold step. cbn [handler]. unfold fireTimer. cbn [plat onPlat timers set_now set_timers].
    rewrite Htm. unfold findTimer. cbn [find tid].
    destruct (Nat.eqb (S (nextId (plat w))) id).
    + cbn [due now set_now]. rewrite Hn.
      destruct (Z.leb_spec (now (plat w) + 1000) (now (plat w) + dt)); [lia|].
      rewrite commit_sameDeps by apply sameDeps_refl. exact Ht1.
    + rewrite commit_sameDeps by apply sameDeps_refl. exact Ht1.
  - cbn [run]. rewrite elapse_step by lia.
    unfold step. cbn [handler]. unfold fireTimer. cbn [plat onPlat timers set_now set_timers].
    rewrite Htm. unfold findTimer. cbn [find tid]. rewrite Nat.eqb_refl.
    cbn [due now set_now kind]. rewrite Hn, Z.leb_refl.
    unfold runTimer. cbn [plat onPlat now set_now set_timers].
    rewrite Hn.
    replace (now (plat w) + d * 60 * 1000 - (now (plat w) + 1000))
      with (d * 60 * 1000 - 1000) by lia.
    destruct (Z.leb_spec (d * 60 * 1000 - 1000) 0); [lia|].
    rewrite commit_sameDeps by (cbn; repeat split).
    reflexivity.
Qed.

Lemma countdown_text_after_start_witness :
  remainingTime (st (step (EvStartSharing (Some 30)) optionsOpen)) = ""
  /\ remainingTime
       (st (run [EvStartSharing (Some 30); EvElapse 999; EvTimer 5] optionsOpen)) = ""
  /\ remainingTime
       (st (run [EvStartSharing (Some 30); EvElapse 1000; EvTimer 5] optionsOpen))
     = "29:59 remaining".
Proof.
  assert (H1 : shareOptionsShown (st optionsOpen) = true) by (vm_compute; reflexivity).
  assert (H2 : hasLocation (st optionsOpen) = true) by (vm_compute; reflexivity).
  assert (H3 : 0 <= 999 < 1000) by lia.
  pose proof (countdown_text_after_start optionsOpen 30 999 5
                optionsOpen_reachable H1 H2 eq_refl H3) as H.
  cbv zeta in H. destruct H as (_ & A & B & C).
  vm_compute in A, B, C |- *. split; [exact A|split; [exact B|exact C]].
Defined.

(** * Further properties of the emergency trigger and of the sessions *)

(** ** What a callback does to the state, event by event *)

(** A timer that fires in a rendered state is the tick of the sharing
    session. *)
Lemma fireTimer_cases id w :
  Inv w ->
  fireTimer id w = w
  \/ exists t e,
       In t (timers (plat w)) /\ tid t = id /\ kind t = ShareTick e
       /\ isSharingLocation (st w) = true /\ sharingEndTime (st w) = Some e
       /\ due t <= now (plat w)
       /\ let w1 := onPlat (set_timers (mkTimer id (due t + 1000) (ShareTick e)
                                          :: dropTimer id (timers (plat w)))) w in
          fireTimer id w
          = if e - now (plat w) <=? 0 then handleStopSharing w1
            else onState (setRemainingTime (formatRemaining (e - now (plat w)))) w1.
Proof.
  intros HI. unfold fireTimer.
  destruct (findTimer id (timers (plat w))) as [t|] eqn:Hf; [|now left].
  apply findTimer_Some in Hf. destruct Hf as [Hin Hid].
  destruct (Inv_timer w t HI Hin) as (e & Hk & _ & HS & HE & _).
  destruct (Z.leb_spec (due t) (now (plat w))); [|now left].
  right. exists t, e. repeat split; auto.
  rewrite Hk. reflexivity.
Qed.

(** The state a callback leaves, for the three callbacks that touch the
    timer table. *)
Lemma timed_st e w :
  Inv w -> quietEvent e = false ->
  st (handler e w) = st w
  \/ (gestureInert (st w) = false /\ st (handler e w) = st (pressed w))
  \/ (isSharingLocation (st w) = true
      /\ (st (handler e w) = st (handleStopSharing w)
          \/ exists txt, st (handler e w) = setRemainingTime txt (st w))).
Proof.
  intros HI Hq. destruct e; try discriminate; cbn [handler].
  - destruct (fireTimer_cases id w HI) as [->|(t & e & _ & _ & _ & HS & _ & _ & ->)];
      [now left|].
    right; right. split; [assumption|].
    destruct (e - now (plat w) <=? 0); [left; reflexivity|right; eexists; reflexivity].
  - destruct (handleKeyDown_cases key repeat w) as [->|[Hin ->]]; auto.
  - left. unfold handleKeyUp, clearTimeout.
    destruct (String.eqb key _), (longPressTimeoutRef (refs w)); reflexivity.
Qed.

(** ** The long press *)

(** X1. The one-second hold never triggers: in no reachable state has the
    callback of the long-press timer (line 258) run, and no long-press
    timer survives a render. *)
Theorem long_press_never_fires w :
  reachable w ->
  longPresses w = 0%nat
  /\ (forall t b, In t (timers (plat w)) -> kind t <> LongPress b).
Proof.
  intros HR. split.
  - induction HR as [t0 v l H|e w HR IH]; [reflexivity|].
    unfold step. destruct (commit_counts (st w) (handler e w)) as [_ ->].
    rewrite handler_longPresses by (apply reachable_Inv; assumption).
    exact IH.
  - intros t b Hin Hk.
    destruct (Inv_timer w t (reachable_Inv w HR) Hin) as (e & Hk' & _).
    congruence.
Qed.

Lemma long_press_never_fires_witness :
  longPresses (run [EvKeyDown volUp false; EvElapse 5000; EvTimer 4; EvKeyUp volUp] started)
  = 0%nat.
Proof.
  apply (long_press_never_fires
           (run [EvKeyDown volUp false; EvElapse 5000; EvTimer 4; EvKeyUp volUp] started)).
  apply reachable_run, started_reachable.
Defined.

(** ** The key gesture is silent *)

Lemma commit_alarms s0 w :
  sirenPlaying (plat (commit s0 w)) = sirenPlaying (plat w)
  /\ alarms (commit s0 w) = alarms w
  /\ downloads (commit s0 w) = downloads w.
Proof.
  destruct (commit_Frame s0 w) as [_ F _ _ _ _ _ _ _ Fc].
  split; [exact F|]. unfold alarms, downloads. split.
  - apply (extBy_count isWatchCall isAlarm); [|assumption].
    intros []; cbn; auto; discriminate.
  - apply (extBy_count isWatchCall isDownload); [|assumption].
    intros []; cbn; auto; discriminate.
Qed.

Lemma timed_silent e w :
  Inv w -> quietEvent e = false ->
  sirenPlaying (plat (handler e w)) = sirenPlaying (plat w)
  /\ alarms (handler e w) = alarms w.
Proof.
  intros HI Hq. destruct e; try discriminate; cbn [handler].
  - destruct (fireTimer_cases id w HI) as [->|(t & e & _ & _ & _ & _ & _ & _ & ->)];
      [auto|].
    destruct (e - now (plat w) <=? 0); auto.
  - destruct (handleKeyDown_cases key repeat w) as [->|[Hin ->]]; auto.
    unfold pressed, alarms. destruct (3 <=? volumeUpCount (st w))%nat; auto.
  - unfold handleKeyUp, clearTimeout.
    destruct (String.eqb key _), (longPressTimeoutRef (refs w)); auto.
Qed.

Lemma keySequence_cases e :
  isTap e || betweenTaps e = true ->
  quietEvent e = false \/ exists dt, e = EvElapse dt.
Proof. destruct e; cbn; try discriminate; eauto. Qed.

(** X2. Whatever is done with the keys, held or tapped, the siren is not
    started and the device does not vibrate: the gesture only ever
    activates discreetly. *)
Theorem key_gesture_is_silent w es :
  reachable w -> keySequence es = true ->
  sirenPlaying (plat (run es w)) = sirenPlaying (plat w)
  /\ alarms (run es w) = alarms w.
Proof.
  revert w. induction es as [|e es IH]; intros w HR Hseq; [auto|].
  cbn in Hseq. apply andb_true_iff in Hseq. destruct Hseq as [He Hseq].
  cbn [run].
  destruct (IH (step e w) (reach_step e HR) Hseq) as [-> ->].
  unfold step.
  destruct (commit_alarms (st w) (handler e w)) as (-> & -> & _).
  destruct (keySequence_cases e He) as [Hq|[dt ->]].
  - apply timed_silent; [apply reachable_Inv|]; assumption.
  - cbn [handler]. destruct (dt <? 0); auto.
Qed.

Lemma key_gesture_is_silent_witness :
  sirenPlaying (plat (run (tap ++ tap ++ tap ++ tap) started)) = sirenPlaying (plat started)
  /\ alarms (run (tap ++ tap ++ tap ++ tap) started) = alarms started.
Proof.
  apply (key_gesture_is_silent started (tap ++ tap ++ tap ++ tap) started_reachable).
  reflexivity.
Defined.

(** ** One screen at a time *)

Lemma modalCount_commit s0 w : modalCount (st (commit s0 w)) = modalCount (st w).
Proof.
  destruct (st_commit s0 w) as [->|(_ & _ & ->)]; reflexivity.
Qed.

Lemma handler_modal e w :
  Inv w -> (modalCount (st w) <= 1)%nat -> (modalCount (st (handler e w)) <= 1)%nat.
Proof.
  intros HI H.
  destruct (quietEvent e) eqn:Hq.
  - clear HI. destruct w as [s r p].
    destruct s as [vw isE loc er isR sFC sCS isCA sSO isSL sET rT vUC];
  destruct r as [mRR mIR lWR lSR vUR lPR];
  destruct p as [nw nx tm ws pd sp cv lf cs].
    unfold modalCount in *. cbn in H.
    destruct isCA, sFC, sCS, isSL, sSO; cbn in H; try lia; clear H;
    destruct e; try discriminate; autounfold with handlers; reduce;
      repeat (split_match; reduce); lia.
  - destruct (timed_st e w HI Hq) as [->|[(_ & ->)|(HS & [->|(txt & ->)])]]; auto.
    + rewrite pressed_st. exact H.
    + unfold modalCount in *. cbn. rewrite HS in H. cbn in H. lia.
Qed.

(** X3. At most one of the five flags that put a screen in front of the
    views is set: the active call, the incoming call, the contact list, the
    sharing screen and the share dialog never stack. *)
Theorem one_modal_at_a_time w :
  reachable w -> (modalCount (st w) <= 1)%nat.
Proof.
  induction 1 as [t0 v l H|e w HR IH]; [cbn; lia|].
  unfold step. rewrite modalCount_commit.
  apply handler_modal; [apply reachable_Inv|]; assumption.
Qed.

Lemma one_modal_at_a_time_witness : (modalCount (st bothActive) <= 1)%nat.
Proof. apply (one_modal_at_a_time bothActive), bothActive_reachable. Defined.

(** ** The share dialog and the position *)

Ltac open_state w :=
  let s := fresh "s" in let r := fresh "r" in let p := fresh "p" in
  destruct w as [s r p];
  destruct s as [vw isE loc er isR sFC sCS isCA sSO isSL sET rT vUC];
  destruct r as [mRR mIR lWR lSR vUR lPR];
  destruct p as [nw nx tm ws pd sp cv lf cs].

Ltac bools :=
  repeat match goal with
         | H : _ && _ = true |- _ => apply andb_true_iff in H; destruct H
         | H : negb _ = true |- _ => apply negb_true_iff in H
         | H : _ || _ = false |- _ => apply orb_false_iff in H; destruct H
         | H : false = true |- _ => discriminate H
         | H : true = false |- _ => discriminate H
         end;
  subst.

Lemma handler_dialog e w :
  Inv w -> dialogHasLocation (st w) -> dialogHasLocation (st (handler e w)).
Proof.
  intros HI H.
  destruct (quietEvent e) eqn:Hq.
  - clear HI. open_state w.
    unfold dialogHasLocation, hasLocation in *. cbn in H. destruct H as [H1 H2].
    destruct e; try discriminate; autounfold with handlers;
      unfold homeShown, toolsShown, shareOptionsShown, sharingShown,
        contactSelectorShown, fakeCallShown, activeCallShown, overlay,
        isLocationReady; reduce;
      repeat (split_match; reduce); bools;
      (split; [try assumption; try discriminate; try reflexivity
              |try assumption; try (intros E; discriminate E)]).
    all: try (intros _; reflexivity).
    all: try (specialize (H1 eq_refl); discriminate H1).
  - destruct (timed_st e w HI Hq) as [->|[(_ & ->)|(HS & [->|(txt & ->)])]]; auto.
    rewrite pressed_st. exact H.
Qed.

(** X4. The share dialog is only ever open with a position at hand, so the
    ["Location not available"] branch of [handleStartSharing] (lines
    486-489) is never taken from the screen: that error is never shown,
    and a choice in the dialog always starts the session. *)
Theorem share_dialog_has_location w d :
  reachable w ->
  (showSharingOptions (st w) = true -> hasLocation (st w) = true)
  /\ error (st w) <> Some msgNoLocation
  /\ (shareOptionsShown (st w) = true ->
      isSharingLocation (st (step (EvStartSharing d) w)) = true
      /\ showSharingOptions (st (step (EvStartSharing d) w)) = false
      /\ error (st (step (EvStartSharing d) w)) = error (st w)).
Proof.
  intros HR.
  assert (HD : dialogHasLocation (st w)).
  { induction HR as [t0 v l H|e w HR IH]; [split; [discriminate|discriminate]|].
    unfold step.
    destruct (st_commit (st w) (handler e w)) as [->|(_ & _ & ->)];
      apply handler_dialog; auto using reachable_Inv. }
  destruct HD as [H1 H2]. split; [exact H1|]. split; [exact H2|].
  intros Hshown.
  destruct (shareOptionsShown_flags _ Hshown) as (_ & _ & _ & _ & HO).
  specialize (H1 HO). unfold hasLocation in H1.
  unfold step. cbn [handler]. rewrite Hshown.
  destruct (commit_fields (st w) (handleStartSharing d w))
    as (_ & HS & _ & _ & HE & _).
  assert (Hf : showSharingOptions (st (commit (st w) (handleStartSharing d w)))
               = showSharingOptions (st (handleStartSharing d w))).
  { destruct (st_commit (st w) (handleStartSharing d w)) as [->|(_ & _ & ->)];
      reflexivity. }
  rewrite HS, HE, Hf. unfold handleStartSharing.
  destruct (location (st w)); [|discriminate].
  destruct d as [d|]; [destruct (truthy (Some d))|]; cbn; auto.
Qed.

Lemma share_dialog_has_location_witness :
  isSharingLocation (st (step (EvStartSharing (Some 15)) optionsOpen)) = true.
Proof.
  destruct (share_dialog_has_location optionsOpen (Some 15) optionsOpen_reachable)
    as (_ & _ & H).
  apply H. vm_compute. reflexivity.
Defined.

(** ** The error banner *)

Lemma handler_error_kept e w :
  Inv w -> error (st w) <> None -> error (st (handler e w)) <> None.
Proof.
  intros HI H.
  destruct (quietEvent e) eqn:Hq.
  - clear HI. open_state w. cbn in H.
    destruct e; try discriminate; autounfold with handlers; reduce;
      repeat (split_match; reduce); try assumption; discriminate.
  - destruct (timed_st e w HI Hq) as [->|[(_ & ->)|(HS & [->|(txt & ->)])]]; auto.
    rewrite pressed_st. exact H.
Qed.

(** X5. Nothing clears the error banner: once an error text is set, every
    later state shows an error text, whatever happens, a successful
    activation included. *)
Theorem error_is_never_cleared w es :
  reachable w -> error (st w) <> None -> error (st (run es w)) <> None.
Proof.
  revert w. induction es as [|e es IH]; intros w HR H; [exact H|].
  cbn [run]. apply IH; [constructor; assumption|].
  unfold step.
  destruct (commit_fields (st w) (handler e w)) as (_ & _ & _ & _ & -> & _).
  apply handler_error_kept; [apply reachable_Inv|]; assumption.
Qed.

Lemma error_is_never_cleared_witness :
  error (st (run [EvSos true; EvAsync 5 (Some (1, 1))]
               (run [EvSos true; EvAsync 4 None] started)))
  <> None.
Proof.
  apply (error_is_never_cleared (run [EvSos true; EvAsync 4 None] started)
           [EvSos true; EvAsync 5 (Some (1, 1))]).
  - apply reachable_run, started_reachable.
  - vm_compute. discriminate.
Defined.

(** ** The gesture is muted behind every other screen *)

Lemma set_timers_same w :
  onPlat (fun p => set_timers (timers p) p) w = w.
Proof. destruct w as [s r p]; destruct p; reflexivity. Qed.

Lemma handleKeyUp_idle key w : Inv w -> handleKeyUp key w = w.
Proof.
  intros HI. unfold handleKeyUp.
  destruct (String.eqb key "AudioVolumeUp"); [|reflexivity].
  unfold clearTimeout.
  destruct (longPressTimeoutRef (refs w)) as [id|] eqn:E; [|reflexivity].
  assert (Hd : dropTimer id (timers (plat w)) = timers (plat w)).
  { apply dropTimer_absent. intros t Ht Hid.
    destruct (Inv_timer w t HI Ht) as (_ & _ & _ & _ & _ & _ & Hlp & _).
    congruence. }
  rewrite <- (set_timers_same w) at 2.
  unfold onPlat. rewrite Hd. reflexivity.
Qed.

(** X6. While the emergency is active, a call is incoming or active, the
    contact list or the share dialog is open, or the position is being
    shared, the volume key does nothing at all: the discreet trigger is
    not available behind those screens. *)
Theorem gesture_muted_behind_screens w key repeat :
  reachable w -> gestureInert (st w) = true ->
  step (EvKeyDown key repeat) w = w /\ step (EvKeyUp key) w = w.
Proof.
  intros HR Hin. unfold step. cbn [handler]. split.
  - unfold handleKeyDown. rewrite Hin. apply commit_sameDeps, sameDeps_refl.
  - rewrite handleKeyUp_idle by (apply reachable_Inv; assumption).
    apply commit_sameDeps, sameDeps_refl.
Qed.

Lemma gesture_muted_behind_screens_witness :
  step (EvKeyDown volUp false) (step (EvStartSharing None) optionsOpen)
  = step (EvStartSharing None) optionsOpen.
Proof.
  assert (HR : reachable (step (EvStartSharing None) optionsOpen))
    by (apply reach_step, optionsOpen_reachable).
  assert (Hin : gestureInert (st (step (EvStartSharing None) optionsOpen)) = true)
    by (vm_compute; reflexivity).
  exact (proj1 (gesture_muted_behind_screens _ volUp false HR Hin)).
Defined.

(** ** The timers of the countdown and of the gesture *)

Lemma Conf_empty trk shr et w : Conf trk shr false et false w -> timers (plat w) = [].
Proof.
  intros HC. destruct (timers (plat w)) as [|t l] eqn:E; [reflexivity|].
  assert (Hin : In t (timers (plat w))) by (rewrite E; now left).
  destruct (isShare (kind t)) eqn:Hk.
  - destruct (kind t) as [b| |e] eqn:Hk'; try discriminate.
    destruct (cf_share HC t Hin Hk') as (_ & ? & _). discriminate.
  - destruct (cf_gesture HC t Hin Hk) as [? _]. discriminate.
Qed.

Lemma timers_cleanupWatch s0 w : timers (plat (cleanupWatch s0 w)) = timers (plat w).
Proof.
  unfold cleanupWatch.
  destruct (locationWatchIdRef (refs w)); cbn;
    match goal with |- context [if ?b then _ else _] => destruct b end; reflexivity.
Qed.

Lemma timers_effectWatch w : timers (plat (effectWatch w)) = timers (plat w).
Proof.
  unfold effectWatch. destruct (tracking (st w)); [|reflexivity].
  destruct (mapDivMounted (st w) && negb (mapInstanceRef (refs w)) && leaflet (plat w));
    cbn; destruct (locationWatchIdRef (refs w)); reflexivity.
Qed.

Lemma dropTimer_length id l : (List.length (dropTimer id l) <= List.length l)%nat.
Proof.
  unfold dropTimer. induction l as [|t l IH]; cbn; [lia|].
  destruct (negb (tid t =? id)%nat); cbn; lia.
Qed.

Lemma timers_cleanupGesture w :
  (List.length (timers (plat (cleanupGesture w))) <= List.length (timers (plat w)))%nat.
Proof.
  unfold cleanupGesture, clearTimeout.
  destruct (volumeUpTimeoutRef (refs w)) as [v|]; cbn;
    destruct (longPressTimeoutRef (refs w)) as [l|]; cbn; auto.
  - etransitivity; apply dropTimer_length.
  - apply dropTimer_length.
  - apply dropTimer_length.
Qed.

Lemma timers_effectShare w :
  timers (plat w) = [] -> (List.length (timers (plat (effectShare w))) <= 1)%nat.
Proof.
  intros H. unfold effectShare.
  destruct (isSharingLocation (st w) && truthy (sharingEndTime (st w))).
  - destruct (sharingEndTime (st w)); cbn; rewrite H; cbn; lia.
  - destruct (isSharingLocation (st w) && optZEqb (sharingEndTime (st w)) None);
      cbn; rewrite H; cbn; lia.
Qed.

Lemma commit_timers s0 w :
  Conforms s0 w -> (List.length (timers (plat w)) <= 1)%nat ->
  (List.length (timers (plat (commit s0 w))) <= 1)%nat.
Proof.
  intros [HC _] HL. unfold commit.
  destruct (shareDepsChanged s0 (st w)) eqn:Hc.
  - apply timers_effectShare.
    destruct (watchDepsChanged s0 (st w)) eqn:Ha;
      [apply (cleanupWatch_Conf s0) in HC|];
      apply cleanupShare_Conf in HC;
      (destruct (gestureDepsChanged s0 (st w)) eqn:Hd;
       [apply cleanupGesture_Conf in HC|]);
      try apply effectWatch_Conf in HC;
      exact (Conf_empty _ _ _ _ HC).
  - destruct (watchDepsChanged s0 (st w)), (gestureDepsChanged s0 (st w));
      rewrite ?timers_effectWatch;
      try (etransitivity; [apply timers_cleanupGesture|]);
      rewrite ?timers_cleanupWatch; assumption.
Qed.

Lemma step_timers e w :
  reachable w -> (List.length (timers (plat w)) <= 1)%nat ->
  (List.length (timers (plat (step e w))) <= 1)%nat.
Proof.
  intros HR HL. pose proof (reachable_Inv w HR) as HI.
  assert (Hgen : (List.length (timers (plat (handler e w))) <= 1)%nat ->
                 (List.length (timers (plat (step e w))) <= 1)%nat).
  { intros H. unfold step. apply commit_timers; [apply handler_Conforms, HI|exact H]. }
  destruct (quietEvent e) eqn:Hq.
  - apply Hgen. destruct (handler_Quiet e w Hq) as [-> _ _ _ _ _ _ _ _]. exact HL.
  - destruct e; try discriminate.
    + apply Hgen. cbn [handler].
      destruct (fireTimer_cases id w HI)
        as [->|(t & e & Hin & Hid & _ & _ & _ & _ & ->)]; [exact HL|].
      assert (Hd : dropTimer id (timers (plat w)) = []).
      { destruct (timers (plat w)) as [|t' [|t'' l]]; cbn in HL; try lia;
          [destruct Hin|].
        destruct Hin as [->|[]]. unfold dropTimer. cbn.
        rewrite Hid, Nat.eqb_refl. reflexivity. }
      destruct (e - now (plat w) <=? 0); cbn; rewrite Hd; cbn; lia.
    + destruct (handleKeyDown_cases key repeat w) as [E|[Hin E]].
      * apply Hgen. cbn [handler]. rewrite E. exact HL.
      * (* the gesture timers are cleared by the render *)
        rewrite Inv_no_timer; [cbn; lia|apply reachable_Inv, reach_step, HR|].
        unfold step. cbn [handler]. rewrite E.
        destruct (commit_fields (st w) (pressed w)) as (_ & -> & _).
        rewrite pressed_st. apply gestureInert_sharing, Hin.
    + apply Hgen. cbn [handler]. rewrite handleKeyUp_idle by assumption. exact HL.
Qed.

(** ** The recorder *)

Lemma timed_recorder e w :
  Inv w -> quietEvent e = false ->
  mediaRecorderRef (refs (handler e w)) = mediaRecorderRef (refs w)
  /\ isRecording (st (handler e w)) = isRecording (st w)
  /\ location (st (handler e w)) = location (st w)
  /\ (nextId (plat w) <= nextId (plat (handler e w)))%nat.
Proof.
  intros HI Hq. destruct e; try discriminate; cbn [handler].
  - destruct (fireTimer_cases id w HI) as [->|(t & e & _ & _ & _ & _ & _ & _ & ->)];
      [auto|].
    destruct (e - now (plat w) <=? 0); auto.
  - destruct (handleKeyDown_cases key repeat w) as [->|[Hin ->]]; auto.
    unfold pressed. destruct (3 <=? volumeUpCount (st w))%nat; cbn; repeat split; lia.
  - rewrite handleKeyUp_idle by assumption. auto.
Qed.






(** ** An activation whose fix succeeds *)

(** X9. When the position fix of an activation arrives, the emergency is
    on with that position, the camera is being asked for, exactly one
    position watch is live, and the key gesture is muted.  Nothing on this
    path touches the siren or the error banner: a discreet activation
    stays silent, and an error shown before stays on screen. *)
Theorem activation_succeeds w id lat lon :
  reachable w -> findPending id (pending (plat w)) = Some ActivationFix ->
  let w' := step (EvAsync id (Some (lat, lon))) w in
  isEmergency (st w') = true
  /\ location (st w') = Some (mkLoc (nextId (plat w)) lat lon)
  /\ pending (plat w')
     = (S (nextId (plat w)), RecordingStart) :: dropPending id (pending (plat w))
  /\ (exists x, watches (plat w') = [x]
        /\ capturedSharing x = isSharingLocation (st w))
  /\ gestureInert (st w') = true
  /\ sirenPlaying (plat w') = sirenPlaying (plat w)
  /\ alarms w' = alarms w
  /\ error (st w') = error (st w).
Proof.
  intros HR Hf w'.
  assert (HI' : Inv w') by (apply reachable_Inv, reach_step, HR).
  subst w'. unfold step in *. cbn [handler] in *. rewrite Hf in *.
  set (w1 := resolve ActivationFix (Some (lat, lon))
               (onPlat (fun p => set_pending (dropPending id (pending p)) p) w)) in *.
  assert (Hst : st w1 = setIsEmergency true
                          (setLocation (Some (mkLoc (nextId (plat w)) lat lon)) (st w)))
    by reflexivity.
  assert (Hpl : pending (plat w1)
                = (S (nextId (plat w)), RecordingStart) :: dropPending id (pending (plat w))
                /\ sirenPlaying (plat w1) = sirenPlaying (plat w)
                /\ alarms w1 = alarms w)
    by (repeat split).
  destruct Hpl as (P1 & P2 & P3).
  destruct (commit_fields (st w) w1) as (F1 & F2 & _ & F4 & F5 & _ & F7 & _).
  destruct (commit_alarms (st w) w1) as (A1 & A2 & _).
  destruct (commit_Frame (st w) w1) as [Fp _ _ _ _ _ _ _ _ _].
  repeat split.
  - rewrite F1, Hst. reflexivity.
  - rewrite F4, Hst. reflexivity.
  - rewrite Fp. exact P1.
  - pose proof (cf_watch (proj1 HI')) as Hw.
    destruct (watches (plat (commit (st w) w1))) as [|x [|y l]]; [|eauto|contradiction].
    + destruct Hw as [_ Htr]. unfold tracking, hasLocation in Htr.
      rewrite F1, F4, Hst in Htr. discriminate.
    + exists x. split; [reflexivity|]. destruct Hw as (_ & _ & ->).
      rewrite F2, Hst. reflexivity.
  - rewrite F7, Hst. reflexivity.
  - rewrite A1. exact P2.
  - rewrite A2. exact P3.
  - rewrite F5, Hst. reflexivity.
Qed.

Lemma activation_succeeds_witness :
  isEmergency (st (step (EvAsync 4 (Some (48858100, 2294100))) (step (EvSos true) started)))
  = true.
Proof.
  assert (HR : reachable (step (EvSos true) started))
    by (apply reach_step, started_reachable).
  assert (Hf : findPending 4 (pending (plat (step (EvSos true) started)))
               = Some ActivationFix) by (vm_compute; reflexivity).
  exact (proj1 (activation_succeeds _ 4 48858100 2294100 HR Hf)).
Defined.

(** ** Every position update restarts the watch *)

Lemma handler_locFresh e w : Inv w -> locFresh w -> locFresh (handler e w).
Proof.
  intros HI H. unfold locFresh in *.
  destruct (quietEvent e) eqn:Hq.
  - clear HI. open_state w. cbn in H.
    destruct e; try discriminate; autounfold with handlers; reduce;
      repeat (split_match; reduce);
      intros l' E; try (injection E as <-; cbn; lia);
      apply H in E; lia.
  - destruct (timed_recorder e w HI Hq) as (_ & _ & -> & Hn).
    intros l E. apply H in E. lia.
Qed.

Lemma reachable_locFresh w : reachable w -> locFresh w.
Proof.
  induction 1 as [t0 v l H|e w HR IH]; [intros l'; discriminate|].
  pose proof (handler_locFresh e w (reachable_Inv w HR) IH) as H.
  unfold locFresh, step in *.
  destruct (commit_fields (st w) (handler e w)) as (_ & _ & _ & -> & _).
  destruct (commit_Frame (st w) (handler e w)) as [_ _ _ _ _ _ _ _ Fn _].
  intros l' E. apply H in E. lia.
Qed.

(** X10. Every position the watch reports replaces the watch: the new
    position object is a changed dependency of the watch effect (line
    197), so the render clears the watch that reported and starts a new
    one, keeping one watch live. *)
Theorem position_update_restarts_watch w id x lat lon :
  reachable w -> findWatch id (watches (plat w)) = Some x ->
  let w' := step (EvWatchFix id lat lon) w in
  location (st w') = Some (mkLoc (nextId (plat w)) lat lon)
  /\ watches (plat w') = [mkWatch (S (nextId (plat w))) (isSharingLocation (st w))]
  /\ locationWatchIdRef (refs w') = Some (S (nextId (plat w)))
  /\ calls (plat w')
     = CWatchPosition (S (nextId (plat w))) :: CClearWatch id :: calls (plat w).
Proof.
  intros HR Hf w'.
  pose proof (reachable_Inv w HR) as HI.
  pose proof (reachable_locFresh w HR) as HL.
  destruct (findWatch_Some _ _ _ Hf) as [Hin Hid].
  destruct (Inv_watch w x HI Hin) as (Hws & Href & Htr & _).
  subst w'. unfold step. cbn [handler]. rewrite Hf.
  assert (Hc : commit (st w) (watchSuccess lat lon w)
               = effectWatch (cleanupWatch (st w) (watchSuccess lat lon w))).
  { unfold commit.
    assert (Ha : watchDepsChanged (st w) (st (watchSuccess lat lon w)) = true).
    { unfold watchDepsChanged. cbn. unfold locFresh in HL.
      destruct (location (st w)) as [l|] eqn:El; cbn;
        [|rewrite andb_false_r; reflexivity].
      specialize (HL l eq_refl).
      destruct (Nat.eqb_spec (ident l) (nextId (plat w))); [lia|].
      rewrite andb_false_r. reflexivity. }
    assert (Hb : shareDepsChanged (st w) (st (watchSuccess lat lon w)) = false).
    { unfold shareDepsChanged. cbn. now rewrite Bool.eqb_reflx, optZEqb_refl. }
    assert (Hd : gestureDepsChanged (st w) (st (watchSuccess lat lon w)) = false)
      by (unfold gestureDepsChanged; cbn; now rewrite !Bool.eqb_reflx, Nat.eqb_refl).
    rewrite Ha, Hb, Hd. reflexivity. }
  rewrite Hc. clear Hc HI HL HR Hin Hf.
  unfold tracking, hasLocation in Htr.
  open_state w. cbn in *. subst.
  unfold watchSuccess; crunch.
  stage cleanupWatch.
  all: unfold effectWatch, tracking, hasLocation, mapDivMounted, homeShown,
         sharingShown, overlay; crunch; rewrite ?Htr; crunch;
       repeat (split_test; crunch); auto.
  all: try (rewrite andb_false_r in Htr; discriminate).
  all: try (apply andb_true_iff in Htr; destruct Htr as [Htr' _];
            apply orb_true_iff in Htr'; destruct Htr'; discriminate).
Qed.

Lemma position_update_restarts_watch_witness :
  location (st (step (EvWatchFix 7 48858200 2294200) emergencyOn))
  = Some (mkLoc 8 48858200 2294200)
  /\ watches (plat (step (EvWatchFix 7 48858200 2294200) emergencyOn)) = [mkWatch 9 false].
Proof.
  assert (HR : reachable emergencyOn)
    by (unfold emergencyOn; apply reachable_run, started_reachable).
  assert (Hf : findWatch 7 (watches (plat emergencyOn)) = Some (mkWatch 7 false))
    by (vm_compute; reflexivity).
  destruct (position_update_restarts_watch emergencyOn 7 _ 48858200 2294200 HR Hf)
    as (A & B & _).
  vm_compute in A, B |- *. split; [exact A|exact B].
Defined.

(** * The texts of the clocks *)

Lemma string_of_uint_plain d : hasChar ":" (NilEmpty.string_of_uint d) = false.
Proof. induction d; cbn; auto. Qed.

Lemma string_of_uint_length d :
  String.length (NilEmpty.string_of_uint d) = Decimal.nb_digits d.
Proof. induction d; cbn; auto. Qed.

Lemma toString_uint m :
  0 <= m ->
  exists u, toString m = NilEmpty.string_of_uint u /\ u <> Decimal.Nil /\ Z.of_uint u = m.
Proof.
  intros H. destruct m as [|p|p]; [| |lia].
  - exists (Decimal.D0 Decimal.Nil). repeat split. discriminate.
  - exists (Pos.to_uint p).
    pose proof (DecimalPos.Unsigned.to_uint_nonnil p) as Hn.
    repeat split; [|assumption|].
    + unfold toString. cbn. unfold NilZero.string_of_uint.
      destruct (Pos.to_uint p); [contradiction|reflexivity..].
    + unfold Z.of_uint. rewrite DecimalPos.Unsigned.of_to. reflexivity.
Qed.

Lemma readNat_zeros k s : readNat (repeatChar "0" k ++ s) = readNat s.
Proof.
  induction k as [|k IH]; [reflexivity|].
  cbn [repeatChar append]. unfold readNat in *. cbn [NilEmpty.uint_of_string].
  rewrite <- IH.
  destruct (NilEmpty.uint_of_string (repeatChar "0" k ++ s)) as [d|]; reflexivity.
Qed.

Lemma readNat_padStart m : 0 <= m -> readNat (padStart 2 "0" (toString m)) = Some m.
Proof.
  intros H. destruct (toString_uint m H) as (u & -> & _ & <-).
  unfold padStart. rewrite readNat_zeros. unfold readNat.
  rewrite NilEmpty.usu. reflexivity.
Qed.

Lemma hasChar_app c s t : hasChar c (s ++ t) = hasChar c s || hasChar c t.
Proof. induction s as [|a s IH]; cbn; [reflexivity|]. rewrite IH, orb_assoc. reflexivity. Qed.

Lemma hasChar_zeros k : hasChar ":" (repeatChar "0" k) = false.
Proof. induction k; cbn; auto. Qed.

Lemma padStart_plain m : 0 <= m -> hasChar ":" (padStart 2 "0" (toString m)) = false.
Proof.
  intros H. destruct (toString_uint m H) as (u & -> & _).
  unfold padStart. rewrite hasChar_app, hasChar_zeros, string_of_uint_plain. reflexivity.
Qed.

(** A text is cut at its first colon in one way only. *)
Lemma cut_unique x : forall x' y y',
  hasChar ":" x = false -> hasChar ":" x' = false ->
  x ++ ":" ++ y = x' ++ ":" ++ y' -> x = x' /\ y = y'.
Proof.
  induction x as [|a x IH]; intros [|a' x'] y y' H H' E; cbn in *.
  - injection E as ->. auto.
  - injection E as <- _. cbn in H'. discriminate.
  - injection E as -> _. cbn in H. discriminate.
  - injection E as -> E.
    apply orb_false_iff in H, H'. destruct H as [_ H], H' as [_ H'].
    destruct (IH x' y y' H H' E) as [-> ->]. auto.
Qed.

Lemma padStart_long m : 10 <= m -> padStart 2 "0" (toString m) = toString m.
Proof.
  intros H. destruct (toString_uint m) as (u & E & _ & Hu); [lia|].
  unfold padStart. rewrite E, string_of_uint_length.
  assert (2 <= Decimal.nb_digits u)%nat.
  { destruct u as [|u|u|u|u|u|u|u|u|u|u]; cbn in *; try lia;
      destruct u; cbn in *; lia. }
  replace (2 - Decimal.nb_digits u)%nat with 0%nat by lia. reflexivity.
Qed.

Lemma padStart_short m : 0 <= m < 10 -> padStart 2 "0" (toString m) = "0" ++ toString m.
Proof.
  intros H.
  assert (Hall : forallb (fun k => String.eqb (padStart 2 "0" (toString (Z.of_nat k)))
                                     ("0" ++ toString (Z.of_nat k))) (seq 0 10) = true)
    by (vm_compute; reflexivity).
  rewrite forallb_forall in Hall.
  specialize (Hall (Z.to_nat m)).
  rewrite Z2Nat.id in Hall by lia.
  apply String.eqb_eq, Hall, in_seq. lia.
Qed.

(** X11. The clock of the simulated call writes the minutes in full, with
    a leading zero below ten, a colon, and the seconds on two digits; up to
    99:59 it is the five characters MM:SS, and from one hundred minutes on
    the minutes take the digits they need (nothing is cut off). *)
Theorem call_clock_format seconds :
  0 <= seconds ->
  formatTime seconds
  = (if seconds / 60 <? 10 then "0" else "") ++ toString (seconds / 60)
      ++ ":" ++ twoDigits (seconds mod 60)
  /\ (seconds < 6000 ->
      formatTime seconds = twoDigits (seconds / 60) ++ ":" ++ twoDigits (seconds mod 60)
      /\ String.length (formatTime seconds) = 5%nat).
Proof.
  intros H.
  assert (Hm : 0 <= seconds / 60) by (apply Z.div_pos; lia).
  assert (Hs : 0 <= seconds mod 60 < 60) by (apply Z.mod_pos_bound; lia).
  unfold formatTime. rewrite Z.rem_mod_nonneg by lia.
  rewrite (padStart_twoDigits (seconds mod 60) Hs).
  split.
  - destruct (Z.ltb_spec (seconds / 60) 10).
    + rewrite padStart_short by lia. reflexivity.
    + rewrite padStart_long by lia. reflexivity.
  - intros Hlt.
    assert (Hm' : 0 <= seconds / 60 < 100)
      by (split; [assumption|apply Z.div_lt_upper_bound; lia]).
    assert (Hall : forallb (fun k => String.eqb (padStart 2 "0" (toString (Z.of_nat k)))
                                       (twoDigits (Z.of_nat k))) (seq 0 100) = true)
      by (vm_compute; reflexivity).
    rewrite forallb_forall in Hall.
    specialize (Hall (Z.to_nat (seconds / 60))).
    rewrite Z2Nat.id in Hall by lia.
    assert (E : padStart 2 "0" (toString (seconds / 60)) = twoDigits (seconds / 60))
      by (apply String.eqb_eq, Hall, in_seq; lia).
    rewrite E. split; reflexivity.
Qed.

Lemma call_clock_format_witness :
  formatTime 754 = "12:34" /\ formatTime 6000 = "100:00".
Proof.
  split.
  - destruct (call_clock_format 754) as [_ H]; [lia|].
    destruct H as [H _]; [lia|]. exact H.
  - destruct (call_clock_format 6000) as [H _]; [lia|]. exact H.
Defined.

(** X12. Different durations read differently on the clock of the call:
    the text determines the number of seconds. *)
Theorem call_clock_injective a b :
  0 <= a -> 0 <= b -> formatTime a = formatTime b -> a = b.
Proof.
  intros Ha Hb E. unfold formatTime in E.
  assert (Hma : 0 <= a / 60) by (apply Z.div_pos; lia).
  assert (Hmb : 0 <= b / 60) by (apply Z.div_pos; lia).
  assert (Hsa : 0 <= a mod 60 < 60) by (apply Z.mod_pos_bound; lia).
  assert (Hsb : 0 <= b mod 60 < 60) by (apply Z.mod_pos_bound; lia).
  rewrite !Z.rem_mod_nonneg in E by lia.
  apply cut_unique in E; try (apply padStart_plain; assumption).
  destruct E as [Em Es].
  apply (f_equal readNat) in Em, Es.
  rewrite !readNat_padStart in Em, Es by lia.
  injection Em as Em. injection Es as Es.
  rewrite (Z.div_mod a 60), (Z.div_mod b 60) by lia. congruence.
Qed.

Lemma call_clock_injective_witness : formatTime 59 <> formatTime 60.
Proof.
  intros E. apply (call_clock_injective 59 60) in E; lia.
Defined.

(** * Properties of the simulated call, the help lookups and the chat *)

(** ** The render of the whole component *)

Ltac open_app a :=
  let w := fresh "w" in let c := fresh "c" in let r := fresh "r" in let d := fresh "d" in
  destruct a as [w c r d];
  destruct c as [fCC cT aiR isL cH cI];
  destruct r as [tIR isSp chR];
  destruct d as [cSp vcs ovc qu cnc sd xn xt xp].

Lemma core_appCommit s0 a : core (appCommit s0 a) = commit s0 (core a).
Proof.
  unfold appCommit.
  destruct (Bool.eqb (isCallActive s0) (isCallActive (st (core a)))); [reflexivity|].
  unfold effectCall, cleanupCall, xclearInterval. open_app a. cbn.
  destruct tIR; cbn; destruct (isCallActive (st (commit s0 w))); reflexivity.
Qed.

Lemma appCommit_XFrame s0 a : XFrame a (appCommit s0 a).
Proof.
  unfold appCommit.
  destruct (Bool.eqb (isCallActive s0) (isCallActive (st (core a))));
    [constructor; cbn; auto|].
  unfold effectCall, cleanupCall, xclearInterval, xsetTimeout. open_app a. cbn.
  destruct tIR; cbn; destruct (isCallActive (st (commit s0 w))); cbn;
    constructor; cbn; auto.
Qed.

(** When the call flag did not change, the render is the one of the core. *)
Lemma appCommit_idle s0 a :
  isCallActive (st (core a)) = isCallActive s0 ->
  appCommit s0 a = onCore (commit s0) a.
Proof.
  intros H. unfold appCommit. rewrite H, Bool.eqb_reflx. reflexivity.
Qed.

Lemma onCore_same a w : w = core a -> mkApp w (cells a) (xrefs a) (device a) = a.
Proof. intros ->. destruct a; reflexivity. Qed.

(** A callback that leaves the state of the core as it is, is followed by
    a render that runs no effect. *)
Lemma appCommit_core_same a a' :
  core a' = core a -> appCommit (st (core a)) a' = a'.
Proof.
  intros H. rewrite appCommit_idle by (rewrite H; reflexivity).
  unfold onCore. apply onCore_same. rewrite H.
  apply commit_sameDeps, sameDeps_refl.
Qed.

(** ** The core inside the component *)

Lemma toolsShown_overlay s : toolsShown s = true -> overlay s = false.
Proof.
  unfold toolsShown. intros H. apply andb_true_iff in H. destruct H as [H _].
  apply negb_true_iff in H. exact H.
Qed.

(** The callbacks of this part do to the core what an event of the core
    does, or nothing. *)
Lemma core_appHandler e a :
  core (appHandler e a) = core a
  \/ exists e', core (appHandler e a) = handler e' (core a).
Proof.
  destruct e as [e|c| | |id r|value| |id r|vs|id|id|id]; cbn [appHandler].
  - destruct e as [dt|id|key rp|key|id r|id lat lon|id|v|cf| | | |d| | | | | | | ];
      try (right; eexists; reflexivity); try (left; reflexivity).
    + destruct v; try (right; eexists; reflexivity).
      destruct (negb (overlay (st (core a)))); [|left; reflexivity].
      right. exists (EvNav Tools). reflexivity.
    + destruct (fakeCallShown (st (core a))) eqn:Hs; [|left; reflexivity].
      right. exists EvAcceptCall. cbn [handler]. rewrite Hs.
      unfold handleAcceptCall.
      destruct (lookupScript _ _) as [[g sc]|]; [|reflexivity].
      cbn. destruct (canSpeak (device a)); [|reflexivity].
      cbn. destruct (voices (device a)); [reflexivity|].
      unfold afterVoices, speakInSequence. cbn.
      destruct sc; reflexivity.
    + destruct (activeCallShown (st (core a))) eqn:Hs; [|left; reflexivity].
      right. exists EvHangUp. cbn [handler]. rewrite Hs.
      unfold handleHangUp. cbn. destruct (canSpeak (device a)); reflexivity.
  - destruct (contactSelectorShown (st (core a))) eqn:Hs; [|left; reflexivity].
    right. exists EvPickContact. cbn [handler]. rewrite Hs. reflexivity.
  - destruct (toolsShown (st (core a)) && isLocationReady (st (core a))) eqn:Hs;
      [|left; reflexivity].
    destruct (location (st (core a))); [|left; reflexivity].
    apply andb_true_iff in Hs. destruct Hs as [Hs _].
    right. exists (EvNav Tools). cbn [handler].
    rewrite (toolsShown_overlay _ Hs). reflexivity.
  - destruct (toolsShown (st (core a))) eqn:Hs; [|left; reflexivity].
    right. exists (EvNav Tools). cbn [handler].
    rewrite (toolsShown_overlay _ Hs). reflexivity.
  - left. destruct (findXPending id (xpending (device a))) as [[p|m]|]; try reflexivity.
    destruct r; reflexivity.
  - left. destruct (chatShown (st (core a)) && negb (isLoading (cells a))); reflexivity.
  - left. destruct (chatShown (st (core a))); [|reflexivity].
    unfold handleChatSubmit.
    destruct (isBlank _ || isLoading _ || negb _); reflexivity.
  - left. destruct (findXPending id (xpending (device a))) as [[p|m]|]; try reflexivity.
  - left. destruct (onvoiceschanged (device a)) as [[g sc]|]; [|reflexivity].
    unfold afterVoices, speakInSequence. cbn. destruct sc; reflexivity.
  - left. unfold takeUtterance.
    destruct (orElse _ _); reflexivity.
  - left. unfold takeUtterance.
    destruct (orElse _ _); reflexivity.
  - left. unfold fireXTimer.
    destruct (findXTimer id (xtimers (device a))) as [t|]; [|reflexivity].
    destruct (xdue t <=? now (plat (core a))); [|reflexivity].
    destruct (xkind t) as [|ls v]; [reflexivity|].
    unfold speakInSequence. cbn.
    destruct (negb (isSpeakingRef (xrefs a)) || (List.length ls =? 0)%nat);
      [reflexivity|destruct ls; reflexivity].
Qed.

Lemma core_appStep e a :
  core (appStep e a) = core a \/ exists e', core (appStep e a) = step e' (core a).
Proof.
  unfold appStep. rewrite core_appCommit.
  destruct (core_appHandler e a) as [->|[e' ->]].
  - left. apply commit_sameDeps, sameDeps_refl.
  - right. exists e'. reflexivity.
Qed.

Lemma appReachable_core a : appReachable a -> reachable (core a).
Proof.
  induction 1 as [t0 v l sp vs H|e a _ IH]; [constructor; assumption|].
  destruct (core_appStep e a) as [->|[e' ->]]; [assumption|].
  apply reach_step, IH.
Qed.

Lemma appHandler_plain e a :
  plainCore e = true -> appHandler (Core e) a = onCore (handler e) a.
Proof. destruct e; try discriminate; try reflexivity. destruct v; try discriminate; reflexivity. Qed.

(** The render changes no flag of the state. *)
Lemma commit_flags s0 w :
  isCallActive (st (commit s0 w)) = isCallActive (st w)
  /\ showFakeCall (st (commit s0 w)) = showFakeCall (st w)
  /\ showContactSelector (st (commit s0 w)) = showContactSelector (st w)
  /\ view (st (commit s0 w)) = view (st w)
  /\ overlay (st (commit s0 w)) = overlay (st w).
Proof. destruct (st_commit s0 w) as [->|(_ & _ & ->)]; repeat split. Qed.

(** ** What the speech callbacks leave alone *)

Lemma speakInSequence_frame ls v a :
  core (speakInSequence ls v a) = core a /\ cells (speakInSequence ls v a) = cells a.
Proof.
  unfold speakInSequence.
  destruct (negb (isSpeakingRef (xrefs a)) || (List.length ls =? 0)%nat);
    [auto|destruct ls; auto].
Qed.

Lemma handleAcceptCall_frame a :
  core (handleAcceptCall a)
  = onState (fun x => setIsCallActive true (setShowFakeCall false x)) (core a)
  /\ cells (handleAcceptCall a) = cells a.
Proof.
  unfold handleAcceptCall.
  destruct (lookupScript _ _) as [[g sc]|]; [|auto].
  cbn. destruct (canSpeak (device a)); [|auto].
  cbn. destruct (voices (device a)); [auto|].
  unfold afterVoices.
  match goal with
  | |- context [speakInSequence ?l ?v ?x] =>
      destruct (speakInSequence_frame l v x) as [-> ->]
  end.
  auto.
Qed.

Lemma handleHangUp_frame a :
  core (handleHangUp a) = onState (setIsCallActive false) (core a)
  /\ cells (handleHangUp a) = cells a.
Proof. unfold handleHangUp. cbn. destruct (canSpeak (device a)); auto. Qed.

Lemma fireXTimer_frame id a :
  core (fireXTimer id a) = core a
  /\ fakeCallContact (cells (fireXTimer id a)) = fakeCallContact (cells a)
  /\ aiResponse (cells (fireXTimer id a)) = aiResponse (cells a)
  /\ isLoading (cells (fireXTimer id a)) = isLoading (cells a)
  /\ chatHistory (cells (fireXTimer id a)) = chatHistory (cells a)
  /\ chatInput (cells (fireXTimer id a)) = chatInput (cells a)
  /\ xpending (device (fireXTimer id a)) = xpending (device a).
Proof.
  unfold fireXTimer.
  destruct (findXTimer id (xtimers (device a))) as [t|]; [|auto 10].
  destruct (xdue t <=? now (plat (core a))); [|auto 10].
  destruct (xkind t) as [|ls v]; [cbn; auto 10|].
  unfold speakInSequence. cbn.
  destruct (negb (isSpeakingRef (xrefs a)) || (List.length ls =? 0)%nat);
    [cbn; auto 10|destruct ls; cbn; auto 10].
Qed.

(** ** The caller *)

Lemma scripts_total c :
  exists g lines,
    lookupScript (contactName c) callScripts = Some (g, lines)
    /\ List.length lines = 4%nat.
Proof. destruct c; cbn; eauto. Qed.

(** Only the contact list raises the incoming call, and only its answer
    the active call. *)
Lemma handler_call_flags e w :
  Inv w -> plainCore e = true ->
  showFakeCall (st (handler e w)) = true \/ isCallActive (st (handler e w)) = true ->
  showFakeCall (st w) = true \/ isCallActive (st w) = true.
Proof.
  intros HI Hp.
  destruct (quietEvent e) eqn:Hq.
  - clear HI. open_state w.
    destruct e; try discriminate; autounfold with handlers; reduce;
      repeat (split_match; reduce); auto; intuition discriminate.
  - destruct (timed_st e w HI Hq) as [->|[(_ & ->)|(HS & [->|(txt & ->)])]]; auto.
    rewrite pressed_st. auto.
Qed.

Lemma step_callerKnown e a : appReachable a -> callerKnown a -> callerKnown (appStep e a).
Proof.
  intros HR H. pose proof (reachable_Inv _ (appReachable_core a HR)) as HI.
  unfold callerKnown in *. unfold appStep.
  destruct (appCommit_XFrame (st (core a)) (appHandler e a)) as [-> _ _ _ _ _ _ _ _ _ _ _ _ _ _].
  rewrite core_appCommit.
  destruct (commit_flags (st (core a)) (core (appHandler e a))) as (-> & -> & _).
  destruct e as [e|c| | |id r|value| |id r|vs|id|id|id];
    [|cbn [appHandler]..].
  - destruct (plainCore e) eqn:Hp.
    + rewrite appHandler_plain by assumption. cbn [core cells onCore].
      intros Hf. apply H. eapply handler_call_flags; eassumption.
    + destruct e; try discriminate; [destruct v; try discriminate| | |];
        cbn [appHandler].
      * destruct (negb (overlay (st (core a)))) eqn:Ho; cbn; rewrite ?Ho; exact H.
      * exact H.
      * destruct (fakeCallShown (st (core a))) eqn:Hs; [|exact H].
        destruct (handleAcceptCall_frame a) as [_ ->].
        intros _. apply H. left.
        unfold fakeCallShown in Hs. apply andb_true_iff in Hs. tauto.
      * destruct (activeCallShown (st (core a))) eqn:Hs; [|exact H].
        destruct (handleHangUp_frame a) as [-> ->]. cbn.
        intros Hf; apply H; tauto.
  - destruct (contactSelectorShown (st (core a))); [|exact H].
    intros _. exists c. reflexivity.
  - destruct (toolsShown (st (core a)) && isLocationReady (st (core a))); [|exact H].
    destruct (location (st (core a))); exact H.
  - destruct (toolsShown (st (core a))); exact H.
  - destruct (findXPending id (xpending (device a))) as [[p|m]|]; try exact H.
    destruct r; exact H.
  - destruct (chatShown (st (core a)) && negb (isLoading (cells a))); exact H.
  - destruct (chatShown (st (core a))); [|exact H].
    unfold handleChatSubmit.
    destruct (isBlank _ || isLoading _ || negb _); exact H.
  - destruct (findXPending id (xpending (device a))) as [[p|m]|]; exact H.
  - destruct (onvoiceschanged (device a)) as [[g sc]|]; [|exact H].
    unfold afterVoices, speakInSequence. cbn. destruct sc; exact H.
  - unfold takeUtterance. destruct (orElse _ _); exact H.
  - unfold takeUtterance. destruct (orElse _ _); exact H.
  - destruct (fireXTimer_frame id a) as (-> & -> & _). exact H.
Qed.

Lemma reachable_callerKnown a : appReachable a -> callerKnown a.
Proof.
  induction 1 as [t0 v l sp vs H|e a HR IH].
  - intros [Hf|Hf]; discriminate.
  - apply step_callerKnown; assumption.
Qed.

(** X13. Whenever a call is incoming or active, its caller is one of the
    six contacts of the list, and that contact has a script of four
    lines: the early return of line 449 is never taken. *)
Theorem call_has_script a :
  appReachable a ->
  showFakeCall (st (core a)) = true \/ isCallActive (st (core a)) = true ->
  exists g lines,
    lookupScript (fakeCallContact (cells a)) callScripts = Some (g, lines)
    /\ List.length lines = 4%nat.
Proof.
  intros HR Hf. destruct (reachable_callerKnown a HR Hf) as [c ->].
  apply scripts_total.
Qed.

Lemma appReachable_run es : forall a, appReachable a -> appReachable (appRun es a).
Proof.
  induction es as [|e es IH]; intros a H; cbn; [assumption|].
  apply IH, app_step, H.
Qed.

Lemma appStarted_reachable : appReachable appStarted.
Proof. unfold appStarted. apply appReachable_run, app_mount. lia. Qed.

Lemma incomingCall_reachable : appReachable incomingCall.
Proof. unfold incomingCall. apply appReachable_run, appStarted_reachable. Qed.

Lemma call_has_script_witness :
  exists g lines,
    lookupScript (fakeCallContact (cells incomingCall)) callScripts = Some (g, lines)
    /\ List.length lines = 4%nat.
Proof.
  apply (call_has_script incomingCall incomingCall_reachable).
  left. vm_compute. reflexivity.
Defined.

(** ** The clock of the call *)

Lemma handler_callActive e w :
  Inv w -> plainCore e = true ->
  isCallActive (st (handler e w)) = isCallActive (st w).
Proof.
  intros HI Hp.
  destruct (quietEvent e) eqn:Hq.
  - clear HI. open_state w.
    destruct e; try discriminate; autounfold with handlers; reduce;
      repeat (split_match; reduce); reflexivity.
  - destruct (timed_st e w HI Hq) as [->|[(_ & ->)|(HS & [->|(txt & ->)])]]; auto.
    rewrite pressed_st. reflexivity.
Qed.

Lemma handler_now e w : Inv w -> now (plat w) <= now (plat (handler e w)).
Proof.
  intros HI. destruct (quietEvent e) eqn:Hq.
  - apply (q_now (handler_Quiet e w Hq)).
  - destruct e; try discriminate; cbn [handler].
    + destruct (fireTimer_cases id w HI) as [->|(t & e & _ & _ & _ & _ & _ & _ & ->)];
        [lia|].
      destruct (e - now (plat w) <=? 0); cbn; lia.
    + destruct (handleKeyDown_cases key repeat w) as [->|[Hin ->]]; [lia|].
      unfold pressed. destruct (3 <=? volumeUpCount (st w))%nat; cbn; lia.
    + rewrite handleKeyUp_idle by assumption. lia.
Qed.

Lemma appStep_now e a :
  appReachable a -> now (plat (core a)) <= now (plat (core (appStep e a))).
Proof.
  intros HR. pose proof (reachable_Inv _ (appReachable_core a HR)) as HI.
  destruct (core_appStep e a) as [->|[e' ->]]; [lia|].
  unfold step. rewrite (f_now (commit_Frame (st (core a)) (handler e' (core a)))).
  apply handler_now, HI.
Qed.

Lemma dropXTimer_In t id l :
  In t (dropXTimer id l) <-> In t l /\ xid t <> id.
Proof.
  unfold dropXTimer. rewrite filter_In, negb_true_iff, Nat.eqb_neq. tauto.
Qed.

Lemma findXTimer_Some id l t :
  findXTimer id l = Some t -> In t l /\ xid t = id.
Proof.
  unfold findXTimer. intros H. apply find_some in H.
  destruct H as [H1 H2]. apply Nat.eqb_eq in H2. auto.
Qed.

Lemma speakInSequence_clock ls v a :
  xtimers (device (speakInSequence ls v a)) = xtimers (device a)
  /\ timerIntervalRef (xrefs (speakInSequence ls v a)) = timerIntervalRef (xrefs a).
Proof.
  unfold speakInSequence.
  destruct (negb (isSpeakingRef (xrefs a)) || (List.length ls =? 0)%nat);
    [auto|destruct ls; auto].
Qed.

Lemma handleAcceptCall_clock a :
  xtimers (device (handleAcceptCall a)) = xtimers (device a)
  /\ timerIntervalRef (xrefs (handleAcceptCall a)) = timerIntervalRef (xrefs a).
Proof.
  unfold handleAcceptCall.
  destruct (lookupScript _ _) as [[g sc]|]; [|auto].
  cbn. destruct (canSpeak (device a)); [|auto].
  cbn. destruct (voices (device a)); [auto|].
  unfold afterVoices.
  match goal with
  | |- context [speakInSequence ?l ?v ?x] =>
      destruct (speakInSequence_clock l v x) as [-> ->]
  end.
  auto.
Qed.

Lemma handleHangUp_clock a :
  xtimers (device (handleHangUp a)) = xtimers (device a)
  /\ timerIntervalRef (xrefs (handleHangUp a)) = timerIntervalRef (xrefs a).
Proof. unfold handleHangUp. cbn. destruct (canSpeak (device a)); auto. Qed.

(** The render after the call flag went up: the tick is armed. *)
Lemma appCommit_started s0 a :
  isCallActive s0 = false -> isCallActive (st (core a)) = true ->
  callTimer (cells (appCommit s0 a)) = callTimer (cells a)
  /\ timerIntervalRef (xrefs (appCommit s0 a)) = Some (xnext (device a))
  /\ xtimers (device (appCommit s0 a))
     = mkXTimer (xnext (device a)) (now (plat (core a)) + 1000) CallTick
       :: match timerIntervalRef (xrefs a) with
          | Some id => dropXTimer id (xtimers (device a))
          | None => xtimers (device a)
          end.
Proof.
  intros H0 H1. unfold appCommit. rewrite H0, H1. cbn [Bool.eqb].
  pose proof (proj1 (commit_flags s0 (core a))) as Hf. rewrite H1 in Hf.
  pose proof (f_now (commit_Frame s0 (core a))) as Hn.
  unfold effectCall, cleanupCall, xclearInterval, xsetTimeout. open_app a. cbn in *.
  destruct tIR; cbn; rewrite Hf; cbn; rewrite Hn; auto.
Qed.

(** The render after the call flag went down: the tick is cleared and
    the counter reset. *)
Lemma appCommit_ended s0 a :
  isCallActive s0 = true -> isCallActive (st (core a)) = false ->
  callTimer (cells (appCommit s0 a)) = 0
  /\ timerIntervalRef (xrefs (appCommit s0 a)) = timerIntervalRef (xrefs a)
  /\ forall t, In t (xtimers (device (appCommit s0 a))) ->
       In t (xtimers (device a)) /\ timerIntervalRef (xrefs a) <> Some (xid t).
Proof.
  intros H0 H1. unfold appCommit. rewrite H0, H1. cbn [Bool.eqb].
  pose proof (proj1 (commit_flags s0 (core a))) as Hf. rewrite H1 in Hf.
  unfold effectCall, cleanupCall, xclearInterval. open_app a. cbn in *.
  destruct tIR as [id|]; cbn; rewrite Hf; cbn; repeat split; auto; try discriminate.
  - apply dropXTimer_In in H. destruct H as [H _]. apply dropXTimer_In in H. tauto.
  - apply dropXTimer_In in H. destruct H as [_ H]. congruence.
Qed.

(** What a callback other than the two buttons of the call does to the
    clock: nothing, or one tick. *)
Lemma appHandler_clock e a :
  Inv (core a) -> isAccept e = false -> isHangUp e = false ->
  isCallActive (st (core (appHandler e a))) = isCallActive (st (core a))
  /\ timerIntervalRef (xrefs (appHandler e a)) = timerIntervalRef (xrefs a)
  /\ ((callTimer (cells (appHandler e a)) = callTimer (cells a)
       /\ forall t, In t (xtimers (device (appHandler e a))) ->
            isCallTick t = true -> In t (xtimers (device a)))
      \/ exists t,
           In t (xtimers (device a)) /\ isCallTick t = true
           /\ xdue t <= now (plat (core a))
           /\ callTimer (cells (appHandler e a)) = callTimer (cells a) + 1
           /\ forall t', In t' (xtimers (device (appHandler e a))) ->
                isCallTick t' = true ->
                t' = mkXTimer (xid t) (xdue t + 1000) CallTick
                \/ (In t' (xtimers (device a)) /\ xid t' <> xid t)).
Proof.
  intros HI Ha Hh.
  destruct e as [e|c| | |id r|value| |id r|vs|id|id|id];
    [|cbn [appHandler]..].
  - destruct (plainCore e) eqn:Hp.
    + rewrite appHandler_plain by assumption. cbn.
      rewrite handler_callActive by assumption. auto.
    + destruct e; try discriminate; [destruct v; try discriminate|];
        cbn [appHandler].
      * destruct (negb (overlay (st (core a)))) eqn:Ho; cbn; rewrite ?Ho; auto.
      * auto.
  - destruct (contactSelectorShown (st (core a))); cbn; auto.
  - destruct (toolsShown (st (core a)) && isLocationReady (st (core a))); [|auto].
    destruct (location (st (core a))); cbn; auto.
  - destruct (toolsShown (st (core a))); cbn; auto.
  - destruct (findXPending id (xpending (device a))) as [[p|m]|]; auto.
    destruct r; cbn; auto.
  - destruct (chatShown (st (core a)) && negb (isLoading (cells a))); cbn; auto.
  - destruct (chatShown (st (core a))); [|auto].
    unfold handleChatSubmit.
    destruct (isBlank _ || isLoading _ || negb _); cbn; auto.
  - destruct (findXPending id (xpending (device a))) as [[p|m]|]; cbn; auto.
  - destruct (onvoiceschanged (device a)) as [[g sc]|]; [|cbn; auto].
    unfold afterVoices.
    match goal with
    | |- context [speakInSequence ?l ?v ?x] =>
        destruct (speakInSequence_clock l v x) as [-> ->];
        destruct (speakInSequence_frame l v x) as [-> ->]
    end.
    cbn. auto.
  - unfold takeUtterance. destruct (orElse _ _) as [u|]; [|auto].
    cbn. repeat split; auto. left. split; [reflexivity|].
    intros t [<-|Ht] Hk; [discriminate|].
    unfold dropUtterance in Ht. exact Ht.
  - unfold takeUtterance. destruct (orElse _ _) as [u|]; cbn; auto.
  - unfold fireXTimer.
    destruct (findXTimer id (xtimers (device a))) as [t|] eqn:Hf; [|auto].
    apply findXTimer_Some in Hf. destruct Hf as [Hin Hid].
    destruct (Z.leb_spec (xdue t) (now (plat (core a)))); [|auto].
    destruct (xkind t) as [|ls v] eqn:Hk.
    + cbn. repeat split; auto. right. exists t.
      repeat split; auto; [unfold isCallTick; rewrite Hk; reflexivity|].
      intros t' [<-|Ht'] _; [left; rewrite Hid; reflexivity|].
      right. apply dropXTimer_In in Ht'. rewrite Hid. exact Ht'.
    + match goal with
      | |- context [speakInSequence ?l ?v ?x] =>
          destruct (speakInSequence_clock l v x) as [-> ->];
          destruct (speakInSequence_frame l v x) as [-> ->]
      end.
      cbn. repeat split; auto. left. split; [reflexivity|].
      intros t' Ht' _. apply dropXTimer_In in Ht'. tauto.
Qed.

Lemma fakeCallShown_flags s :
  fakeCallShown s = true -> isCallActive s = false /\ showFakeCall s = true.
Proof.
  unfold fakeCallShown. intros H. apply andb_true_iff in H. destruct H as [H1 H2].
  apply negb_true_iff in H1. auto.
Qed.

(** The state of the component right after a callback that left the call
    flag alone. *)
Lemma appStep_idle e a :
  isCallActive (st (core (appHandler e a))) = isCallActive (st (core a)) ->
  cells (appStep e a) = cells (appHandler e a)
  /\ xrefs (appStep e a) = xrefs (appHandler e a)
  /\ device (appStep e a) = device (appHandler e a).
Proof.
  intros H. unfold appStep. rewrite appCommit_idle by assumption. auto.
Qed.

Lemma appStep_callActive e a :
  isCallActive (st (core (appStep e a))) = isCallActive (st (core (appHandler e a))).
Proof.
  unfold appStep. rewrite core_appCommit.
  apply (proj1 (commit_flags _ _)).
Qed.

Lemma accept_refused a :
  fakeCallShown (st (core a)) = false -> appStep (Core EvAcceptCall) a = a.
Proof.
  intros H. unfold appStep. cbn [appHandler]. rewrite H.
  apply appCommit_core_same. reflexivity.
Qed.

Lemma hangUp_refused a :
  activeCallShown (st (core a)) = false -> appStep (Core EvHangUp) a = a.
Proof.
  intros H. unfold appStep. cbn [appHandler]. rewrite H.
  apply appCommit_core_same. reflexivity.
Qed.

Lemma isAccept_eq e : isAccept e = true -> e = Core EvAcceptCall.
Proof. destruct e as [[]| | | | | | | | | | |]; try discriminate. reflexivity. Qed.

Lemma isHangUp_eq e : isHangUp e = true -> e = Core EvHangUp.
Proof. destruct e as [[]| | | | | | | | | | |]; try discriminate. reflexivity. Qed.

Lemma step_clockKept e a : appReachable a -> clockKept a -> clockKept (appStep e a).
Proof.
  intros HR [K1 K2].
  pose proof (reachable_Inv _ (appReachable_core a HR)) as HI.
  destruct (isAccept e) eqn:Ha; [apply isAccept_eq in Ha; subst e|].
  { destruct (fakeCallShown (st (core a))) eqn:Hs;
      [|rewrite accept_refused by assumption; split; assumption].
    destruct (fakeCallShown_flags _ Hs) as [Hoff _].
    destruct (K1 Hoff) as [_ Hnone].
    assert (Hon : isCallActive (st (core (appHandler (Core EvAcceptCall) a))) = true).
    { cbn [appHandler]. rewrite Hs.
      destruct (handleAcceptCall_frame a) as [-> _]. reflexivity. }
    destruct (appCommit_started (st (core a)) _ Hoff Hon) as (_ & Href & Htm).
    fold (appStep (Core EvAcceptCall) a) in Href, Htm.
    split.
    - rewrite appStep_callActive, Hon. discriminate.
    - intros t Ht Hk. rewrite Htm in Ht. rewrite Href.
      destruct Ht as [<-|Ht]; [reflexivity|].
      exfalso. cbn [appHandler] in Ht. rewrite Hs in Ht.
      destruct (handleAcceptCall_clock a) as [Et Er]. rewrite Et, Er in Ht.
      assert (In t (xtimers (device a))).
      { destruct (timerIntervalRef (xrefs a)); [apply dropXTimer_In in Ht; tauto|exact Ht]. }
      rewrite (Hnone t) in Hk by assumption. discriminate. }
  destruct (isHangUp e) eqn:Hh; [apply isHangUp_eq in Hh; subst e|].
  { destruct (activeCallShown (st (core a))) eqn:Hs;
      [|rewrite hangUp_refused by assumption; split; assumption].
    unfold activeCallShown in Hs.
    assert (Hoff : isCallActive (st (core (appHandler (Core EvHangUp) a))) = false).
    { cbn [appHandler]. unfold activeCallShown. rewrite Hs.
      destruct (handleHangUp_frame a) as [-> _]. reflexivity. }
    destruct (appCommit_ended (st (core a)) _ Hs Hoff) as (Hc & _ & Htm).
    fold (appStep (Core EvHangUp) a) in Hc, Htm.
    assert (Hnone : forall t, In t (xtimers (device (appStep (Core EvHangUp) a))) ->
              isCallTick t = false).
    { intros t Ht. destruct (Htm t Ht) as [Hin Hne].
      cbn [appHandler] in Hin, Hne. unfold activeCallShown in Hin, Hne.
      rewrite Hs in Hin, Hne.
      destruct (handleHangUp_clock a) as [Et Er]. rewrite Et in Hin. rewrite Er in Hne.
      destruct (isCallTick t) eqn:Hk; [|reflexivity].
      exfalso. apply Hne. apply K2; assumption. }
    split.
    - intros _. split; [exact Hc|exact Hnone].
    - intros t Ht Hk. rewrite (Hnone t Ht) in Hk. discriminate. }
  destruct (appHandler_clock e a HI Ha Hh) as (Hf & Href & Hcases).
  destruct (appStep_idle e a Hf) as (Ec & Er & Ed).
  unfold clockKept. rewrite appStep_callActive, Hf, Ec, Er, Ed, Href.
  destruct Hcases as [[Hc Hsub]|(t & Hin & Hk & Hdue & Hc & Hsub)].
  - split.
    + intros Hoff. destruct (K1 Hoff) as [K1a K1b]. split; [congruence|].
      intros t Ht. destruct (isCallTick t) eqn:Hk; [|reflexivity].
      rewrite <- (K1b t (Hsub t Ht Hk)). symmetry. exact Hk.
    + intros t Ht Hk. apply K2; auto.
  - assert (Hon : isCallActive (st (core a)) = true).
    { destruct (isCallActive (st (core a))); [reflexivity|].
      destruct (K1 eq_refl) as [_ K1b]. rewrite (K1b t Hin) in Hk. discriminate. }
    split; [rewrite Hon; discriminate|].
    intros t' Ht' Hk'.
    destruct (Hsub t' Ht' Hk') as [->|[Hin' _]]; [cbn; apply K2; assumption|].
    apply K2; assumption.
Qed.

Lemma reachable_clockKept a : appReachable a -> clockKept a.
Proof.
  induction 1 as [t0 v l sp vs H|e a HR IH].
  - split; [intros _; split; [reflexivity|intros t []]|intros t []].
  - apply step_clockKept; assumption.
Qed.

(** X14. Between two calls the clock of the call is at rest: the counter
    is back at 0 (the next call starts at 00:00) and the one-second
    interval is cleared, so that no tick of an earlier call is left
    running. *)
Theorem call_clock_rests a :
  appReachable a -> isCallActive (st (core a)) = false ->
  callTimer (cells a) = 0
  /\ formatTime (callTimer (cells a)) = "00:00"
  /\ forall t, In t (xtimers (device a)) -> isCallTick t = false.
Proof.
  intros HR Hoff. destruct (reachable_clockKept a HR) as [K1 _].
  destruct (K1 Hoff) as [Hc Hnone]. rewrite Hc. auto.
Qed.

Lemma step_clockRuns T e a :
  appReachable a -> clockRuns T a -> isHangUp e = false -> clockRuns T (appStep e a).
Proof.
  intros HR (Hon & Hpos & Hle & Hdue) Hh.
  pose proof (reachable_Inv _ (appReachable_core a HR)) as HI.
  destruct (reachable_clockKept a HR) as [_ K2].
  destruct (isAccept e) eqn:Ha; [apply isAccept_eq in Ha; subst e|].
  { rewrite accept_refused; [repeat split; assumption|].
    unfold fakeCallShown. rewrite Hon. reflexivity. }
  pose proof (appStep_now e a HR) as Hnow.
  destruct (appHandler_clock e a HI Ha Hh) as (Hf & Href & Hcases).
  destruct (appStep_idle e a Hf) as (Ec & Er & Ed).
  unfold clockRuns. rewrite appStep_callActive, Hf, Ec, Ed.
  destruct Hcases as [[Hc Hsub]|(t & Hin & Hk & Ht & Hc & Hsub)]; rewrite Hc.
  - split; [exact Hon|]. split; [exact Hpos|]. split; [lia|].
    intros t Ht Hk. apply Hdue; auto.
  - pose proof (Hdue t Hin Hk) as Et.
    split; [exact Hon|]. split; [lia|]. split; [lia|].
    intros t' Ht' Hk'.
    destruct (Hsub t' Ht' Hk') as [->|[Hin' Hne]].
    { cbn [xdue]. lia. }
    exfalso. apply Hne.
    pose proof (K2 t Hin Hk) as R1. pose proof (K2 t' Hin' Hk') as R2.
    congruence.
Qed.

Lemma run_clockRuns T es : forall a,
  appReachable a -> clockRuns T a ->
  forallb (fun e => negb (isHangUp e)) es = true ->
  clockRuns T (appRun es a).
Proof.
  induction es as [|e es IH]; intros a HR HC Hes; [exact HC|].
  cbn in Hes. apply andb_true_iff in Hes. destruct Hes as [He Hes].
  apply negb_true_iff in He. cbn [appRun].
  apply IH; [apply app_step, HR| |exact Hes].
  apply step_clockRuns; assumption.
Qed.

(** X15. Answering a call starts its clock at 00:00 with a one-second tick
    armed, and for as long as the call is not hung up the seconds shown
    never run ahead of the time that has passed since the answer,
    whatever else happens. *)
Theorem call_clock_never_ahead a es :
  appReachable a -> fakeCallShown (st (core a)) = true ->
  forallb (fun e => negb (isHangUp e)) es = true ->
  let a1 := appStep (Core EvAcceptCall) a in
  let a2 := appRun es a1 in
  (callTimer (cells a1) = 0
   /\ exists id, timerIntervalRef (xrefs a1) = Some id
        /\ findXTimer id (xtimers (device a1))
           = Some (mkXTimer id (now (plat (core a1)) + 1000) CallTick))
  /\ isCallActive (st (core a2)) = true
  /\ 0 <= callTimer (cells a2)
  /\ callTimer (cells a2) * 1000 <= now (plat (core a2)) - now (plat (core a1)).
Proof.
  intros HR Hs Hes a1 a2.
  destruct (fakeCallShown_flags _ Hs) as [Hoff _].
  destruct (reachable_clockKept a HR) as [K1 _].
  destruct (K1 Hoff) as [Hc Hnone].
  assert (Hon : isCallActive (st (core (appHandler (Core EvAcceptCall) a))) = true).
  { cbn [appHandler]. rewrite Hs.
    destruct (handleAcceptCall_frame a) as [-> _]. reflexivity. }
  destruct (appCommit_started (st (core a)) _ Hoff Hon) as (Hct & Href & Htm).
  fold (appStep (Core EvAcceptCall) a) in Hct, Href, Htm. fold a1 in Hct, Href, Htm.
  assert (Hnow : now (plat (core a1))
                 = now (plat (core (appHandler (Core EvAcceptCall) a)))).
  { subst a1. unfold appStep. rewrite core_appCommit.
    apply (f_now (commit_Frame _ _)). }
  assert (Hc1 : callTimer (cells a1) = 0).
  { rewrite Hct. cbn [appHandler]. rewrite Hs.
    destruct (handleAcceptCall_frame a) as [_ ->]. exact Hc. }
  assert (HC : clockRuns (now (plat (core a1))) a1).
  { repeat split.
    - subst a1. rewrite appStep_callActive. exact Hon.
    - rewrite Hc1. lia.
    - rewrite Hc1. lia.
    - intros t Ht Hk. rewrite Hc1. rewrite Htm in Ht.
      destruct Ht as [<-|Ht]; [cbn [xdue]; rewrite Hnow; lia|].
      exfalso. cbn [appHandler] in Ht. rewrite Hs in Ht.
      destruct (handleAcceptCall_clock a) as [Et Er]. rewrite Et, Er in Ht.
      assert (In t (xtimers (device a))).
      { destruct (timerIntervalRef (xrefs a)); [apply dropXTimer_In in Ht; tauto|exact Ht]. }
      rewrite (Hnone t) in Hk by assumption. discriminate. }
  split.
  - split; [exact Hc1|]. eexists. split; [exact Href|].
    rewrite Htm. unfold findXTimer. cbn. rewrite Nat.eqb_refl, Hnow. reflexivity.
  - destruct (run_clockRuns _ es a1 (app_step _ HR) HC Hes) as (R1 & R2 & R3 & _).
    fold a2 in R1, R2, R3. repeat split; auto. lia.
Qed.

Lemma call_clock_rests_witness :
  callTimer
    (cells (appRun [Core EvAcceptCall; Core (EvElapse 1000); XTimerDue 2; Core EvHangUp]
              incomingCall)) = 0.
Proof.
  apply (call_clock_rests
           (appRun [Core EvAcceptCall; Core (EvElapse 1000); XTimerDue 2; Core EvHangUp]
              incomingCall)).
  - apply appReachable_run, incomingCall_reachable.
  - vm_compute. reflexivity.
Defined.

Lemma call_clock_never_ahead_witness :
  callTimer (cells (appStep (Core EvAcceptCall) incomingCall)) = 0
  /\ callTimer
       (cells (appRun [Core (EvElapse 2500); XTimerDue 2; XTimerDue 2; XTimerDue 2]
                 (appStep (Core EvAcceptCall) incomingCall))) * 1000
     <= now (plat (core (appRun [Core (EvElapse 2500); XTimerDue 2; XTimerDue 2; XTimerDue 2]
                           (appStep (Core EvAcceptCall) incomingCall))))
        - now (plat (core (appStep (Core EvAcceptCall) incomingCall))).
Proof.
  assert (Hs : fakeCallShown (st (core incomingCall)) = true) by (vm_compute; reflexivity).
  pose proof (call_clock_never_ahead incomingCall
                [Core (EvElapse 2500); XTimerDue 2; XTimerDue 2; XTimerDue 2]
                incomingCall_reachable Hs eq_refl) as H.
  cbv zeta in H. destruct H as ((A & _) & _ & _ & B).
  split; [exact A|exact B].
Defined.

(** ** The voice of the caller *)

Lemma orElse_Some {A} (a b : option A) x :
  orElse a b = Some x -> a = Some x \/ (a = None /\ b = Some x).
Proof. destruct a; cbn; auto. Qed.

Lemma hd_error_In {A} (l : list A) x : hd_error l = Some x -> In x l.
Proof. destruct l; cbn; [discriminate|]. intros [= ->]. now left. Qed.

(** X16. The voice picked for a caller (lines 465-470) is an English
    voice of the engine; none is picked only when the engine has no
    English voice.  When some voice passes the gender test the pick
    passes it, and when one of those carries ["Google"] in its name the
    pick does too. *)
Theorem voice_choice g vs :
  (forall v, selectVoice g vs = Some v -> In v vs /\ english v = true)
  /\ (selectVoice g vs = None <-> forall v, In v vs -> english v = false)
  /\ (forall v', In v' vs -> voiceFilter g v' = true ->
      exists v, selectVoice g vs = Some v /\ voiceFilter g v = true
        /\ (In v' vs -> includes "Google" (vname v') = true ->
            includes "Google" (vname v) = true)).
Proof.
  assert (Hfilter : forall v, In v (filter (voiceFilter g) vs) ->
            In v vs /\ voiceFilter g v = true /\ english v = true).
  { intros v Hv. apply filter_In in Hv. destruct Hv as [Hin Hf].
    repeat split; auto. unfold voiceFilter in Hf.
    apply andb_true_iff in Hf. tauto. }
  unfold selectVoice.
  set (pv := filter (voiceFilter g) vs) in *.
  split; [|split].
  - intros v Hsel.
    destruct (orElse (find _ pv) (hd_error pv)) as [x|] eqn:Ho.
    + injection Hsel as ->.
      apply orElse_Some in Ho. destruct Ho as [Ho|[_ Ho]].
      * apply find_some in Ho. destruct Ho as [Ho _].
        destruct (Hfilter v Ho) as (? & _ & ?). auto.
      * apply hd_error_In in Ho. destruct (Hfilter v Ho) as (? & _ & ?). auto.
    + apply find_some in Hsel. exact Hsel.
  - split.
    + intros Hsel v Hin.
      destruct (orElse (find _ pv) (hd_error pv)) as [x|] eqn:Ho; [discriminate|].
      pose proof (find_none _ _ Hsel v Hin) as H. exact H.
    + intros Hnone.
      destruct (orElse (find _ pv) (hd_error pv)) as [x|] eqn:Ho.
      * exfalso. apply orElse_Some in Ho.
        assert (Hx : In x pv).
        { destruct Ho as [Ho|[_ Ho]];
            [apply find_some in Ho; tauto|apply hd_error_In in Ho; exact Ho]. }
        destruct (Hfilter x Hx) as (Hin & _ & He).
        rewrite (Hnone x Hin) in He. discriminate.
      * destruct (find english vs) as [x|] eqn:Hf; [|reflexivity].
        apply find_some in Hf. destruct Hf as [Hin He].
        rewrite (Hnone x Hin) in He. discriminate.
  - intros v' Hin' Hf'.
    assert (Hpv : In v' pv) by (apply filter_In; auto).
    destruct (find (fun v => includes "Google" (vname v)) pv) as [x|] eqn:Hfind.
    + exists x. cbn. apply find_some in Hfind. destruct Hfind as [Hx Hg].
      destruct (Hfilter x Hx) as (_ & ? & _). auto.
    + destruct pv as [|x pv'] eqn:Epv; [destruct Hpv|].
      exists x. cbn.
      assert (Hx : In x (filter (voiceFilter g) vs)) by (fold pv; rewrite Epv; now left).
      apply filter_In in Hx. destruct Hx as [_ Hx]. repeat split; auto.
      intros _ Hg. pose proof (find_none _ _ Hfind v' Hpv) as Hn.
      cbn in Hn. congruence.
Qed.

Lemma voice_choice_witness :
  exists v, selectVoice Female [voiceDE; voiceDavid; voiceUK] = Some v
    /\ voiceFilter Female v = true /\ includes "Google" (vname v) = true.
Proof.
  destruct (voice_choice Female [voiceDE; voiceDavid; voiceUK]) as (_ & _ & H).
  destruct (H voiceUK) as (v & H1 & H2 & H3);
    [right; right; left; reflexivity|vm_compute; reflexivity|].
  exists v. split; [exact H1|]. split; [exact H2|].
  apply H3; [right; right; left; reflexivity|vm_compute; reflexivity].
Defined.

Lemma prefix_includes pat s : String.prefix pat s = true -> includes pat s = true.
Proof. intros H. destruct s; cbn in *; rewrite H; reflexivity. Qed.

Lemma includes_tail pat c s : includes pat s = true -> includes pat (String c s) = true.
Proof. intros H. cbn [includes]. rewrite H. apply orb_true_r. Qed.

(** Whatever contains ["female"] contains ["male"]. *)
Lemma includes_female_male s : includes "female" s = true -> includes "male" s = true.
Proof.
  induction s as [|c s IH]; [cbn; discriminate|].
  intros H. cbn [includes] in H. apply orb_true_iff in H. destruct H as [H|H].
  - cbn [String.prefix] in H.
    destruct (Ascii.ascii_dec "f" c); [|discriminate].
    destruct s as [|c1 s]; cbn [String.prefix] in H; [discriminate|].
    destruct (Ascii.ascii_dec "e" c1); [|discriminate].
    apply includes_tail, includes_tail, prefix_includes. exact H.
  - apply includes_tail, IH, H.
Qed.

(** X17. The gender test goes by the name of the voice (line 462), and a
    name that says ["female"] also says ["male"]: every English voice
    that passes for a female caller by its name passes for a male
    caller, and is the one picked for him when the engine has no other. *)
Theorem female_voices_pass_for_male v :
  english v = true -> includes "female" (toLowerCase (vname v)) = true ->
  voiceFilter Female v = true
  /\ voiceFilter Male v = true
  /\ selectVoice Male [v] = Some v.
Proof.
  intros He Hn.
  assert (Hm : voiceFilter Male v = true).
  { unfold voiceFilter. rewrite He. cbn [andb targetGender].
    rewrite (includes_female_male _ Hn). apply orb_true_r. }
  split; [|split; [exact Hm|]].
  - unfold voiceFilter. rewrite He. cbn [andb targetGender].
    rewrite Hn. apply orb_true_r.
  - unfold selectVoice. cbn [filter]. rewrite Hm. cbn.
    destruct (includes "Google" (vname v)); reflexivity.
Qed.

Lemma female_voices_pass_for_male_witness :
  voiceFilter Male voiceUK = true /\ selectVoice Male [voiceUK] = Some voiceUK.
Proof.
  destruct (female_voices_pass_for_male voiceUK) as (_ & A & B);
    [reflexivity|reflexivity|].
  split; [exact A|exact B].
Defined.

(** ** The sources under an answer *)

Lemma sourceLink_hasUri c :
  hasUri c = false -> sourceLink c = None.
Proof.
  unfold hasUri, sourceLink. destruct (web c) as [w|]; [|reflexivity].
  intros ->. reflexivity.
Qed.

Lemma sourceLink_truthy c :
  hasUri c = true -> exists s, sourceLink c = Some (String "<" s).
Proof.
  unfold hasUri, sourceLink. destruct (web c) as [w|]; [|discriminate].
  intros ->. eexists. reflexivity.
Qed.

Lemma joinTruthy_none cs :
  existsb hasUri cs = false -> joinTruthy (map sourceLink cs) = "".
Proof.
  induction cs as [|c cs IH]; [reflexivity|].
  cbn. intros H. apply orb_false_iff in H. destruct H as [Hc Hcs].
  rewrite (sourceLink_hasUri c Hc), (IH Hcs). reflexivity.
Qed.

Lemma joinTruthy_some cs :
  existsb hasUri cs = true -> nonEmpty (joinTruthy (map sourceLink cs)) = true.
Proof.
  induction cs as [|c cs IH]; [discriminate|].
  cbn. destruct (hasUri c) eqn:Hc.
  - destruct (sourceLink_truthy c Hc) as [s ->]. reflexivity.
  - rewrite (sourceLink_hasUri c Hc). cbn. exact IH.
Qed.

Lemma joinTruthy_filter cs :
  joinTruthy (map sourceLink cs) = joinTruthy (map sourceLink (filter hasUri cs)).
Proof.
  induction cs as [|c cs IH]; [reflexivity|].
  cbn. destruct (hasUri c) eqn:Hc; cbn; rewrite IH; [reflexivity|].
  rewrite (sourceLink_hasUri c Hc). reflexivity.
Qed.

(** X18. The answer of a help lookup is shown with a ["Sources:"] part
    exactly when one of its grounding chunks names a page; the part lists
    one link for each such chunk, in order, and chunks without a page add
    nothing.  Without such a chunk the text is passed on as it came, also
    when there is none. *)
Theorem help_sources r :
  (existsb hasUri (chunksOf r) = false -> finalResponse r = rtext r)
  /\ (existsb hasUri (chunksOf r) = true ->
      finalResponse r
      = Some (textOf (rtext r) ++ sourcesHeader
                ++ joinTruthy (map sourceLink (filter hasUri (chunksOf r)))))
  /\ (forall c, hasUri c = true -> truthyText (sourceLink c) = true).
Proof.
  unfold finalResponse, chunksOf.
  split; [|split].
  - destruct (groundingChunks r) as [[|c cs]|]; try reflexivity.
    intros H. rewrite (joinTruthy_none _ H). reflexivity.
  - destruct (groundingChunks r) as [[|c cs]|]; try discriminate.
    intros H. rewrite (joinTruthy_some _ H).
    rewrite <- joinTruthy_filter. reflexivity.
  - intros c Hc. destruct (sourceLink_truthy c Hc) as [s ->]. reflexivity.
Qed.

Lemma help_sources_witness :
  finalResponse helpTwoChunks
  = Some (textOf (rtext helpTwoChunks) ++ sourcesHeader
            ++ joinTruthy (map sourceLink (filter hasUri (chunksOf helpTwoChunks)))).
Proof.
  destruct (help_sources helpTwoChunks) as (_ & H & _).
  apply H. vm_compute. reflexivity.
Defined.

(** ** The requests of this part *)

Lemma dropXPending_In i x id l : In (i, x) (dropXPending id l) -> In (i, x) l /\ i <> id.
Proof.
  unfold dropXPending. rewrite filter_In. cbn.
  rewrite negb_true_iff, Nat.eqb_neq. tauto.
Qed.

Lemma dropXPending_NoDup id l :
  NoDup (map fst l) -> NoDup (map fst (dropXPending id l)).
Proof.
  unfold dropXPending. induction l as [|[i x] l IH]; cbn; [auto|].
  intros H. inversion H as [|? ? Hn Hd]; subst.
  destruct (negb (i =? id)%nat); cbn; [|auto].
  constructor; [|auto].
  intros Hin. apply Hn. apply in_map_iff in Hin. destruct Hin as ([j y] & Hj & Hin).
  cbn in Hj. subst j. apply filter_In in Hin. destruct Hin as [Hin _].
  apply in_map_iff. exists (i, y). auto.
Qed.

Lemma findXPending_In id l x : findXPending id l = Some x -> In (id, x) l.
Proof.
  induction l as [|[i y] l IH]; cbn; [discriminate|].
  destruct (Nat.eqb_spec i id) as [->|_]; [intros [= ->]; now left|auto].
Qed.

(** Settling a request takes it, and it alone, off the list. *)
Lemma dropXPending_count (P : nat * XAsync -> bool) id x l :
  NoDup (map fst l) -> findXPending id l = Some x ->
  List.length (filter P l)
  = (List.length (filter P (dropXPending id l)) + Nat.b2n (P (id, x)))%nat.
Proof.
  intros Hnd Hf. induction l as [|[i y] l IH]; [discriminate|].
  cbn in Hf, Hnd |- *. inversion Hnd as [|? ? Hn Hd]; subst.
  destruct (Nat.eqb_spec i id) as [->|Hne].
  - injection Hf as ->. cbn.
    assert (Hd' : dropXPending id l = l).
    { unfold dropXPending. apply forallb_filter_id. apply forallb_forall.
      intros [j z] Hin. cbn. apply negb_true_iff, Nat.eqb_neq. intros ->.
      apply Hn. apply in_map_iff. exists (id, z). auto. }
    unfold dropXPending in Hd'. rewrite Hd'.
    destruct (P (id, x)); cbn; lia.
  - cbn. specialize (IH Hd Hf).
    destruct (P (i, y)); cbn; unfold dropXPending in IH; lia.
Qed.

Lemma speakInSequence_chat ls v a :
  cells (speakInSequence ls v a) = cells a
  /\ xpending (device (speakInSequence ls v a)) = xpending (device a)
  /\ (xnext (device a) <= xnext (device (speakInSequence ls v a)))%nat.
Proof.
  unfold speakInSequence.
  destruct (negb (isSpeakingRef (xrefs a)) || (List.length ls =? 0)%nat);
    [auto|destruct ls; cbn; auto].
Qed.

Lemma appHandler_ChatMove e a : ChatMove a (appHandler e a).
Proof.
  assert (Hnone : ChatMove a a) by (apply move_none; auto).
  destruct e as [e|c| | |id r|value| |id r|vs|id|id|id];
    [|cbn [appHandler]..].
  - destruct (plainCore e) eqn:Hp.
    + rewrite appHandler_plain by assumption. apply move_none; auto.
    + destruct e; try discriminate; [destruct v; try discriminate| | |];
        cbn [appHandler].
      * destruct (negb (overlay (st (core a)))); [|exact Hnone].
        apply move_none; auto.
      * exact Hnone.
      * destruct (fakeCallShown (st (core a))); [|exact Hnone].
        unfold handleAcceptCall.
        destruct (lookupScript _ _) as [[g sc]|]; [|apply move_none; auto].
        cbn. destruct (canSpeak (device a)); [|apply move_none; auto].
        cbn. destruct (voices (device a)); [apply move_none; auto|].
        unfold afterVoices.
        match goal with
        | |- context [speakInSequence ?l ?v ?x] =>
            destruct (speakInSequence_chat l v x) as (E1 & E2 & E3)
        end.
        apply move_none; rewrite ?E1, ?E2; auto.
      * destruct (activeCallShown (st (core a))); [|exact Hnone].
        unfold handleHangUp. cbn. destruct (canSpeak (device a)); apply move_none; auto.
  - destruct (contactSelectorShown (st (core a))); [|exact Hnone].
    apply move_none; auto.
  - destruct (toolsShown (st (core a)) && isLocationReady (st (core a))); [|exact Hnone].
    destruct (location (st (core a))) as [l|]; [|exact Hnone].
    apply (@move_ask _ _ (NearbyHelp l)); cbn; auto.
  - destruct (toolsShown (st (core a))); [|exact Hnone].
    apply (@move_ask _ _ SelfDefense); cbn; auto.
  - destruct (findXPending id (xpending (device a))) as [[p|m]|] eqn:Hf; try exact Hnone.
    apply (@move_helped _ _ id p); auto; destruct r; reflexivity.
  - destruct (chatShown (st (core a)) && negb (isLoading (cells a))); [|exact Hnone].
    apply move_none; auto.
  - destruct (chatShown (st (core a))); [|exact Hnone].
    unfold handleChatSubmit.
    destruct (isBlank (chatInput (cells a))) eqn:Hb; [exact Hnone|].
    destruct (isLoading (cells a)) eqn:Hl; [exact Hnone|].
    destruct (chatRef (xrefs a)); [|exact Hnone].
    cbn. apply move_say; auto.
  - destruct (findXPending id (xpending (device a))) as [[p|m]|] eqn:Hf; try exact Hnone.
    destruct r as [t|].
    + apply (@move_answered _ _ id m t); auto.
    + apply (@move_answered _ _ id m (Some msgChatFailed)); auto.
  - destruct (onvoiceschanged (device a)) as [[g sc]|]; [|apply move_none; auto].
    unfold afterVoices.
    match goal with
    | |- context [speakInSequence ?l ?v ?x] =>
        destruct (speakInSequence_chat l v x) as (E1 & E2 & E3)
    end.
    apply move_none; rewrite ?E1, ?E2; auto.
  - unfold takeUtterance. destruct (orElse _ _); [|exact Hnone].
    apply move_none; cbn; auto.
  - unfold takeUtterance. destruct (orElse _ _); [|exact Hnone].
    apply move_none; auto.
  - unfold fireXTimer.
    destruct (findXTimer id (xtimers (device a))) as [t|]; [|exact Hnone].
    destruct (xdue t <=? now (plat (core a))); [|exact Hnone].
    destruct (xkind t) as [|ls v]; [apply move_none; auto|].
    match goal with
    | |- context [speakInSequence ?l ?v ?x] =>
        destruct (speakInSequence_chat l v x) as (E1 & E2 & E3)
    end.
    apply move_none; rewrite ?E1, ?E2; auto.
Qed.

Lemma appStep_ChatMove e a : ChatMove a (appStep e a).
Proof.
  pose proof (appHandler_ChatMove e a) as H. unfold appStep.
  destruct (appCommit_XFrame (st (core a)) (appHandler e a))
    as [_ _ F1 F2 F3 _ _ _ _ _ _ _ _ F4 F5].
  destruct H as [H1 H2 H3 H4|p H1 H2 H3 H4|B L H1 H0 H2 H3 H4|id p Hf H1 H2 H3 H4
                |id m t Hf H1 H2 H3 H4].
  - apply move_none; try congruence. lia.
  - apply (@move_ask _ _ p); try congruence. lia.
  - apply move_say; try congruence. lia.
  - apply (@move_helped _ _ id p); try congruence. lia.
  - apply (@move_answered _ _ id m t); try congruence. lia.
Qed.

Lemma step_xpendingFresh e a : xpendingFresh a -> xpendingFresh (appStep e a).
Proof.
  intros [Hnd Hlt]. unfold xpendingFresh.
  destruct (appStep_ChatMove e a)
    as [H1 H2 H3 H4|p H1 H2 H3 H4|B L H1 H0 H2 H3 H4|id p Hf H1 H2 H3 H4
       |id m t Hf H1 H2 H3 H4]; rewrite H3.
  - split; [assumption|]. intros i x Hin. apply Hlt in Hin. lia.
  - split.
    + cbn. constructor; [|assumption].
      intros Hin. apply in_map_iff in Hin. destruct Hin as ([j y] & Hj & Hin).
      cbn in Hj. subst j. apply Hlt in Hin. lia.
    + intros i x [[= <- <-]|Hin]; [lia|]. apply Hlt in Hin. lia.
  - split.
    + cbn. constructor; [|assumption].
      intros Hin. apply in_map_iff in Hin. destruct Hin as ([j y] & Hj & Hin).
      cbn in Hj. subst j. apply Hlt in Hin. lia.
    + intros i x [[= <- <-]|Hin]; [lia|]. apply Hlt in Hin. lia.
  - split; [apply dropXPending_NoDup; assumption|].
    intros i x Hin. apply dropXPending_In in Hin. destruct Hin as [Hin _].
    apply Hlt in Hin. lia.
  - split; [apply dropXPending_NoDup; assumption|].
    intros i x Hin. apply dropXPending_In in Hin. destruct Hin as [Hin _].
    apply Hlt in Hin. lia.
Qed.

Lemma reachable_xpendingFresh a : appReachable a -> xpendingFresh a.
Proof.
  induction 1 as [t0 v l sp vs H|e a HR IH].
  - split; [constructor|intros i x []].
  - apply step_xpendingFresh, IH.
Qed.

(** X19. The loading indicator is only ever on while a request of the
    help lookups or of the chat is under way. *)
Theorem spinner_has_request a :
  appReachable a -> isLoading (cells a) = true -> xpending (device a) <> [].
Proof.
  induction 1 as [t0 v l sp vs H|e a HR IH]; [discriminate|].
  destruct (appStep_ChatMove e a)
    as [H1 H2 H3 H4|p H1 H2 H3 H4|B L H1 H0 H2 H3 H4|id p Hf H1 H2 H3 H4
       |id m t Hf H1 H2 H3 H4]; rewrite H1, H3; try discriminate.
  exact IH.
Qed.

Lemma filter_snoc {A} (P : A -> bool) l x :
  filter P (l ++ [x]) = (filter P l ++ if P x then [x] else [])%list.
Proof. rewrite filter_app. cbn. destruct (P x); reflexivity. Qed.

Lemma step_chatBalanced e a :
  xpendingFresh a -> chatBalanced a -> chatBalanced (appStep e a).
Proof.
  intros [Hnd _] HB. unfold chatBalanced in *.
  destruct (appStep_ChatMove e a)
    as [H1 H2 H3 H4|p H1 H2 H3 H4|B L H1 H0 H2 H3 H4|id p Hf H1 H2 H3 H4
       |id m t Hf H1 H2 H3 H4]; rewrite H2, H3.
  - exact HB.
  - cbn. exact HB.
  - rewrite !filter_snoc, !length_app. cbn. lia.
  - pose proof (dropXPending_count isChatRequest id _ _ Hnd Hf) as Hc.
    cbn in Hc. lia.
  - pose proof (dropXPending_count isChatRequest id _ _ Hnd Hf) as Hc.
    rewrite !filter_snoc, !length_app. cbn in *. lia.
Qed.

(** X20. Every question put to the chat is matched by one answer in the
    history, the reply or the apology, or by its request still under
    way: the questions in the history are as many as the answers and the
    pending chat requests together. *)
Theorem chat_balanced a : appReachable a -> chatBalanced a.
Proof.
  induction 1 as [t0 v l sp vs H|e a HR IH]; [reflexivity|].
  apply step_chatBalanced; [apply reachable_xpendingFresh|]; assumption.
Qed.

(** X21. The history of the chat only grows: whatever happens, it keeps
    what it held and adds messages at its end, at most one with each
    callback. *)
Theorem chat_history_grows es a :
  exists l, chatHistory (cells (appRun es a)) = (chatHistory (cells a) ++ l)%list
    /\ (List.length l <= List.length es)%nat.
Proof.
  revert a. induction es as [|e es IH]; intros a.
  - exists []. cbn. rewrite app_nil_r. auto.
  - cbn [appRun]. destruct (IH (appStep e a)) as (l & -> & Hl).
    destruct (appStep_ChatMove e a)
      as [H1 H2 H3 H4|p H1 H2 H3 H4|B L H1 H0 H2 H3 H4|id p Hf H1 H2 H3 H4
         |id m t Hf H1 H2 H3 H4]; rewrite H2.
    + exists l. split; [reflexivity|cbn; lia].
    + exists l. split; [reflexivity|cbn; lia].
    + eexists. rewrite <- app_assoc. split; [reflexivity|cbn; lia].
    + exists l. split; [reflexivity|cbn; lia].
    + eexists. rewrite <- app_assoc. split; [reflexivity|cbn; lia].
Qed.

Lemma speakInSequence_chatRef ls v a :
  chatRef (xrefs (speakInSequence ls v a)) = chatRef (xrefs a).
Proof.
  unfold speakInSequence.
  destruct (negb (isSpeakingRef (xrefs a)) || (List.length ls =? 0)%nat);
    [auto|destruct ls; cbn; auto].
Qed.

Lemma appHandler_chatRef e a : chatRef (xrefs (appHandler e a)) = chatRef (xrefs a).
Proof.
  destruct e as [e|c| | |id r|value| |id r|vs|id|id|id];
    [|cbn [appHandler]..].
  - destruct (plainCore e) eqn:Hp.
    + rewrite appHandler_plain by assumption. reflexivity.
    + destruct e; try discriminate; [destruct v; try discriminate| | |];
        cbn [appHandler].
      * destruct (negb (overlay (st (core a)))); reflexivity.
      * reflexivity.
      * destruct (fakeCallShown (st (core a))); [|reflexivity].
        unfold handleAcceptCall.
        destruct (lookupScript _ _) as [[g sc]|]; [|reflexivity].
        cbn. destruct (canSpeak (device a)); [|reflexivity].
        cbn. destruct (voices (device a)); [reflexivity|].
        unfold afterVoices. rewrite speakInSequence_chatRef. reflexivity.
      * destruct (activeCallShown (st (core a))); [|reflexivity].
        unfold handleHangUp. cbn. destruct (canSpeak (device a)); reflexivity.
  - destruct (contactSelectorShown (st (core a))); reflexivity.
  - destruct (toolsShown (st (core a)) && isLocationReady (st (core a))); [|reflexivity].
    destruct (location (st (core a))); reflexivity.
  - destruct (toolsShown (st (core a))); reflexivity.
  - destruct (findXPending id (xpending (device a))) as [[p|m]|]; try reflexivity.
    destruct r; reflexivity.
  - destruct (chatShown (st (core a)) && negb (isLoading (cells a))); reflexivity.
  - destruct (chatShown (st (core a))); [|reflexivity].
    unfold handleChatSubmit.
    destruct (isBlank _ || isLoading _ || negb _); reflexivity.
  - destruct (findXPending id (xpending (device a))) as [[p|m]|]; reflexivity.
  - destruct (onvoiceschanged (device a)) as [[g sc]|]; [|reflexivity].
    unfold afterVoices. rewrite speakInSequence_chatRef. reflexivity.
  - unfold takeUtterance. destruct (orElse _ _); reflexivity.
  - unfold takeUtterance. destruct (orElse _ _); reflexivity.
  - unfold fireXTimer.
    destruct (findXTimer id (xtimers (device a))) as [t|]; [|reflexivity].
    destruct (xdue t <=? now (plat (core a))); [|reflexivity].
    destruct (xkind t) as [|ls v]; [reflexivity|].
    rewrite speakInSequence_chatRef. reflexivity.
Qed.

Lemma reachable_chatRef a : appReachable a -> chatRef (xrefs a) = true.
Proof.
  induction 1 as [t0 v l sp vs H|e a HR IH]; [reflexivity|].
  unfold appStep.
  rewrite (xf_chat (appCommit_XFrame (st (core a)) (appHandler e a))).
  rewrite appHandler_chatRef. exact IH.
Qed.

(** X22. Sending from the chat form: an input that is empty or only white
    space, or a send while a request is under way, changes nothing.
    Otherwise the question enters the history with the text exactly as
    typed, the input is emptied, the loading flag goes up and the request
    carries that same text. *)
Theorem chat_submit a :
  appReachable a -> chatShown (st (core a)) = true ->
  let a' := appStep ChatSubmit a in
  (isBlank (chatInput (cells a)) = true \/ isLoading (cells a) = true -> a' = a)
  /\ (isBlank (chatInput (cells a)) = false -> isLoading (cells a) = false ->
      chatHistory (cells a')
      = (chatHistory (cells a) ++ [mkMsg User (Some (chatInput (cells a)))])%list
      /\ chatInput (cells a') = ""
      /\ isLoading (cells a') = true
      /\ xpending (device a')
         = (xnext (device a), ChatRequest (chatInput (cells a))) :: xpending (device a)).
Proof.
  intros HR Hs a'. subst a'.
  pose proof (reachable_chatRef a HR) as Hc.
  unfold appStep. cbn [appHandler]. rewrite Hs. unfold handleChatSubmit. rewrite Hc.
  split.
  - intros H.
    assert (E : isBlank (chatInput (cells a)) || isLoading (cells a) || negb true = true).
    { destruct H as [-> | ->]; [reflexivity|].
      rewrite orb_true_r. reflexivity. }
    rewrite E. apply appCommit_core_same. reflexivity.
  - intros Hb Hl. rewrite Hb, Hl. cbn [orb negb].
    rewrite appCommit_core_same by reflexivity.
    repeat split.
Qed.

Lemma chatOpen_reachable : appReachable chatOpen.
Proof. unfold chatOpen. apply appReachable_run, appStarted_reachable. Qed.

Lemma spinner_has_request_witness :
  xpending (device (appStep ChatSubmit chatOpen)) <> [].
Proof.
  apply (spinner_has_request (appStep ChatSubmit chatOpen)).
  - apply app_step, chatOpen_reachable.
  - vm_compute. reflexivity.
Defined.

Lemma chat_balanced_witness :
  chatBalanced (appRun [ChatSubmit; ChatAnswer 1 None] chatOpen).
Proof.
  apply (chat_balanced (appRun [ChatSubmit; ChatAnswer 1 None] chatOpen)).
  apply appReachable_run, chatOpen_reachable.
Defined.

Lemma chat_submit_witness :
  chatHistory (cells (appStep ChatSubmit chatOpen))
  = [mkMsg User (Some "Is it safe to walk home?")]
  /\ chatInput (cells (appStep ChatSubmit chatOpen)) = "".
Proof.
  assert (Hs : chatShown (st (core chatOpen)) = true) by (vm_compute; reflexivity).
  destruct (chat_submit chatOpen chatOpen_reachable Hs) as [_ H].
  destruct H as (A & B & _); [vm_compute; reflexivity|vm_compute; reflexivity|].
  vm_compute in A, B |- *. split; [exact A|exact B].
Defined.

(** ** Silence after the call *)

Lemma speakInSequence_off ls v a :
  isSpeakingRef (xrefs a) = false ->
  speakInSequence ls v a = onXRefs (set_isSpeakingRef false) a.
Proof. intros H. unfold speakInSequence. rewrite H. reflexivity. Qed.

Lemma appHandler_silent e a :
  isSpeakingRef (xrefs a) = false -> onvoiceschanged (device a) = None ->
  isAccept e = false ->
  said (device (appHandler e a)) = said (device a)
  /\ isSpeakingRef (xrefs (appHandler e a)) = false
  /\ onvoiceschanged (device (appHandler e a)) = None.
Proof.
  intros Hoff Hw Ha.
  destruct e as [e|c| | |id r|value| |id r|vs|id|id|id];
    [|cbn [appHandler]..].
  - destruct (plainCore e) eqn:Hp.
    + rewrite appHandler_plain by assumption. auto.
    + destruct e; try discriminate; [destruct v; try discriminate| |];
        cbn [appHandler].
      * destruct (negb (overlay (st (core a)))); auto.
      * auto.
      * destruct (activeCallShown (st (core a))); [|auto].
        unfold handleHangUp. cbn. destruct (canSpeak (device a)); cbn; auto.
  - destruct (contactSelectorShown (st (core a))); auto.
  - destruct (toolsShown (st (core a)) && isLocationReady (st (core a))); [|auto].
    destruct (location (st (core a))); cbn; auto.
  - destruct (toolsShown (st (core a))); cbn; auto.
  - destruct (findXPending id (xpending (device a))) as [[p|m]|]; auto.
    destruct r; cbn; auto.
  - destruct (chatShown (st (core a)) && negb (isLoading (cells a))); auto.
  - destruct (chatShown (st (core a))); [|auto].
    unfold handleChatSubmit.
    destruct (isBlank _ || isLoading _ || negb _); cbn; auto.
  - destruct (findXPending id (xpending (device a))) as [[p|m]|]; cbn; auto.
  - rewrite Hw. cbn. auto.
  - unfold takeUtterance. destruct (orElse _ _); cbn; auto.
  - unfold takeUtterance. destruct (orElse _ _); cbn; auto.
  - unfold fireXTimer.
    destruct (findXTimer id (xtimers (device a))) as [t|]; [|auto].
    destruct (xdue t <=? now (plat (core a))); [|auto].
    destruct (xkind t) as [|ls v]; [cbn; auto|].
    rewrite speakInSequence_off by exact Hoff. cbn. auto.
Qed.

Lemma run_silent es : forall a,
  isSpeakingRef (xrefs a) = false -> onvoiceschanged (device a) = None ->
  forallb (fun e => negb (isAccept e)) es = true ->
  said (device (appRun es a)) = said (device a).
Proof.
  induction es as [|e es IH]; intros a Hoff Hw Hes; [reflexivity|].
  cbn in Hes. apply andb_true_iff in Hes. destruct Hes as [He Hes].
  apply negb_true_iff in He.
  destruct (appHandler_silent e a Hoff Hw He) as (H1 & H2 & H3).
  destruct (appCommit_XFrame (st (core a)) (appHandler e a))
    as [_ _ _ _ _ F1 _ _ _ F2 _ _ F3 _ _].
  cbn [appRun]. rewrite IH; unfold appStep; try congruence.
Qed.

(** X23. Hanging up lowers the speaking flag and empties the queue of the
    speech engine; from then on no line is handed to the engine, whatever
    happens (late events of the engine and pause timers included), until
    another call is answered, provided no answered call is still waiting
    for the engine to list its voices. *)
Theorem silence_after_hang_up a es :
  activeCallShown (st (core a)) = true -> canSpeak (device a) = true ->
  onvoiceschanged (device a) = None ->
  forallb (fun e => negb (isAccept e)) es = true ->
  let a1 := appStep (Core EvHangUp) a in
  isSpeakingRef (xrefs a1) = false
  /\ queue (device a1) = []
  /\ said (device (appRun es a1)) = said (device a).
Proof.
  intros Hs Hc Hw Hes a1.
  destruct (appCommit_XFrame (st (core a)) (appHandler (Core EvHangUp) a))
    as [_ _ _ _ _ F1 _ _ _ F2 F4 _ F3 _ _].
  fold (appStep (Core EvHangUp) a) in F1, F2, F3, F4. fold a1 in F1, F2, F3, F4.
  assert (Hh : appHandler (Core EvHangUp) a
               = speechCancel (onXRefs (set_isSpeakingRef false)
                                 (onCore (onState (setIsCallActive false)) a))).
  { cbn [appHandler]. rewrite Hs. unfold handleHangUp. cbn. rewrite Hc. reflexivity. }
  rewrite Hh in F1, F2, F3, F4. cbn in F1, F2, F3, F4.
  repeat split; auto.
  rewrite run_silent; auto. congruence.
Qed.

Lemma silence_after_hang_up_witness :
  said (device (appRun [UtteranceError 1; Core (EvElapse 5000); XTimerDue 2]
                  (appStep (Core EvHangUp) (appStep (Core EvAcceptCall) incomingCall))))
  = said (device (appStep (Core EvAcceptCall) incomingCall)).
Proof.
  assert (H1 : activeCallShown (st (core (appStep (Core EvAcceptCall) incomingCall))) = true)
    by (vm_compute; reflexivity).
  assert (H2 : canSpeak (device (appStep (Core EvAcceptCall) incomingCall)) = true)
    by (vm_compute; reflexivity).
  assert (H3 : onvoiceschanged (device (appStep (Core EvAcceptCall) incomingCall)) = None)
    by (vm_compute; reflexivity).
  exact (proj2 (proj2 (silence_after_hang_up (appStep (Core EvAcceptCall) incomingCall)
                         [UtteranceError 1; Core (EvElapse 5000); XTimerDue 2]
                         H1 H2 H3 eq_refl))).
Defined.

(** ** The script is spoken line by line *)






(** * More on the sessions, the call and the requests *)

(** ** An active session has a position and a watch *)

Lemma handler_activeHasLocation e w :
  Inv w -> activeHasLocation (st w) -> activeHasLocation (st (handler e w)).
Proof.
  intros HI H.
  destruct (quietEvent e) eqn:Hq.
  - clear HI. open_state w.
    unfold activeHasLocation, hasLocation in *. cbn in H.
    destruct e; try discriminate; autounfold with handlers; reduce;
      repeat (split_match; reduce); subst;
      try assumption; try (intros _; reflexivity);
      try (intros [E|E]; try discriminate E; apply H; auto).
  - destruct (timed_st e w HI Hq) as [->|[(_ & ->)|(HS & [->|(txt & ->)])]]; auto.
    + rewrite pressed_st. exact H.
    + unfold activeHasLocation in *. cbn. intros [E|E]; [|discriminate]. auto.
Qed.

Lemma reachable_activeHasLocation w : reachable w -> activeHasLocation (st w).
Proof.
  induction 1 as [t0 v l H|e w HR IH]; [intros [E|E]; discriminate|].
  unfold step.
  destruct (st_commit (st w) (handler e w)) as [->|(_ & _ & ->)];
    apply handler_activeHasLocation; auto using reachable_Inv.
Qed.

(** X25. Whenever the emergency or the sharing session is on, a position
    is known and exactly one position watch is live, the one
    [locationWatchIdRef] holds. *)
Theorem active_session_is_tracked w :
  reachable w ->
  isEmergency (st w) = true \/ isSharingLocation (st w) = true ->
  hasLocation (st w) = true
  /\ exists x, watches (plat w) = [x] /\ locationWatchIdRef (refs w) = Some (wid x).
Proof.
  intros HR Hon.
  pose proof (reachable_activeHasLocation w HR Hon) as Hloc.
  split; [exact Hloc|].
  pose proof (cf_watch (proj1 (reachable_Inv w HR))) as Hw.
  assert (Htr : tracking (st w) = true).
  { unfold tracking. rewrite Hloc, andb_true_r.
    destruct Hon as [-> | ->]; [reflexivity|apply orb_true_r]. }
  destruct (watches (plat w)) as [|x [|y l]]; [|exists x; tauto|contradiction].
  destruct Hw as [_ Hw]. congruence.
Qed.

Lemma active_session_is_tracked_witness :
  hasLocation (st bothActive) = true
  /\ exists x, watches (plat bothActive) = [x]
       /\ locationWatchIdRef (refs bothActive) = Some (wid x).
Proof.
  apply (active_session_is_tracked bothActive bothActive_reachable).
  left. vm_compute. reflexivity.
Defined.

(** ** A call answered before the voices are listed *)

(** X26. When a call is answered while the speech engine lists no voice
    yet, nothing is spoken at first: the script waits in
    [onvoiceschanged].  When the engine announces its voices the first
    line of the script is spoken with the voice picked from them, and this
    also happens when the call was hung up in the meantime. *)
Theorem call_waits_for_voices a vs :
  appReachable a -> fakeCallShown (st (core a)) = true ->
  canSpeak (device a) = true -> voices (device a) = [] ->
  let a1 := appStep (Core EvAcceptCall) a in
  exists g line rest,
    lookupScript (fakeCallContact (cells a)) callScripts = Some (g, line :: rest)
    /\ said (device a1) = said (device a)
    /\ onvoiceschanged (device a1) = Some (g, line :: rest)
    /\ said (device (appStep (VoicesChanged vs) a1))
       = (line, selectVoice g vs) :: said (device a)
    /\ said (device (appStep (VoicesChanged vs) (appStep (Core EvHangUp) a1)))
       = (line, selectVoice g vs) :: said (device a).
Proof.
  intros HR Hs Hc Hv a1.
  destruct (fakeCallShown_flags _ Hs) as [Hca Hsf].
  destruct (reachable_callerKnown a HR (or_introl Hsf)) as [c Hname].
  destruct (scripts_total c) as (g & lines & Hl & Hlen).
  rewrite <- Hname in Hl.
  destruct lines as [|line rest]; [discriminate|].
  exists g, line, rest. split; [exact Hl|].
  assert (Hh : appHandler (Core EvAcceptCall) a
               = onDevice (set_onvoiceschanged (Some (g, line :: rest)))
                   (speechCancel
                      (onCore (onState (fun x => setIsCallActive true (setShowFakeCall false x))) a))).
  { cbn [appHandler]. rewrite Hs. unfold handleAcceptCall. rewrite Hl.
    cbn. rewrite Hc, Hv. reflexivity. }
  pose proof (appCommit_XFrame (st (core a)) (appHandler (Core EvAcceptCall) a)) as F.
  fold (appStep (Core EvAcceptCall) a) in F. fold a1 in F.
  rewrite Hh in F.
  assert (Hsaid : said (device a1) = said (device a)) by (rewrite (xf_said F); reflexivity).
  assert (Hwait : onvoiceschanged (device a1) = Some (g, line :: rest))
    by (rewrite (xf_waiting F); reflexivity).
  split; [exact Hsaid|]. split; [exact Hwait|].
  assert (Hspeak : forall b, onvoiceschanged (device b) = Some (g, line :: rest) ->
            said (device (appStep (VoicesChanged vs) b)) = (line, selectVoice g vs) :: said (device b)).
  { intros b Hb. unfold appStep.
    rewrite (xf_said (appCommit_XFrame (st (core b)) (appHandler (VoicesChanged vs) b))).
    cbn [appHandler]. rewrite Hb. reflexivity. }
  split.
  - rewrite Hspeak by exact Hwait. rewrite Hsaid. reflexivity.
  - pose proof (appCommit_XFrame (st (core a1)) (appHandler (Core EvHangUp) a1)) as G.
    fold (appStep (Core EvHangUp) a1) in G.
    assert (Hhang : said (device (appHandler (Core EvHangUp) a1)) = said (device a1)
                    /\ onvoiceschanged (device (appHandler (Core EvHangUp) a1))
                       = onvoiceschanged (device a1)).
    { cbn [appHandler]. destruct (activeCallShown (st (core a1))); [|auto].
      unfold handleHangUp. cbn. destruct (canSpeak (device a1)); auto. }
    destruct Hhang as [H1 H2].
    rewrite Hspeak by (rewrite (xf_waiting G), H2; exact Hwait).
    rewrite (xf_said G), H1, Hsaid. reflexivity.
Qed.

Lemma call_waits_for_voices_witness :
  exists g line rest,
    lookupScript (fakeCallContact (cells incomingCallNoVoices)) callScripts
    = Some (g, line :: rest)
    /\ said (device (appStep (Core EvAcceptCall) incomingCallNoVoices))
       = said (device incomingCallNoVoices)
    /\ onvoiceschanged (device (appStep (Core EvAcceptCall) incomingCallNoVoices))
       = Some (g, line :: rest)
    /\ said (device (appStep (VoicesChanged [voiceDavid])
                       (appStep (Core EvAcceptCall) incomingCallNoVoices)))
       = (line, selectVoice g [voiceDavid]) :: said (device incomingCallNoVoices)
    /\ said (device (appStep (VoicesChanged [voiceDavid])
                       (appStep (Core EvHangUp)
                          (appStep (Core EvAcceptCall) incomingCallNoVoices))))
       = (line, selectVoice g [voiceDavid]) :: said (device incomingCallNoVoices).
Proof.
  apply (call_waits_for_voices incomingCallNoVoices [voiceDavid]).
  - unfold incomingCallNoVoices. apply appReachable_run, app_mount. lia.
  - vm_compute. reflexivity.
  - vm_compute. reflexivity.
  - vm_compute. reflexivity.
Defined.

(** ** The answer of a help lookup and of the chat *)

Lemma findXPending_dropped id l : findXPending id (dropXPending id l) = None.
Proof.
  induction l as [|[i x] l IH]; [reflexivity|].
  unfold dropXPending in *. cbn.
  destruct (Nat.eqb i id) eqn:E; cbn; [exact IH|]. rewrite E. exact IH.
Qed.

(** X27. A help lookup from the tools view: the click raises the loading
    flag, empties the answer and sends one request, and leaves the core
    as it is.  The answer of that request lowers the flag and shows the
    text with its sources, or the apology when the request failed; the
    request is then settled, so a second answer for it changes nothing. *)
Theorem help_lookup a e r :
  toolsShown (st (core a)) = true ->
  e = SelfDefenseTutorials \/ (e = HelpNearby /\ isLocationReady (st (core a)) = true) ->
  let a1 := appStep e a in
  let id := xnext (device a) in
  let a2 := appStep (HelpAnswer id r) a1 in
  (core a1 = core a
   /\ isLoading (cells a1) = true /\ aiResponse (cells a1) = Some ""
   /\ exists p, xpending (device a1) = (id, HelpRequest p) :: xpending (device a))
  /\ (isLoading (cells a2) = false
      /\ aiResponse (cells a2)
         = match r with
           | Some res => finalResponse res
           | None => Some msgHelpFailed
           end
      /\ findXPending id (xpending (device a2)) = None
      /\ appStep (HelpAnswer id r) a2 = a2).
Proof.
  intros Hs He a1 id a2.
  assert (Hview : onState (set_view Tools) (core a) = core a).
  { unfold toolsShown in Hs. apply andb_true_iff in Hs. destruct Hs as [_ Hv].
    destruct a as [w c rf d]. cbn in *. open_state w. cbn in *.
    destruct vw; try discriminate. reflexivity. }
  assert (H1 : exists p, a1 = xrequest (HelpRequest p)
                 (onCells (fun c => setAiResponse (Some "") (setIsLoading true c)) a)).
  { subst a1. unfold appStep.
    assert (Hf : forall p, fetchAiHelp p a
                 = xrequest (HelpRequest p)
                     (onCells (fun c => setAiResponse (Some "") (setIsLoading true c)) a)).
    { intros p. unfold fetchAiHelp. f_equal. f_equal.
      unfold onCore. apply onCore_same. exact Hview. }
    destruct He as [-> | [-> Hl]]; cbn [appHandler]; rewrite Hs.
    - exists SelfDefense. rewrite Hf. apply appCommit_core_same. reflexivity.
    - rewrite Hl. cbn [andb].
      unfold isLocationReady in Hl.
      destruct (location (st (core a))) as [l|]; [|discriminate].
      exists (NearbyHelp l). rewrite Hf. apply appCommit_core_same. reflexivity. }
  destruct H1 as [p H1].
  assert (H2 : a2 = helpSettled r
                 (onDevice (fun d => set_xpending (dropXPending id (xpending d)) d) a1)).
  { assert (Hfind : findXPending id (xpending (device a1)) = Some (HelpRequest p)).
    { rewrite H1. subst id. cbn. rewrite Nat.eqb_refl. reflexivity. }
    subst a2. unfold appStep. cbn [appHandler]. rewrite Hfind.
    apply appCommit_core_same. destruct r; reflexivity. }
  split.
  - rewrite H1. repeat split. exists p. reflexivity.
  - assert (Hgone : findXPending id (xpending (device a2)) = None).
    { rewrite H2. destruct r; cbn; apply findXPending_dropped. }
    rewrite H2 at 1 2. split; [destruct r; reflexivity|].
    split; [destruct r; reflexivity|]. split; [exact Hgone|].
    unfold appStep. cbn [appHandler]. rewrite Hgone.
    apply appCommit_core_same. reflexivity.
Qed.

Lemma help_lookup_witness :
  aiResponse (cells (appStep (HelpAnswer (xnext (device (appStep (Core (EvNav Tools)) appStarted))) None)
                       (appStep SelfDefenseTutorials (appStep (Core (EvNav Tools)) appStarted))))
  = Some msgHelpFailed.
Proof.
  assert (Hs : toolsShown (st (core (appStep (Core (EvNav Tools)) appStarted))) = true)
    by (vm_compute; reflexivity).
  destruct (help_lookup (appStep (Core (EvNav Tools)) appStarted) SelfDefenseTutorials None
              Hs (or_introl eq_refl)) as [_ (_ & H & _)].
  exact H.
Defined.

(** X28. The answer of a chat request: the reply of the model is appended
    to the history as it came, or the apology when the request failed,
    and the loading flag goes down; the request is then settled, so a
    second answer for it changes nothing. *)
Theorem chat_answer a id m r :
  findXPending id (xpending (device a)) = Some (ChatRequest m) ->
  let a' := appStep (ChatAnswer id r) a in
  chatHistory (cells a')
  = (chatHistory (cells a)
       ++ [mkMsg Bot match r with Some t => t | None => Some msgChatFailed end])%list
  /\ isLoading (cells a') = false
  /\ chatInput (cells a') = chatInput (cells a)
  /\ findXPending id (xpending (device a')) = None
  /\ appStep (ChatAnswer id r) a' = a'.
Proof.
  intros Hf a'.
  assert (H : a' = chatSettled r
                (onDevice (fun d => set_xpending (dropXPending id (xpending d)) d) a)).
  { subst a'. unfold appStep. cbn [appHandler]. rewrite Hf.
    apply appCommit_core_same. reflexivity. }
  assert (Hgone : findXPending id (xpending (device a')) = None).
  { rewrite H. cbn. apply findXPending_dropped. }
  split; [rewrite H; destruct r; reflexivity|].
  split; [rewrite H; reflexivity|].
  split; [rewrite H; reflexivity|].
  split; [exact Hgone|].
  unfold appStep. cbn [appHandler]. rewrite Hgone.
  apply appCommit_core_same. reflexivity.
Qed.

Lemma chat_answer_witness :
  chatHistory (cells (appRun [ChatSubmit; ChatAnswer 1 None] chatOpen))
  = [mkMsg User (Some "Is it safe to walk home?"); mkMsg Bot (Some msgChatFailed)].
Proof.
  assert (Hf : findXPending 1 (xpending (device (appStep ChatSubmit chatOpen)))
               = Some (ChatRequest "Is it safe to walk home?")) by (vm_compute; reflexivity).
  destruct (chat_answer (appStep ChatSubmit chatOpen) 1 _ None Hf) as [H _].
  vm_compute in H |- *. exact H.
Defined.

(** ** The timers that are pending after a render *)

Lemma reachable_one_timer w : reachable w -> (List.length (timers (plat w)) <= 1)%nat.
Proof.
  induction 1 as [t0 v l H|e w HR IH]; [cbn; lia|].
  apply step_timers; [assumption|]. apply IH.
Qed.

(** X7. After every render the pending timers are accounted for.  Of
    the timers of the sharing countdown and of the key gesture at most one
    is pending, and only while a sharing session with an end time is on:
    it is the countdown tick of that session, the one
    [locationSharingTimerRef] holds; no timer of the key gesture outlives
    the render that follows its callback.  Every other pending timer is
    the one-second tick of the call clock, which is pending only while a
    call is active and is the one [timerIntervalRef] holds, or a pause of
    the speech sequence (line 414). *)
Theorem timers_after_render a :
  appReachable a ->
  ((List.length (timers (plat (core a))) <= 1)%nat
   /\ (forall t, In t (timers (plat (core a))) ->
         exists e, kind t = ShareTick e
           /\ isSharingLocation (st (core a)) = true
           /\ sharingEndTime (st (core a)) = Some e
           /\ locationSharingTimerRef (refs (core a)) = Some (tid t))
   /\ (isSharingLocation (st (core a)) = false \/ sharingEndTime (st (core a)) = None ->
       timers (plat (core a)) = []))
  /\ (forall t, In t (xtimers (device a)) ->
        (xkind t = CallTick
         /\ isCallActive (st (core a)) = true
         /\ timerIntervalRef (xrefs a) = Some (xid t))
        \/ exists lines voice, xkind t = SpeakNext lines voice).
Proof.
  intros HA.
  pose proof (appReachable_core a HA) as HR.
  pose proof (reachable_Inv _ HR) as HI.
  split; [split; [|split]|].
  - apply reachable_one_timer, HR.
  - intros t Hin.
    destruct (Inv_timer _ t HI Hin) as (e & Hk & Href & HS & HE & _).
    exists e. auto.
  - intros [H|H]; [apply Inv_no_timer|apply Inv_no_tick]; assumption.
  - intros t Hin.
    destruct (reachable_clockKept a HA) as [K1 K2].
    destruct (xkind t) as [|lines voice] eqn:Hk; [left|right; eauto].
    assert (Htick : isCallTick t = true) by (unfold isCallTick; rewrite Hk; reflexivity).
    split; [reflexivity|]. split; [|apply K2; assumption].
    destruct (isCallActive (st (core a))) eqn:Hc; [reflexivity|].
    destruct (K1 eq_refl) as [_ Hnone].
    rewrite (Hnone t Hin) in Htick. discriminate.
Qed.

Lemma timers_after_render_witness :
  (List.length (timers (plat (core (appStep (Core EvAcceptCall) incomingCall)))) <= 1)%nat
  /\ forall t, In t (xtimers (device (appStep (Core EvAcceptCall) incomingCall))) ->
       (xkind t = CallTick
        /\ isCallActive (st (core (appStep (Core EvAcceptCall) incomingCall))) = true
        /\ timerIntervalRef (xrefs (appStep (Core EvAcceptCall) incomingCall)) = Some (xid t))
       \/ exists lines voice, xkind t = SpeakNext lines voice.
Proof.
  destruct (timers_after_render (appStep (Core EvAcceptCall) incomingCall))
    as [(H1 & _) H2].
  - apply app_step, incomingCall_reachable.
  - split; [exact H1|exact H2].
Defined.

(** ** C8: the status text of a session without a time limit *)

(** The render writes no status text unless the session or its end time
    changed (line 244). *)
Lemma st_commit_share s0 w :
  isSharingLocation (st w) = isSharingLocation s0 ->
  sharingEndTime (st w) = sharingEndTime s0 ->
  st (commit s0 w) = st w.
Proof.
  intros H1 H2. unfold commit; cbv zeta.
  assert (Hc : shareDepsChanged s0 (st w) = false).
  { unfold shareDepsChanged. rewrite H1, H2, Bool.eqb_reflx, optZEqb_refl. reflexivity. }
  rewrite Hc.
  destruct (watchDepsChanged s0 (st w)), (gestureDepsChanged s0 (st w));
    rewrite ?st_effectWatch, ?st_cleanupGesture, ?st_cleanupWatch; reflexivity.
Qed.

(** In a session without a time limit a callback other than the stop
    button leaves the status text as it is or, for a watch error, writes
    the notice of line 174. *)
Lemma indefinite_text_step e w :
  reachable w ->
  isSharingLocation (st w) = true -> sharingEndTime (st w) = None ->
  isStopSharing e = false ->
  remainingTime (st (step e w)) = remainingTime (st w)
  \/ remainingTime (st (step e w)) = msgWatchSharing.
Proof.
  intros HR HS HE Hstop.
  pose proof (reachable_Inv w HR) as HI.
  assert (Hh : isSharingLocation (st (handler e w)) = true
               /\ sharingEndTime (st (handler e w)) = None
               /\ (remainingTime (st (handler e w)) = remainingTime (st w)
                   \/ remainingTime (st (handler e w)) = msgWatchSharing)).
  { destruct (besideSharing e) eqn:Hb.
    - destruct (handler_besideSharing e w Hb) as (-> & -> & ->). auto.
    - destruct e; try discriminate; cbn [handler].
      + unfold fireTimer. rewrite (Inv_no_tick w HI HE). auto.
      + unfold handleKeyDown, gestureInert. rewrite HS, !orb_true_r. auto.
      + destruct (findWatch id (watches (plat w))) as [x|]; [|auto].
        unfold watchError. destruct (capturedSharing x); cbn; auto.
      + destruct (shareOptionsShown (st w)) eqn:Hshown; [|auto].
        apply shareOptionsShown_flags in Hshown.
        destruct Hshown as (_ & _ & _ & ? & _). congruence. }
  destruct Hh as (H1 & H2 & H3).
  unfold step. rewrite st_commit_share by congruence. exact H3.
Qed.

Lemma indefinite_text_run es : forall w,
  reachable w ->
  isSharingLocation (st w) = true -> sharingEndTime (st w) = None ->
  forallb (fun e => negb (isStopSharing e)) es = true ->
  remainingTime (st (run es w)) = remainingTime (st w)
  \/ remainingTime (st (run es w)) = msgWatchSharing.
Proof.
  induction es as [|e es IH]; intros w HR HS HE Hes; [now left|].
  cbn in Hes. apply andb_true_iff in Hes. destruct Hes as [He Hes].
  apply negb_true_iff in He.
  destruct (indefinite_step e w HR HS HE He) as (B1 & B2 & _).
  cbn [run].
  destruct (IH (step e w) (reach_step e HR) B1 B2 Hes) as [->| ->]; [|now right].
  apply indefinite_text_step; assumption.
Qed.

(** C8 (as amended). A session started without a duration shows exactly
    ["Sharing indefinitely"], has no timer, and stays active without an
    end time and without a timer whatever happens, short of the stop
    button, which ends it.  Its text stays ["Sharing indefinitely"] until
    the position watch reports an error: the error replaces the text by
    the notice of line 174, and from then on the text is that notice for
    the rest of the session. *)
Theorem sharing_indefinitely w es :
  reachable w -> shareOptionsShown (st w) = true -> hasLocation (st w) = true ->
  forallb (fun e => negb (isStopSharing e)) es = true ->
  let w1 := step (EvStartSharing None) w in
  let w2 := run es w1 in
  (isSharingLocation (st w1) = true
   /\ sharingEndTime (st w1) = None
   /\ remainingTime (st w1) = "Sharing indefinitely"
   /\ timers (plat w1) = [])
  /\ (isSharingLocation (st w2) = true
      /\ sharingEndTime (st w2) = None
      /\ timers (plat w2) = []
      /\ (forallb (fun e => negb (isWatchError e)) es = true ->
          remainingTime (st w2) = "Sharing indefinitely")
      /\ (remainingTime (st w2) = "Sharing indefinitely"
          \/ remainingTime (st w2) = msgWatchSharing)
      /\ (exists x, watches (plat w2) = [x]
            /\ forall es', forallb (fun e => negb (isStopSharing e)) es' = true ->
                 remainingTime (st (run es' (step (EvWatchError (wid x)) w2)))
                 = msgWatchSharing)
      /\ (sharingShown (st w2) = true -> hasLocation (st w2) = true ->
          isSharingLocation (st (step EvStopSharing w2)) = false)).
Proof.
  intros HR Hshown Hloc Hes w1 w2.
  assert (HR1 : reachable w1) by (constructor; assumption).
  assert (H1 : isSharingLocation (st w1) = true /\ sharingEndTime (st w1) = None
               /\ remainingTime (st w1) = msgIndefinitely).
  { subst w1. unfold step. cbn [handler]. rewrite Hshown.
    unfold handleStartSharing. unfold hasLocation in Hloc.
    destruct (location (st w)); [|discriminate].
    match goal with
    | |- context [commit ?s0 ?x] =>
        destruct (st_commit s0 x) as [E|(_ & _ & E)]; rewrite E; cbn; auto
    end. }
  destruct H1 as (A1 & A2 & A3).
  assert (HR2 : reachable w2) by (apply reachable_run; assumption).
  destruct (indefinite_run es w1 HR1 A1 A2 Hes) as (B1 & B2 & B3).
  fold w2 in B1, B2, B3.
  pose proof (reachable_Inv w2 HR2) as HI2.
  split; [|split; [|split; [|split; [|split; [|split; [|split]]]]]]; auto.
  - repeat split; auto. apply Inv_no_tick; [apply reachable_Inv|]; assumption.
  - apply Inv_no_tick; assumption.
  - destruct (indefinite_text_run es w1 HR1 A1 A2 Hes) as [E|E]; fold w2 in E.
    + left. rewrite E. exact A3.
    + right. exact E.
  - pose proof (reachable_activeHasLocation w2 HR2 (or_intror B1)) as Hl2.
    pose proof (cf_watch (proj1 HI2)) as Hw.
    assert (Htr : tracking (st w2) = true).
    { unfold tracking. rewrite B1, Hl2, orb_true_r. reflexivity. }
    destruct (watches (plat w2)) as [|x [|y l]] eqn:Ew;
      [destruct Hw as [_ Hw]; congruence| |contradiction].
    exists x. split; [reflexivity|]. intros es' Hes'.
    assert (Hin : In x (watches (plat w2))) by (rewrite Ew; now left).
    destruct (Inv_watch w2 x HI2 Hin) as (_ & _ & _ & Hcap).
    assert (Hf : findWatch (wid x) (watches (plat w2)) = Some x).
    { rewrite Ew. unfold findWatch. cbn. rewrite Nat.eqb_refl. reflexivity. }
    assert (Hstep : step (EvWatchError (wid x)) w2
                    = onState (setRemainingTime msgWatchSharing) w2).
    { unfold step. cbn [handler]. rewrite Hf. unfold watchError.
      rewrite Hcap, B1. apply commit_sameDeps. repeat split. }
    assert (HR3 : reachable (step (EvWatchError (wid x)) w2)) by (constructor; assumption).
    destruct (indefinite_text_run es' (step (EvWatchError (wid x)) w2) HR3)
      as [E|E]; try assumption.
    + rewrite Hstep. exact B1.
    + rewrite Hstep. exact B2.
    + rewrite E, Hstep. reflexivity.
  - intros Hs Hl. unfold step. cbn [handler]. rewrite Hs, Hl. cbn [andb].
    match goal with
    | |- context [commit ?s0 ?x] => destruct (commit_fields s0 x) as (_ & -> & _)
    end.
    reflexivity.
Qed.

Lemma sharing_indefinitely_witness :
  remainingTime (st (step (EvStartSharing None) optionsOpen)) = "Sharing indefinitely"
  /\ isSharingLocation
       (st (run [EvElapse 86400000; EvTimer 5; EvKeyDown volUp false]
              (step (EvStartSharing None) optionsOpen))) = true
  /\ remainingTime
       (st (run [EvElapse 86400000; EvTimer 5; EvKeyDown volUp false]
              (step (EvStartSharing None) optionsOpen))) = "Sharing indefinitely".
Proof.
  assert (H1 : shareOptionsShown (st optionsOpen) = true) by (vm_compute; reflexivity).
  assert (H2 : hasLocation (st optionsOpen) = true) by (vm_compute; reflexivity).
  pose proof (sharing_indefinitely optionsOpen
                [EvElapse 86400000; EvTimer 5; EvKeyDown volUp false]
                optionsOpen_reachable H1 H2 eq_refl) as H.
  cbv zeta in H. destruct H as ((_ & _ & A & _) & (B & _ & _ & C & _)).
  split; [exact A|]. split; [exact B|]. apply C. reflexivity.
Defined.

(** C8 (as stated) fails: in a session without a time limit the watch
    reports an error; an hour and a good position later the session is
    still on, without an end time and without a timer, and its text is not
    ["Sharing indefinitely"] but the notice of the error. *)
Lemma indefinite_text_is_replaced :
  remainingTime (st (step (EvStartSharing None) optionsOpen)) = "Sharing indefinitely"
  /\ findWatch 4 (watches (plat (step (EvStartSharing None) optionsOpen)))
     = Some (mkWatch 4 true)
  /\ isSharingLocation
       (st (run [EvWatchError 4; EvElapse 3600000; EvWatchFix 4 48858200 2294200]
              (step (EvStartSharing None) optionsOpen))) = true
  /\ sharingEndTime
       (st (run [EvWatchError 4; EvElapse 3600000; EvWatchFix 4 48858200 2294200]
              (step (EvStartSharing None) optionsOpen))) = None
  /\ remainingTime
       (st (run [EvWatchError 4; EvElapse 3600000; EvWatchFix 4 48858200 2294200]
              (step (EvStartSharing None) optionsOpen)))
     = "Live tracking paused. Sharing last known location."
  /\ remainingTime
       (st (run [EvWatchError 4; EvElapse 3600000; EvWatchFix 4 48858200 2294200]
              (step (EvStartSharing None) optionsOpen)))
     <> "Sharing indefinitely".
Proof. vm_compute. repeat split; discriminate. Qed.
